(** * Object-Storage: the storage engine of cmd/server/server.go

    A shallow embedding of the engine ([ObjectStorage] and its methods) over
    an explicit model of the directory tree it owns, and the properties of
    the engine stated in the specification.

    Layout of the development:
    - [Filepath]: path/filepath ([Join], [Dir], [Rel]) on slash-separated
      relative paths;
    - [MD5], [Hex]: crypto/md5 and encoding/hex;
    - [Os]: the part of package os the engine calls, on a tree of regular
      files and directories;
    - [Engine]: the methods of [ObjectStorage], in a state-and-error monad;
    - the theorems. *)

From Stdlib Require Import ZArith String Ascii List.
From Stdlib.Strings Require Import Byte.
From stdpp Require Import base option list gmap strings sorting pretty.

Local Open Scope string_scope.
Local Open Scope list_scope.

(** ** path/filepath *)

Module Filepath.

(** A cleaned relative path is kept as the list of its components:
    ["storage/data/b"] is [["storage"; "data"; "b"]] and ["."] is [[]]. *)
Abbreviation path := (list string).

(** strings.Split(s, "/"). *)
Fixpoint split_slash (s : string) : list string :=
  match s with
  | EmptyString => [EmptyString]
  | String c s' =>
      if decide (c = "/"%char) then EmptyString :: split_slash s'
      else match split_slash s' with
           | [] => [String c EmptyString]
           | w :: ws => String c w :: ws
           end
  end.

(** filepath.Clean, component by component, on top of an already cleaned
    prefix [stack]: empty and ["."] elements vanish, [".."] removes the
    element before it unless there is none (or it is itself [".."]), in
    which case it stays, as for any relative path. *)
Fixpoint clean_onto (stack : path) (elems : list string) : path :=
  match elems with
  | [] => stack
  | e :: es =>
      if decide (e = "" ∨ e = ".") then clean_onto stack es
      else if decide (e = "..") then
        match last stack with
        | Some t =>
            if decide (t = "..") then clean_onto (stack ++ [".."]) es
            else clean_onto (removelast stack) es
        | None => clean_onto (stack ++ [".."]) es
        end
      else clean_onto (stack ++ [e]) es
  end.

(** filepath.Join(base, elems...), for a cleaned [base]. *)
Definition Join (base : path) (elems : list string) : path :=
  clean_onto base (flat_map split_slash elems).

(** filepath.Dir. *)
Definition Dir (p : path) : path := removelast p.

(** The string of a cleaned path. *)
Definition path_string (p : path) : string :=
  match p with
  | [] => "."
  | _ => String.concat "/" p
  end.

Fixpoint strip_common (b t : path) : path * path :=
  match b, t with
  | x :: b', y :: t' => if decide (x = y) then strip_common b' t' else (b, t)
  | _, _ => (b, t)
  end.

(** filepath.Rel(base, targ): [None] is its error
    ("Rel: can't make targ relative to base"). *)
Definition Rel (base targ : path) : option string :=
  let '(b, t) := strip_common base targ in
  if decide (".." ∈ b) then None
  else Some (path_string (replicate (length b) ".." ++ t)).

(** A name that is one path component and stays as it is under [Clean]. *)
Definition valid_name (c : string) : Prop :=
  split_slash c = [c] ∧ c ≠ "" ∧ c ≠ "." ∧ c ≠ "..".

#[global] Instance valid_name_dec c : Decision (valid_name c).
Proof. unfold valid_name. apply _. Defined.

(** An object key whose components are all valid names. *)
Definition clean_key (k : string) : Prop :=
  Forall valid_name (split_slash k).

#[global] Instance clean_key_dec k : Decision (clean_key k).
Proof. unfold clean_key. apply _. Defined.

End Filepath.

Import Filepath.

Example Join_example :
  Join ["storage"; "data"] ["photos"; "2024/./a//b/../c.txt"]
  = ["storage"; "data"; "photos"; "2024"; "a"; "c.txt"].
Proof. reflexivity. Qed.

Example Join_trailing_slash :
  Join ["storage"; "data"] ["b"; "a/"] = ["storage"; "data"; "b"; "a"].
Proof. reflexivity. Qed.

Example Rel_example :
  Rel ["storage"; "data"; "b"] ["storage"; "data"; "b"; "x"; "y.txt"]
  = Some "x/y.txt".
Proof. reflexivity. Qed.

Example Rel_self : Rel ["d"; "b"] ["d"; "b"] = Some ".".
Proof. reflexivity. Qed.

(** ** crypto/md5 and encoding/hex *)

Module MD5.
Local Open Scope Z_scope.

Definition byte_Z (b : byte) : Z := Z.of_N (Byte.to_N b).
Definition Z_byte (z : Z) : byte :=
  default x00 (Byte.of_N (Z.to_N (z mod 256))).

Definition add32 (x y : Z) : Z := (x + y) mod 2 ^ 32.
Definition not32 (x : Z) : Z := Z.lxor x 0xffffffff.
Definition rotl32 (x s : Z) : Z :=
  Z.lor (Z.shiftl x s mod 2 ^ 32) (Z.shiftr x (32 - s)).

(** The sine table and the shift amounts of RFC 1321. *)
Definition K : list Z :=
  [0xd76aa478; 0xe8c7b756; 0x242070db; 0xc1bdceee;
   0xf57c0faf; 0x4787c62a; 0xa8304613; 0xfd469501;
   0x698098d8; 0x8b44f7af; 0xffff5bb1; 0x895cd7be;
   0x6b901122; 0xfd987193; 0xa679438e; 0x49b40821;
   0xf61e2562; 0xc040b340; 0x265e5a51; 0xe9b6c7aa;
   0xd62f105d; 0x02441453; 0xd8a1e681; 0xe7d3fbc8;
   0x21e1cde6; 0xc33707d6; 0xf4d50d87; 0x455a14ed;
   0xa9e3e905; 0xfcefa3f8; 0x676f02d9; 0x8d2a4c8a;
   0xfffa3942; 0x8771f681; 0x6d9d6122; 0xfde5380c;
   0xa4beea44; 0x4bdecfa9; 0xf6bb4b60; 0xbebfbc70;
   0x289b7ec6; 0xeaa127fa; 0xd4ef3085; 0x04881d05;
   0xd9d4d039; 0xe6db99e5; 0x1fa27cf8; 0xc4ac5665;
   0xf4292244; 0x432aff97; 0xab9423a7; 0xfc93a039;
   0x655b59c3; 0x8f0ccc92; 0xffeff47d; 0x85845dd1;
   0x6fa87e4f; 0xfe2ce6e0; 0xa3014314; 0x4e0811a1;
   0xf7537e82; 0xbd3af235; 0x2ad7d2bb; 0xeb86d391].

Definition shifts : list Z :=
  [7; 12; 17; 22; 7; 12; 17; 22; 7; 12; 17; 22; 7; 12; 17; 22;
   5; 9; 14; 20; 5; 9; 14; 20; 5; 9; 14; 20; 5; 9; 14; 20;
   4; 11; 16; 23; 4; 11; 16; 23; 4; 11; 16; 23; 4; 11; 16; 23;
   6; 10; 15; 21; 6; 10; 15; 21; 6; 10; 15; 21; 6; 10; 15; 21].

(** Little-endian words. *)
Definition le_bytes (n : nat) (z : Z) : list byte :=
  map (λ i, Z_byte (Z.shiftr z (8 * Z.of_nat i))) (seq 0 n).

Fixpoint le_word (bs : list byte) : Z :=
  match bs with
  | [] => 0
  | b :: bs' => byte_Z b + 256 * le_word bs'
  end.

Fixpoint words (n : nat) (bs : list byte) : list Z :=
  match n with
  | O => []
  | S n' => le_word (take 4 bs) :: words n' (drop 4 bs)
  end.

Definition pad (msg : list byte) : list byte :=
  let len := Z.of_nat (length msg) in
  msg ++ [x80] ++ replicate (Z.to_nat ((55 - len) mod 64)) x00
      ++ le_bytes 8 ((8 * len) mod 2 ^ 64).

Definition step (M : list Z) (st : Z * Z * Z * Z) (i : nat) : Z * Z * Z * Z :=
  let '(A, B, C, D) := st in
  let '(F, g) :=
    if (i <? 16)%nat then (Z.lor (Z.land B C) (Z.land (not32 B) D), i)
    else if (i <? 32)%nat then
      (Z.lor (Z.land D B) (Z.land (not32 D) C), ((5 * i + 1) mod 16)%nat)
    else if (i <? 48)%nat then
      (Z.lxor (Z.lxor B C) D, ((3 * i + 5) mod 16)%nat)
    else (Z.lxor C (Z.lor B (not32 D)), ((7 * i) mod 16)%nat) in
  let F' := add32 (add32 (add32 F A) (K !!! i)) (M !!! g) in
  (D, add32 B (rotl32 F' (shifts !!! i)), B, C).

Definition block (st : Z * Z * Z * Z) (bs : list byte) : Z * Z * Z * Z :=
  let '(a0, b0, c0, d0) := st in
  let '(A, B, C, D) := foldl (step (words 16 bs)) st (seq 0 64) in
  (add32 a0 A, add32 b0 B, add32 c0 C, add32 d0 D).

Fixpoint blocks (n : nat) (st : Z * Z * Z * Z) (bs : list byte) :=
  match n with
  | O => st
  | S n' => blocks n' (block st (take 64 bs)) (drop 64 bs)
  end.

(** md5.Sum: the 16-byte digest of a message. *)
Definition Sum (msg : list byte) : list byte :=
  let p := pad msg in
  let '(a, b, c, d) :=
    blocks (length p / 64) (0x67452301, 0xefcdab89, 0x98badcfe, 0x10325476) p in
  le_bytes 4 a ++ le_bytes 4 b ++ le_bytes 4 c ++ le_bytes 4 d.

(** The running hash of md5.New(): what has been written to it so far. *)
Record digest := Digest { written : list byte }.
Definition New : digest := Digest [].
Definition Write (h : digest) (p : list byte) : digest :=
  Digest (written h ++ p).
Definition Sum_nil (h : digest) : list byte := Sum (written h).

End MD5.

Module Hex.

Definition hextable : list ascii :=
  ["0"; "1"; "2"; "3"; "4"; "5"; "6"; "7";
   "8"; "9"; "a"; "b"; "c"; "d"; "e"; "f"]%char.

Definition digit (n : N) : ascii := nth (N.to_nat n) hextable "0"%char.

(** hex.EncodeToString. *)
Fixpoint EncodeToString (src : list byte) : string :=
  match src with
  | [] => EmptyString
  | b :: src' =>
      let v := Byte.to_N b in
      String (digit (N.shiftr v 4))
        (String (digit (N.land v 15)) (EncodeToString src'))
  end.

End Hex.

Definition bytes (s : string) : list byte := list_byte_of_string s.

Example md5_empty :
  Hex.EncodeToString (MD5.Sum []) = "d41d8cd98f00b204e9800998ecf8427e".
Proof. vm_compute. reflexivity. Qed.

Example md5_hello :
  Hex.EncodeToString (MD5.Sum (bytes "hello"))
  = "5d41402abc4b2a76b9719d911017c592".
Proof. vm_compute. reflexivity. Qed.

Example md5_two_blocks :
  Hex.EncodeToString (MD5.Sum (replicate 56 "a"%byte))
  = "3b0c8ac703f828b04c6c197006d17218".
Proof. vm_compute. reflexivity. Qed.

Example md5_fox :
  Hex.EncodeToString
    (MD5.Sum (bytes "The quick brown fox jumps over the lazy dog"))
  = "9e107d9d372bb6826bd81d3542a419d6".
Proof. vm_compute. reflexivity. Qed.

(** ** Package os, on a tree of regular files and directories

    The tree is the part of the file system below the working directory
    of the server, a finite map from cleaned relative paths to nodes; the
    working directory itself (the empty path) is a directory and is not an
    entry.  A call fails only for the reasons the tree decides (a missing
    entry, a regular file where a directory is needed, ...), with the errno
    POSIX gives. *)

Module Os.

Inductive node :=
| RegFile (data : list byte)
| Directory.

Inductive errno := ENOENT | ENOTDIR | EISDIR | EEXIST | ENOTEMPTY | EINVAL.

#[global] Instance byte_eq_dec' : EqDecision byte := byte_eq_dec.
#[global] Instance node_eq_dec : EqDecision node.
Proof. solve_decision. Defined.
#[global] Instance errno_eq_dec : EqDecision errno.
Proof. solve_decision. Defined.

(** os.IsNotExist on an errno. *)
Definition IsNotExist (e : errno) : bool :=
  match e with ENOENT => true | _ => false end.

(** info.IsDir(). *)
Definition IsDir (n : node) : bool :=
  match n with Directory => true | RegFile _ => false end.

Abbreviation tree := (gmap path node).

(** Path resolution: every component before the last must be a
    directory. *)
Fixpoint resolve (t : tree) (cur : path) (rest : list string) : errno + node :=
  match rest with
  | [] => inr Directory
  | c :: rest' =>
      match t !! (cur ++ [c]), rest' with
      | None, _ => inl ENOENT
      | Some n, [] => inr n
      | Some Directory, _ => resolve t (cur ++ [c]) rest'
      | Some (RegFile _), _ => inl ENOTDIR
      end
  end.

(** os.Lstat, os.Stat (there are no symbolic links in the tree). *)
Definition Lstat (t : tree) (p : path) : errno + node := resolve t [] p.

(** The error, if any, of reaching the directory that holds [p]. *)
Definition parent_error (t : tree) (p : path) : option errno :=
  match Lstat t (Dir p) with
  | inl e => Some e
  | inr (RegFile _) => Some ENOTDIR
  | inr Directory => None
  end.

(** os.MkdirAll: the missing directories are made from the top down; a
    regular file on the way stops it. *)
Fixpoint mkdir_from (t : tree) (cur : path) (rest : list string)
  : tree * option errno :=
  match rest with
  | [] => (t, None)
  | c :: rest' =>
      match t !! (cur ++ [c]) with
      | Some (RegFile _) => (t, Some ENOTDIR)
      | Some Directory => mkdir_from t (cur ++ [c]) rest'
      | None => mkdir_from (<[cur ++ [c] := Directory]> t) (cur ++ [c]) rest'
      end
  end.

Definition MkdirAll (t : tree) (p : path) : tree * option errno :=
  mkdir_from t [] p.

(** The name of [q] inside directory [p], when [q] is an entry of [p]. *)
Definition child_of (p q : path) : option string :=
  match last q with
  | Some c => if decide (q = p ++ [c]) then Some c else None
  | None => None
  end.

Definition entries (t : tree) (p : path) : list (string * node) :=
  omap (λ '(q, n), c ← child_of p q; Some (c, n)) (map_to_list t).

Definition name_le (a b : string * node) : Prop := String.leb a.1 b.1 = true.

#[global] Instance name_le_dec a b : Decision (name_le a b).
Proof. unfold name_le. apply _. Defined.

(** os.ReadDir: the entries of a directory, sorted by file name. *)
Definition ReadDir (t : tree) (p : path) : errno + list (string * node) :=
  match Lstat t p with
  | inl e => inl e
  | inr (RegFile _) => inl ENOTDIR
  | inr Directory => inr (merge_sort name_le (entries t p))
  end.

(** os.Remove: unlink for a regular file, rmdir for an empty directory. *)
Definition Remove (t : tree) (p : path) : errno + tree :=
  match p with
  | [] => inl EINVAL
  | _ =>
      match Lstat t p with
      | inl e => inl e
      | inr (RegFile _) => inr (delete p t)
      | inr Directory =>
          match entries t p with
          | [] => inr (delete p t)
          | _ :: _ => inl ENOTEMPTY
          end
      end
  end.

(** os.WriteFile: create or truncate, then write. *)
Definition WriteFile (t : tree) (p : path) (data : list byte) : errno + tree :=
  match p with
  | [] => inl EISDIR
  | _ =>
      match parent_error t p with
      | Some e => inl e
      | None =>
          match t !! p with
          | Some Directory => inl EISDIR
          | _ => inr (<[p := RegFile data]> t)
          end
      end
  end.

(** os.ReadFile. *)
Definition ReadFile (t : tree) (p : path) : errno + list byte :=
  match Lstat t p with
  | inl e => inl e
  | inr Directory => inl EISDIR
  | inr (RegFile d) => inr d
  end.

(** os.Rename of a regular file: the target is replaced unless it is a
    directory.  (The engine only ever renames the temporary file it has
    just written; renaming a directory is outside this model and is
    refused.) *)
Definition Rename (t : tree) (old new : path) : errno + tree :=
  match Lstat t old with
  | inl e => inl e
  | inr Directory => inl EINVAL
  | inr (RegFile d) =>
      match new with
      | [] => inl EISDIR
      | _ =>
          match parent_error t new with
          | Some e => inl e
          | None =>
              if decide (old = new) then inr t
              else match t !! new with
                   | Some Directory => inl EISDIR
                   | _ => inr (<[new := RegFile d]> (delete old t))
                   end
          end
      end
  end.

(** os.CreateTemp(dir, "upload-*.tmp"): the star is replaced by a random
    number, drawn again while the name is taken, up to 10000 times. *)
Definition temp_name (r : N) : string := "upload-" +:+ pretty r +:+ ".tmp".

Fixpoint create_temp (t : tree) (dir : path) (r : N) (tries : nat)
  : errno + (tree * path * N) :=
  match tries with
  | O => inl EEXIST
  | S n =>
      match t !! (dir ++ [temp_name r]) with
      | None =>
          inr (<[dir ++ [temp_name r] := RegFile []]> t,
               dir ++ [temp_name r], N.succ r)
      | Some _ => create_temp t dir (N.succ r) n
      end
  end.

Definition CreateTemp (t : tree) (dir : path) (r : N)
  : errno + (tree * path * N) :=
  match Lstat t dir with
  | inl e => inl e
  | inr (RegFile _) => inl ENOTDIR
  | inr Directory => create_temp t dir r (N.to_nat 10000)
  end.

(** f.Write(p) on the open temporary file: the bytes are appended. *)
Definition append_file (t : tree) (p : path) (chunk : list byte) : tree :=
  match t !! p with
  | Some (RegFile d) => <[p := RegFile (d ++ chunk)]> t
  | _ => t
  end.

(** Lexical order on paths: the order in which filepath.Walk reaches the
    entries below its root (a directory before what it holds, the entries
    of a directory by name). *)
Fixpoint path_leb (p q : path) : bool :=
  match p, q with
  | [], _ => true
  | _ :: _, [] => false
  | x :: p', y :: q' =>
      match String.compare x y with
      | Lt => true
      | Gt => false
      | Eq => path_leb p' q'
      end
  end.

Definition walk_le (a b : path * node) : Prop := path_leb a.1 b.1 = true.

#[global] Instance walk_le_dec a b : Decision (walk_le a b).
Proof. unfold walk_le. apply _. Defined.

(** What filepath.Walk visits strictly below [root]: every entry that
    path resolution reaches through [root]. *)
Definition below (t : tree) (root : path) : list (path * node) :=
  filter (λ e, root `prefix_of` e.1 ∧ e.1 ≠ root ∧ Lstat t e.1 = inr e.2)
         (map_to_list t).

(** One more entry of the walk: [fn] is called unless an earlier call
    has returned an error. *)
Definition visit_next {S E : Type}
    (fn : S → path → errno + node → S * option E)
    (acc : S * option E) (e : path * node) : S * option E :=
  match acc.2 with
  | Some _ => acc
  | None => fn acc.1 e.1 (inr e.2)
  end.

(** filepath.Walk(root, fn), with the state [S] of the closure [fn]
    threaded through the calls; [fn] gets the path and either the node or
    the error of reaching it, and its error ends the walk. *)
Definition Walk {S E : Type} (t : tree) (root : path)
    (fn : S → path → errno + node → S * option E) (acc : S) : S * option E :=
  match Lstat t root with
  | inl e => fn acc root (inl e)
  | inr (RegFile d) => fn acc root (inr (RegFile d))
  | inr Directory =>
      foldl (visit_next fn) (fn acc root (inr Directory))
            (merge_sort walk_le (below t root))
  end.

(** What the file system asks of a path besides the shape of the tree:
    no NUL byte in a name, at most 255 bytes in a name (NAME_MAX) and
    fewer than 4096 bytes in the path (PATH_MAX).  The calls above do not
    look at the names: they are the file system on the paths it
    accepts. *)
Definition name_accepted (c : string) : Prop :=
  ("000"%char ∉ list_ascii_of_string c) ∧ (String.length c ≤ 255)%nat.

Definition path_accepted (p : path) : Prop :=
  Forall name_accepted p ∧ (String.length (path_string p) < 4096)%nat.

#[global] Instance path_accepted_dec p : Decision (path_accepted p).
Proof. unfold path_accepted, name_accepted. apply _. Defined.

(** The same for the temporary file os.CreateTemp(dir, "upload-*.tmp")
    makes in [dir]: its name is "upload-", at most ten digits and
    ".tmp". *)
Definition temp_accepted (dir : path) : Prop :=
  (String.length (path_string dir) + 22 < 4096)%nat.

#[global] Instance temp_accepted_dec dir : Decision (temp_accepted dir).
Proof. unfold temp_accepted. apply _. Defined.

End Os.

(** ** The storage engine *)

Module Engine.
Import Os.

(** time.Time is an instant, counted in ticks of the clock. *)
Record Bucket := { Name : string; Created : Z }.

Record ObjectStorage := { dataDir : path; metadataDir : path }.

Record ObjectMetadata := {
  Key : string;
  Size : Z;
  ContentType : string;
  ETag : string;
  LastModified : Z
}.

(** Go errors: the errors of package os carry the operation, the path and
    the errno; fmt.Errorf wraps a cause in a message. *)
Inductive error :=
| PathError (op : string) (p : path) (e : errno)
| ReadError
| SyntaxError
| RelError
| Errorf (msg : string)
| Errorf_w (msg : string) (cause : error).

(** os.IsNotExist(err): false on nil; it looks at the errno of an os error
    and does not see through fmt.Errorf. *)
Definition IsNotExist (err : option error) : bool :=
  match err with
  | Some (PathError _ _ e) => Os.IsNotExist e
  | _ => false
  end.

(** encoding/json on the two descriptors.  json.MarshalIndent cannot fail
    on them (plain fields, a time.Now() instant), so it is a function;
    json.Unmarshal fails on what it cannot parse, and reads back what
    MarshalIndent wrote. *)
Class JSON := {
  MarshalObject : ObjectMetadata → list byte;
  UnmarshalObject : list byte → option ObjectMetadata;
  MarshalBucket : Bucket → list byte;
  UnmarshalBucket : list byte → option Bucket;
  object_round_trip m : UnmarshalObject (MarshalObject m) = Some m;
  bucket_round_trip b : UnmarshalBucket (MarshalBucket b) = Some b
}.

(** The payload stream handed to PutObject: what its Read calls return,
    up to io.EOF or an error. *)
Inductive Reader :=
| EOF
| Failing
| Chunk (p : list byte) (rest : Reader).

Fixpoint reader_bytes (r : Reader) : list byte :=
  match r with
  | Chunk p rest => p ++ reader_bytes rest
  | _ => []
  end.

Fixpoint reader_ok (r : Reader) : bool :=
  match r with
  | EOF => true
  | Failing => false
  | Chunk _ rest => reader_ok rest
  end.

(** The world a call runs in: the tree, the clock behind time.Now() and
    the random source behind os.CreateTemp. *)
Record World := { files : tree; clock : Z; rand : N }.

Definition set_files (w : World) (t : tree) : World :=
  {| files := t; clock := clock w; rand := rand w |}.

Inductive result (A : Type) :=
| Ok (a : A)
| Err (e : error).
Arguments Ok {A} a.
Arguments Err {A} e.

(** A call returns a value or an error, and leaves a world behind in both
    cases. *)
Definition IO (A : Type) : Type := World → result A * World.

#[global] Instance IO_ret : MRet IO := λ A a w, (Ok a, w).
#[global] Instance IO_bind : MBind IO := λ A B k m w,
  match m w with
  | (Ok a, w') => k a w'
  | (Err e, w') => (Err e, w')
  end.

Definition fail {A} (e : error) : IO A := λ w, (Err e, w).

(** The [err] of [v, err := f()]: nil on success. *)
Definition err_of {A} (r : result A) : option error :=
  match r with
  | Ok _ => None
  | Err e => Some e
  end.

(** [v, err := f()], with the error inspected by the caller. *)
Definition try {A} (m : IO A) : IO (result A) := λ w,
  let '(r, w') := m w in (Ok r, w').

(** [if err != nil { return fmt.Errorf(msg + ": %w", err) }]. *)
Definition wrap {A} (msg : string) (m : IO A) : IO A := λ w,
  match m w with
  | (Ok a, w') => (Ok a, w')
  | (Err e, w') => (Err (Errorf_w msg e), w')
  end.

Definition lift {A} (op : string) (p : path) (r : errno + A) : result A :=
  match r with
  | inl e => Err (PathError op p e)
  | inr a => Ok a
  end.

(** *** The methods that forward to package os *)

Definition time_Now : IO Z := λ w,
  (Ok (clock w), {| files := files w; clock := clock w + 1; rand := rand w |}).

Definition MkdirAll (p : path) : IO unit := λ w,
  let '(t, e) := Os.MkdirAll (files w) p in
  (match e with
   | None => Ok ()
   | Some e => Err (PathError "mkdir" p e)
   end, set_files w t).

Definition update (op : string) (p : path) (r : errno + tree) : IO unit := λ w,
  match r with
  | inl e => (Err (PathError op p e), w)
  | inr t => (Ok (), set_files w t)
  end.

Definition Remove (p : path) : IO unit := λ w,
  update "remove" p (Os.Remove (files w) p) w.

Definition Rename (oldpath newpath : path) : IO unit := λ w,
  update "rename" oldpath (Os.Rename (files w) oldpath newpath) w.

Definition WriteFile (p : path) (data : list byte) : IO unit := λ w,
  update "open" p (Os.WriteFile (files w) p data) w.

Definition Stat (p : path) : IO node := λ w,
  (lift "stat" p (Os.Lstat (files w) p), w).

(** os.Open: the handle is the node that was opened; reading a regular
    file gives its bytes. *)
Definition Open (p : path) : IO node := λ w,
  (lift "open" p (Os.Lstat (files w) p), w).

Definition ReadFile (p : path) : IO (list byte) := λ w,
  (lift "open" p (Os.ReadFile (files w) p), w).

Definition ReadDir (p : path) : IO (list (string * node)) := λ w,
  (lift "open" p (Os.ReadDir (files w) p), w).

Definition CreateTemp (dir : path) : IO path := λ w,
  match Os.CreateTemp (files w) dir (rand w) with
  | inl e => (Err (PathError "open" dir e), w)
  | inr (t, name, r) =>
      (Ok name, {| files := t; clock := clock w; rand := r |})
  end.

(** io.Copy(io.MultiWriter(tempFile, hash), data): every chunk read goes
    to the file and to the hash; the count and the error of the reader
    come back. *)
Fixpoint io_Copy (tempFile : path) (hash : MD5.digest) (data : Reader)
    (written : Z) (w : World) : (Z * MD5.digest * option error) * World :=
  match data with
  | EOF => ((written, hash, None), w)
  | Failing => ((written, hash, Some ReadError), w)
  | Chunk p rest =>
      io_Copy tempFile (MD5.Write hash p) rest
        (written + Z.of_nat (length p))
        (set_files w (append_file (files w) tempFile p))
  end.

Section Methods.
Context `{JSON}.
Variable storage : ObjectStorage.

Definition NewObjectStorage (baseDir : string) : IO ObjectStorage :=
  let dataDir := Join [] [baseDir; "data"] in
  let metadataDir := Join [] [baseDir; "metadata"] in
  _ ← try (MkdirAll dataDir);
  _ ← try (MkdirAll metadataDir);
  mret {| dataDir := dataDir; metadataDir := metadataDir |}.

Definition saveBucketMetaData (bucket : Bucket) : IO unit :=
  let metadataPath := Join (metadataDir storage) [Name bucket +:+ ".json"] in
  _ ← try (MkdirAll (Dir metadataPath));
  let data := MarshalBucket bucket in
  WriteFile metadataPath data.

Definition saveObjectMetaData (bucketName : string) (metadata : ObjectMetadata)
  : IO unit :=
  let metadataPath :=
    Join (metadataDir storage) [bucketName; Key metadata +:+ ".json"] in
  _ ← try (MkdirAll (Dir metadataPath));
  let data := MarshalObject metadata in
  WriteFile metadataPath data.

Definition loadObjectMetadata (bucketName objectKey : string)
  : IO ObjectMetadata :=
  let metadataPath :=
    Join (metadataDir storage) [bucketName; objectKey +:+ ".json"] in
  data ← ReadFile metadataPath;
  match UnmarshalObject data with
  | None => fail SyntaxError
  | Some metadata => mret metadata
  end.

Definition loadBucketMetadata (bucketName : string) : IO Bucket :=
  let metadataPath := Join (metadataDir storage) [bucketName +:+ ".json"] in
  r ← try (ReadFile metadataPath);
  match r with
  | Err _ =>
      now ← time_Now;
      mret {| Name := bucketName; Created := now |}
  | Ok data =>
      match UnmarshalBucket data with
      | None => fail SyntaxError
      | Some bucket => mret bucket
      end
  end.

Definition CreateBucket (bucketName : string) : IO unit :=
  let bucketDir := Join (dataDir storage) [bucketName] in
  _ ← wrap "failed to create Bucket" (MkdirAll bucketDir);
  now ← time_Now;
  let bucket := {| Name := bucketName; Created := now |} in
  saveBucketMetaData bucket.

Definition PutObject (bucketName objectKey : string) (data : Reader)
    (contentType : string) : IO ObjectMetadata :=
  let objectPath := Join (dataDir storage) [bucketName; objectKey] in
  let objectDir := Dir objectPath in
  _ ← wrap "failed to create object directory" (MkdirAll objectDir);
  tempFile ← wrap "failed to create temp file" (CreateTemp objectDir);
  let hash := MD5.New in
  '(size, hash, err) ← (λ w, let '(r, w') := io_Copy tempFile hash data 0 w in
                             (Ok r, w'));
  match err with
  | Some e =>
      _ ← try (Remove tempFile);
      fail (Errorf_w "failed to write object data" e)
  | None =>
      r ← try (Rename tempFile objectPath);
      match r with
      | Err e =>
          _ ← try (Remove tempFile);
          fail (Errorf_w "failed to finalize object" e)
      | Ok _ =>
          now ← time_Now;
          let metadata :=
            {| Key := objectKey;
               Size := size;
               ContentType := contentType;
               ETag := Hex.EncodeToString (MD5.Sum_nil hash);
               LastModified := now |} in
          _ ← wrap "failed to save metadata"
                (saveObjectMetaData bucketName metadata);
          mret metadata
      end
  end.

Definition GetObject (bucketName objectKey : string)
  : IO (node * ObjectMetadata) :=
  let objectPath := Join (dataDir storage) [bucketName; objectKey] in
  st ← try (Stat objectPath);
  if IsNotExist (err_of st) then fail (Errorf "object not found")
  else
    file ← wrap "failed to open object" (Open objectPath);
    metadata ← wrap "failed to load metadata"
                 (loadObjectMetadata bucketName objectKey);
    mret (file, metadata).

(** [if err := f(); err != nil && !storage.IsNotExist(err) { return ... }]. *)
Definition unless_not_exist (msg : string) (m : IO unit) : IO unit :=
  r ← try m;
  match err_of r with
  | Some e =>
      if negb (IsNotExist (Some e)) then fail (Errorf_w msg e) else mret ()
  | None => mret ()
  end.

Definition DeleteObject (bucketName objectKey : string) : IO unit :=
  let objectPath := Join (dataDir storage) [bucketName; objectKey] in
  _ ← unless_not_exist "failed to delete object" (Remove objectPath);
  let metadataPath :=
    Join (dataDir storage) [bucketName; objectKey +:+ ".json"] in
  _ ← unless_not_exist "failed to delete metadata" (Remove metadataPath);
  mret ().

Fixpoint ListBuckets_loop (entries : list (string * node))
    (buckets : list Bucket) : IO (list Bucket) :=
  match entries with
  | [] => mret buckets
  | (name, info) :: rest =>
      if IsDir info then
        r ← try (loadBucketMetadata name);
        match r with
        | Err _ => ListBuckets_loop rest buckets
        | Ok bucket => ListBuckets_loop rest (buckets ++ [bucket])
        end
      else ListBuckets_loop rest buckets
  end.

Definition ListBuckets : IO (list Bucket) :=
  entries ← wrap "failed to read data directory" (ReadDir (dataDir storage));
  ListBuckets_loop entries [].

(** The closure handed to filepath.Walk by ListObjects; [objects] is the
    slice it appends to. *)
Definition ListObjects_visit (bucketName : string) (bucketPath : path)
    (w : World) (objects : list ObjectMetadata) (p : path)
    (info : errno + node) : list ObjectMetadata * option error :=
  match info with
  | inl e => (objects, Some (PathError "lstat" p e))
  | inr info =>
      if negb (IsDir info) then
        match Rel bucketPath p with
        | None => (objects, Some RelError)
        | Some relPath =>
            match (loadObjectMetadata bucketName relPath w).1 with
            | Err _ => (objects, None)
            | Ok metadata => (objects ++ [metadata], None)
            end
        end
      else (objects, None)
  end.

Definition ListObjects (bucketName : string) : IO (list ObjectMetadata) :=
  λ w,
    let bucketPath := Join (dataDir storage) [bucketName] in
    let '(objects, err) :=
      Walk (files w) bucketPath (ListObjects_visit bucketName bucketPath w) []
    in
    match err with
    | Some e => (Err e, w)
    | None => (Ok objects, w)
    end.

End Methods.

End Engine.

Import Engine.

#[global] Instance Bucket_eq_dec : EqDecision Bucket.
Proof. solve_decision. Defined.
#[global] Instance ObjectStorage_eq_dec : EqDecision ObjectStorage.
Proof. solve_decision. Defined.
#[global] Instance ObjectMetadata_eq_dec : EqDecision ObjectMetadata.
Proof. solve_decision. Defined.
#[global] Instance error_eq_dec : EqDecision error.
Proof. solve_decision. Defined.
#[global] Instance result_eq_dec `{EqDecision A} : EqDecision (result A).
Proof. solve_decision. Defined.
#[global] Instance World_eq_dec : EqDecision World.
Proof. solve_decision. Defined.

(** Closed decidable statements about concrete runs are settled by
    evaluating their decision procedure. *)
Ltac by_computation :=
  apply (bool_decide_unpack _); vm_compute; reflexivity.

(** ** A codec to run the engine with

    Any codec that reads back what it wrote will do for the theorems; this
    one writes the binary digits of the code stdpp's [Countable] gives a
    descriptor. *)

Module BitsJSON.

Fixpoint pos_bytes (p : positive) : list byte :=
  match p with
  | xH => []
  | xO q => "0"%byte :: pos_bytes q
  | xI q => "1"%byte :: pos_bytes q
  end.

Fixpoint bytes_pos (l : list byte) : option positive :=
  match l with
  | [] => Some xH
  | b :: l' =>
      if decide (b = "0"%byte) then xO <$> bytes_pos l'
      else if decide (b = "1"%byte) then xI <$> bytes_pos l'
      else None
  end.

Lemma bytes_pos_bytes p : bytes_pos (pos_bytes p) = Some p.
Proof. induction p as [q IH|q IH|]; simpl; rewrite ?IH; done. Qed.

Definition object_tuple (m : ObjectMetadata) :=
  (Key m, Size m, ContentType m, ETag m, LastModified m).
Definition tuple_object (t : string * Z * string * string * Z) :=
  let '(k, s, c, e, l) := t in
  {| Key := k; Size := s; ContentType := c; ETag := e; LastModified := l |}.

Definition bucket_tuple (b : Bucket) := (Name b, Created b).
Definition tuple_bucket (t : string * Z) :=
  {| Name := t.1; Created := t.2 |}.

#[global] Program Instance json : JSON := {|
  MarshalObject m := pos_bytes (encode (object_tuple m));
  UnmarshalObject d := p ← bytes_pos d; tuple_object <$> decode p;
  MarshalBucket b := pos_bytes (encode (bucket_tuple b));
  UnmarshalBucket d := p ← bytes_pos d; tuple_bucket <$> decode p
|}.
Next Obligation.
  intros [k s c e l]. rewrite bytes_pos_bytes. simpl.
  by rewrite decode_encode.
Qed.
Next Obligation.
  intros [n c]. rewrite bytes_pos_bytes. simpl.
  by rewrite decode_encode.
Qed.

End BitsJSON.

(** ** The HTTP handlers of the server *)

(** Package strings, as far as the handlers and the client use it. *)
Module Strings.

Definition HasPrefix (s prefix : string) : bool := String.prefix prefix s.

Fixpoint drop_string (n : nat) (s : string) : string :=
  match n, s with
  | S n', String _ s' => drop_string n' s'
  | _, _ => s
  end.

(** strings.TrimPrefix. *)
Definition TrimPrefix (s prefix : string) : string :=
  if HasPrefix s prefix then drop_string (String.length prefix) s else s.

(** strings.Cut: the text before and after the first [sep]. *)
Fixpoint Cut (s sep : string) : option (string * string) :=
  if String.prefix sep s then Some ("", drop_string (String.length sep) s)
  else match s with
       | EmptyString => None
       | String c s' =>
           match Cut s' sep with
           | Some (before, after) => Some (String c before, after)
           | None => None
           end
       end.

(** strings.Contains. *)
Definition Contains (s substr : string) : bool :=
  match Cut s substr with Some _ => true | None => false end.

(** strings.SplitN(s, sep, n) for a separator that is not empty and
    n >= 0: at most n pieces, the last one the unsplit rest. *)
Fixpoint SplitN_cuts (s sep : string) (cuts : nat) : list string :=
  match cuts with
  | O => [s]
  | S c =>
      match Cut s sep with
      | None => [s]
      | Some (before, after) => before :: SplitN_cuts after sep c
      end
  end.

Definition SplitN (s sep : string) (n : nat) : list string :=
  match n with
  | O => []
  | S c => SplitN_cuts s sep c
  end.

End Strings.

Module Server.
Import Os.
Import Strings.

(** What a handler reads of an http.Request: the method, r.URL.Path,
    r.Header.Get("Content-Type") (empty when the header is absent) and
    the body. *)
Record Request := {
  Method : string;
  URL_Path : string;
  Content_Type : string;
  Body : Reader
}.

(** The calls a handler makes on its http.ResponseWriter, in order. *)
Inductive header_value :=
| Text (s : string)
| HTTPTime (t : Z).          (* t.Format(http.TimeFormat) *)

Inductive encoded :=
| StatusMap (key value : string)    (* map[string]string{key: value} *)
| OfBuckets (l : list Bucket)
| OfMetadata (m : ObjectMetadata)
| OfObjects (l : list ObjectMetadata).

Inductive wcall :=
| Header_Set (key : string) (value : header_value)  (* w.Header().Set *)
| WriteHeader (code : nat)
| Encode (v : encoded)                    (* json.NewEncoder(w).Encode(v) *)
| Write (p : list byte)
| http_Error (error : string) (code : nat).

Definition StatusOK : nat := 200.
Definition StatusCreated : nat := 201.
Definition StatusBadRequest : nat := 400.
Definition StatusNotFound : nat := 404.
Definition StatusMethodNotAllowed : nat := 405.
Definition StatusInternalServerError : nat := 500.

Definition MethodGet : string := "GET".
Definition MethodPut : string := "PUT".

(** err.Error(): the errors of package os print the operation, the path
    and the text of the errno; fmt.Errorf prints its message and, after
    a colon, the error it wraps.  The texts of the errors that come from
    the reader of the payload, from encoding/json and from filepath.Rel
    are not fixed here. *)
Class ErrorTexts := {
  ReadError_text : string;
  SyntaxError_text : string;
  RelError_text : string
}.

Definition errno_text (e : errno) : string :=
  match e with
  | ENOENT => "no such file or directory"
  | ENOTDIR => "not a directory"
  | EISDIR => "is a directory"
  | EEXIST => "file exists"
  | ENOTEMPTY => "directory not empty"
  | EINVAL => "invalid argument"
  end.

Fixpoint Error `{ErrorTexts} (err : error) : string :=
  match err with
  | PathError op p e => op +:+ " " +:+ path_string p +:+ ": " +:+ errno_text e
  | ReadError => ReadError_text
  | SyntaxError => SyntaxError_text
  | RelError => RelError_text
  | Errorf msg => msg
  | Errorf_w msg cause => msg +:+ ": " +:+ Error cause
  end.

Record StorageServer := { storage : ObjectStorage }.

Definition NewStorageServer (storage : ObjectStorage) : StorageServer :=
  {| storage := storage |}.

(** A handler: from the request and the world to the calls on the
    response writer and the world it leaves. *)
Definition Handler : Type := Request → World → list wcall * World.

(** io.Copy(w, reader) on the file GetObject opened: the bytes of a
    regular file; reading a directory fails at once, and the error is
    dropped. *)
Definition io_Copy_file (file : node) : list wcall :=
  match file with
  | RegFile d => [Write d]
  | Directory => []
  end.

Section Handlers.
Context `{JSON} `{ErrorTexts}.
Variable s : StorageServer.

Definition handleCreateBucket : Handler := λ r w,
  if decide (Method r ≠ MethodPut) then
    ([http_Error "Method not allowed" StatusMethodNotAllowed], w)
  else
    let bucketName := TrimPrefix (URL_Path r) "/buckets/" in
    if decide (bucketName = "") then
      ([http_Error "Bucket name required" StatusBadRequest], w)
    else
      match CreateBucket (storage s) bucketName w with
      | (Err err, w') =>
          ([http_Error (Error err) StatusInternalServerError], w')
      | (Ok _, w') =>
          ([WriteHeader StatusCreated;
            Encode (StatusMap "status" "bucket created")], w')
      end.

Definition handleListBuckets : Handler := λ r w,
  if decide (Method r ≠ MethodPut) then
    ([http_Error "Method not allowed" StatusMethodNotAllowed], w)
  else
    match ListBuckets (storage s) w with
    | (Err err, w') =>
        ([http_Error (Error err) StatusInternalServerError], w')
    | (Ok buckets, w') =>
        ([Header_Set "Content-Type" (Text "application/json");
          Encode (OfBuckets buckets)], w')
    end.

Definition handlePutObject : Handler := λ r w,
  if decide (Method r ≠ MethodPut) then
    ([http_Error "Method not allowed" StatusMethodNotAllowed], w)
  else
    let path := TrimPrefix (URL_Path r) "/objects/" in
    match SplitN path "/" 2 with
    | bucketName :: objectKey :: _ =>
        let contentType :=
          if decide (Content_Type r = "") then "application/octet-stream"
          else Content_Type r in
        match PutObject (storage s) bucketName objectKey (Body r)
                contentType w with
        | (Err err, w') =>
            ([http_Error (Error err) StatusInternalServerError], w')
        | (Ok metadata, w') =>
            ([Header_Set "Content-Type" (Text "application/json");
              Header_Set "ETag" (Text (ETag metadata));
              Encode (OfMetadata metadata)], w')
        end
    | _ =>
        ([http_Error "Bucket and object key required" StatusBadRequest], w)
    end.

Definition handleGetObject : Handler := λ r w,
  if decide (Method r ≠ MethodGet) then
    ([http_Error "Method not allowed" StatusMethodNotAllowed], w)
  else
    let path := TrimPrefix (URL_Path r) "/objects/" in
    match SplitN path "/" 2 with
    | bucketName :: objectKey :: _ =>
        match GetObject (storage s) bucketName objectKey w with
        | (Err err, w') =>
            if Contains (Error err) "not found" then
              ([http_Error "Object not found" StatusNotFound], w')
            else
              ([http_Error (Error err) StatusInternalServerError], w')
        | (Ok (reader, metadata), w') =>
            ([Header_Set "Content-Type" (Text (ContentType metadata));
              Header_Set "ETag" (Text (ETag metadata));
              Header_Set "Last-Modified" (HTTPTime (LastModified metadata));
              Header_Set "Content-Length" (Text (pretty (Size metadata)))]
             ++ io_Copy_file reader, w')
        end
    | _ =>
        ([http_Error "Bucket and object key required" StatusBadRequest], w)
    end.

Definition handleListObjects : Handler := λ r w,
  if decide (Method r ≠ MethodGet) then
    ([http_Error "Method not allowed" StatusMethodNotAllowed], w)
  else
    let bucketName := TrimPrefix (URL_Path r) "/objects/" in
    if Contains bucketName "/" then handleGetObject r w
    else
      match ListObjects (storage s) bucketName w with
      | (Err err, w') =>
          ([http_Error (Error err) StatusInternalServerError], w')
      | (Ok objects, w') =>
          ([Header_Set "Content-Type" (Text "application/json");
            Encode (OfObjects objects)], w')
      end.

(** The function main registers for "/objects/". *)
Definition main_objects : Handler := λ r w,
  let path := TrimPrefix (URL_Path r) "/objects/" in
  if negb (Contains path "/") then handleListObjects r w
  else if decide (Method r = MethodPut) then handlePutObject r w
  else handleGetObject r w.

(** The function main registers for "/health". *)
Definition main_health : Handler := λ r w,
  ([WriteHeader StatusOK; Write (bytes "OK")], w).

(** The patterns main registers with http.HandleFunc, each with its
    handler. *)
Definition main_routes : list (string * Handler) :=
  [("/buckets/", handleCreateBucket);
   ("/buckets", handleListBuckets);
   ("/objects/", main_objects);
   ("/health", main_health)].

End Handlers.

End Server.

(** ** The command-line client: the content type of an upload *)

Module Client.

(** filepath.Ext: the scan from the end of the path, which stops at a
    separator and returns the suffix that starts at the first dot it
    meets; [suffix] is what has been scanned. *)
Fixpoint Ext_scan (rev_path : list ascii) (suffix : string) : string :=
  match rev_path with
  | [] => ""
  | c :: rest =>
      if bool_decide (c = "/"%char) then ""
      else if bool_decide (c = "."%char) then String c suffix
      else Ext_scan rest (String c suffix)
  end.

Definition Ext (path : string) : string :=
  Ext_scan (reverse (list_ascii_of_string path)) "".

(** strings.ToLower on a string of ASCII bytes: the letters A to Z are
    replaced by a to z.  On other strings it maps Unicode code points,
    which is outside this model: [None]. *)
Definition is_ascii (c : ascii) : bool := (nat_of_ascii c <? 128)%nat.

Definition lower (c : ascii) : ascii :=
  let n := nat_of_ascii c in
  if ((65 <=? n) && (n <=? 90))%nat then ascii_of_nat (n + 32) else c.

Definition ToLower (s : string) : option string :=
  let l := list_ascii_of_string s in
  if forallb is_ascii l then Some (string_of_list_ascii (lower <$> l))
  else None.

Definition contentTypes : gmap string string :=
  list_to_map
    [(".txt", "text/plain");
     (".md", "text/markdown");
     (".html", "text/html");
     (".css", "text/css");
     (".js", "application/javascript");
     (".json", "application/json");
     (".xml", "application/xml");
     (".pdf", "application/pdf");
     (".jpg", "image/jpeg");
     (".jpeg", "image/jpeg");
     (".png", "image/png");
     (".gif", "image/gif");
     (".svg", "image/svg+xml");
     (".zip", "application/zip");
     (".tar", "application/x-tar");
     (".gz", "application/gzip")].

Definition getContentType (filename : string) : option string :=
  ext ← ToLower (Ext filename);
  Some (default "application/octet-stream" (contentTypes !! ext)).

End Client.

(** ** The command-line client: the size of an object, as it is shown *)

Module ClientSize.
Local Open Scope Z_scope.

Definition KB : Z := 1024.
Definition MB : Z := KB * 1024.
Definition GB : Z := MB * 1024.

(** The integer nearest to n/d (d > 0), the even one of two that are
    equally near. *)
Definition round_half_even (n d : Z) : Z :=
  let q := n / d in
  let r := n mod d in
  if 2 * r <? d then q
  else if d <? 2 * r then q + 1
  else if Z.even q then q else q + 1.

(** float64(size), for a positive size: the integers below 2^53 are
    floats; above, the nearest float is taken, which keeps 53 binary
    digits. *)
Definition float64 (n : Z) : Z :=
  let e := Z.log2 n - 52 in
  if e <=? 0 then n else round_half_even n (2 ^ e) * 2 ^ e.

(** fmt.Sprintf("%.1f", num/den) for a float num/den that is not
    negative: the decimal expansion, rounded to one digit after the
    point. *)
Definition Sprintf_1f (num den : Z) : string :=
  let t := round_half_even (10 * num) den in
  pretty (t / 10) +:+ "." +:+ pretty (t mod 10).

Definition formatSize (size : Z) : string :=
  if GB <=? size then Sprintf_1f (float64 size) GB +:+ "GB"
  else if MB <=? size then Sprintf_1f (float64 size) MB +:+ "MB"
  else if KB <=? size then Sprintf_1f (float64 size) KB +:+ "KB"
  else pretty size +:+ "B".

End ClientSize.

(** ** Facts about paths *)

Section FilepathFacts.

Lemma split_slash_nonempty s : split_slash s ≠ [].
Proof.
  destruct s as [|c s]; simpl; [done|].
  case_decide; [done|]. by destruct (split_slash s).
Qed.

(** Joining what [split_slash] gave restores the string. *)
Lemma concat_split_slash s : String.concat "/" (split_slash s) = s.
Proof.
  induction s as [|c s IH]; [done|]. simpl.
  case_decide as Hc.
  - subst c. pose proof (split_slash_nonempty s) as Hne.
    destruct (split_slash s) as [|w ws]; [done|].
    simpl in *. by rewrite IH.
  - pose proof (split_slash_nonempty s) as Hne.
    destruct (split_slash s) as [|w ws]; [done|].
    destruct ws as [|w' ws]; simpl in *; by rewrite <- IH.
Qed.

(** The components of a key with an extension appended: the extension
    goes to the last one. *)
Fixpoint add_ext (ext : string) (comps : list string) : list string :=
  match comps with
  | [] => []
  | [c] => [c +:+ ext]
  | c :: cs => c :: add_ext ext cs
  end.

Lemma add_ext_nonempty ext comps : comps ≠ [] → add_ext ext comps ≠ [].
Proof. destruct comps as [|c [|c' cs]]; simpl; congruence. Qed.

Lemma add_ext_snoc ext cs c : add_ext ext (cs ++ [c]) = cs ++ [c +:+ ext].
Proof.
  induction cs as [|x cs IH]; [done|]. simpl. rewrite IH.
  destruct cs; simpl; done.
Qed.

Lemma split_slash_ext s ext :
  split_slash ext = [ext] →
  split_slash (s +:+ ext) = add_ext ext (split_slash s).
Proof.
  intros Hext. induction s as [|c s IH]; [done|]. simpl.
  pose proof (split_slash_nonempty s) as Hne.
  case_decide.
  - rewrite IH. destruct (split_slash s); done.
  - rewrite IH. destruct (split_slash s) as [|w [|w' ws]]; done.
Qed.

Lemma clean_onto_app stack es :
  Forall (λ e, e ≠ "" ∧ e ≠ "." ∧ e ≠ "..") es →
  clean_onto stack es = stack ++ es.
Proof.
  intros Hes. revert stack.
  induction Hes as [|e es (He1 & He2 & He3) _ IH]; intros stack; simpl.
  - by rewrite app_nil_r.
  - rewrite decide_False by (intros [?|?]; done).
    rewrite decide_False by done.
    rewrite IH. by rewrite <- app_assoc.
Qed.

Lemma valid_name_ext c : valid_name c → valid_name (c +:+ ".json").
Proof.
  intros (Hs & H1 & H2 & H3). unfold valid_name.
  rewrite split_slash_ext by done. rewrite Hs. simpl.
  split; [done|].
  destruct c as [|a [|a' [|a'' c]]]; [done|..]; cbv [String.append];
    repeat split; congruence.
Qed.

Lemma clean_key_ext k : clean_key k → Forall valid_name (add_ext ".json" (split_slash k)).
Proof.
  unfold clean_key. generalize (split_slash k). intros comps.
  induction 1 as [|c cs Hc Hcs IH]; [constructor|].
  destruct cs as [|c' cs]; simpl.
  - constructor; [by apply valid_name_ext|constructor].
  - constructor; done.
Qed.

Lemma Forall_valid_clean es :
  Forall valid_name es → Forall (λ e, e ≠ "" ∧ e ≠ "." ∧ e ≠ "..") es.
Proof.
  intros Hes. eapply Forall_impl; [exact Hes|].
  by intros e (_ & ? & ? & ?).
Qed.

(** For a bucket name that is one component and a clean key, Join is
    concatenation. *)
Lemma Join_object base b k :
  valid_name b → clean_key k →
  Join base [b; k] = base ++ b :: split_slash k.
Proof.
  intros Hb Hk. unfold Join. cbn [flat_map]. rewrite app_nil_r.
  destruct Hb as (Hs & Hb). rewrite Hs. cbn [app].
  rewrite clean_onto_app; [done|].
  constructor; [done|]. by apply Forall_valid_clean.
Qed.

Lemma Join_object_json base b k :
  valid_name b → clean_key k →
  Join base [b; k +:+ ".json"] = base ++ b :: add_ext ".json" (split_slash k).
Proof.
  intros Hb Hk. unfold Join. cbn [flat_map]. rewrite app_nil_r.
  destruct Hb as (Hs & Hb). rewrite Hs. cbn [app].
  rewrite split_slash_ext by done.
  rewrite clean_onto_app; [done|].
  constructor; [done|]. apply Forall_valid_clean. by apply clean_key_ext.
Qed.

Lemma Join_bucket base b : valid_name b → Join base [b] = base ++ [b].
Proof.
  intros (Hs & Hb). unfold Join. cbn [flat_map]. rewrite app_nil_r, Hs.
  rewrite clean_onto_app; [done|]. by constructor.
Qed.

Lemma Join_bucket_json base b :
  valid_name b → Join base [b +:+ ".json"] = base ++ [b +:+ ".json"].
Proof. intros Hb. apply Join_bucket. by apply valid_name_ext. Qed.

Lemma strip_common_app base suffix :
  strip_common base (base ++ suffix) = ([], suffix).
Proof.
  induction base as [|x base IH]; simpl.
  - by destruct suffix.
  - by rewrite decide_True.
Qed.

Lemma Rel_below base suffix :
  Rel base (base ++ suffix) = Some (path_string suffix).
Proof.
  unfold Rel. rewrite strip_common_app.
  rewrite decide_False; [done|]. by intros ?%elem_of_nil.
Qed.

Lemma path_string_split k : path_string (split_slash k) = k.
Proof.
  unfold path_string. pose proof (split_slash_nonempty k).
  destruct (split_slash k) eqn:E; [done|]. rewrite <- E.
  apply concat_split_slash.
Qed.

Lemma Dir_snoc (p : path) c : Dir (p ++ [c]) = p.
Proof. unfold Dir. apply removelast_last. Qed.

End FilepathFacts.

(** ** Facts about the tree *)

Section OsFacts.
Import Os.
Implicit Types (t : tree) (p q : path) (n : node).

Lemma resolve_snoc t cur rest c :
  resolve t cur (rest ++ [c]) =
  match resolve t cur rest with
  | inl e => inl e
  | inr (RegFile _) => inl ENOTDIR
  | inr Directory =>
      match t !! (cur ++ rest ++ [c]) with
      | None => inl ENOENT
      | Some n => inr n
      end
  end.
Proof.
  revert cur. induction rest as [|x rest IH]; intros cur; simpl.
  - by destruct (t !! (cur ++ [c])) as [[d|]|].
  - destruct (t !! (cur ++ [x])) as [[d|]|] eqn:E.
    + destruct rest; simpl; done.
    + destruct rest as [|y rest].
      * simpl. replace (cur ++ [x; c]) with ((cur ++ [x]) ++ [c])
          by (by rewrite <- app_assoc).
        by destruct (t !! ((cur ++ [x]) ++ [c])) as [[d|]|].
      * rewrite <- app_comm_cons. rewrite IH.
        replace ((cur ++ [x]) ++ (y :: rest) ++ [c])
          with (cur ++ x :: (y :: rest) ++ [c])
          by (by rewrite <- app_assoc).
        done.
    + destruct rest; done.
Qed.

(** Resolution goes through the directory that holds the path. *)
Lemma Lstat_snoc t p c :
  Lstat t (p ++ [c]) =
  match Lstat t p with
  | inl e => inl e
  | inr (RegFile _) => inl ENOTDIR
  | inr Directory =>
      match t !! (p ++ [c]) with
      | None => inl ENOENT
      | Some n => inr n
      end
  end.
Proof. unfold Lstat. by rewrite resolve_snoc. Qed.

Lemma Lstat_nil t : Lstat t [] = inr Directory.
Proof. done. Qed.

Lemma path_snoc p : p ≠ [] → ∃ c, p = Dir p ++ [c].
Proof.
  intros Hp. destruct (exists_last Hp) as (p' & c & ->).
  exists c. by rewrite Dir_snoc.
Qed.

Lemma Lstat_lookup t p n : Lstat t p = inr n → p ≠ [] → t !! p = Some n.
Proof.
  intros HL Hp. destruct (path_snoc p Hp) as (c & Hc).
  rewrite Hc in HL |- *. rewrite Lstat_snoc in HL.
  destruct (Lstat t (Dir p)) as [e|[d|]]; try done.
  destruct (t !! (Dir p ++ [c])); by simplify_eq.
Qed.

Lemma Lstat_parent t p n : Lstat t p = inr n → Lstat t (Dir p) = inr Directory.
Proof.
  destruct (decide (p = [])) as [->|Hp]; [done|].
  destruct (path_snoc p Hp) as (c & Hc). rewrite Hc at 1.
  rewrite Lstat_snoc. by destruct (Lstat t (Dir p)) as [e|[d|]].
Qed.

(** Everything above an entry that resolves is a directory. *)
Lemma Lstat_prefix t p q n :
  Lstat t p = inr n → q `prefix_of` p → q ≠ p → Lstat t q = inr Directory.
Proof.
  revert n. induction p as [|c p IH] using rev_ind; intros n HL Hq Hne.
  - apply prefix_nil_inv in Hq. done.
  - assert (Lstat t p = inr Directory) as Hp.
    { apply Lstat_parent in HL. by rewrite Dir_snoc in HL. }
    destruct (decide (q = p)) as [->|Hqp]; [done|].
    apply (IH Directory); [done| |done].
    destruct Hq as [k Hk].
    destruct k as [|x k _] using rev_ind.
    + rewrite app_nil_r in Hk. done.
    + rewrite app_assoc in Hk. apply app_inj_tail in Hk as [-> _].
      by apply prefix_app_r.
Qed.

Lemma Lstat_prefix_lookup t p q n :
  Lstat t p = inr n → q `prefix_of` p → q ≠ p → q ≠ [] →
  t !! q = Some Directory.
Proof.
  intros HL Hq Hne Hnil. apply Lstat_lookup; [|done].
  by eapply Lstat_prefix.
Qed.

Lemma Lstat_prefix_is_Some t p q n :
  Lstat t p = inr n → q `prefix_of` p → q ≠ [] → is_Some (t !! q).
Proof.
  intros HL Hpre Hnil. destruct (decide (q = p)) as [->|Hne].
  - apply Lstat_lookup in HL; [|done]. by rewrite HL.
  - by rewrite (Lstat_prefix_lookup _ _ _ _ HL Hpre Hne Hnil).
Qed.

(** No regular file lies on the way to an entry that resolves. *)
Lemma Lstat_through_file t p q n d :
  Lstat t p = inr n → t !! q = Some (RegFile d) → q ≠ [] →
  q `prefix_of` p → q = p.
Proof.
  intros HL Hq Hnil Hpre. destruct (decide (q = p)) as [|Hne]; [done|].
  pose proof (Lstat_prefix_lookup _ _ _ _ HL Hpre Hne Hnil). congruence.
Qed.

Lemma Lstat_dir_not_below_file t p q d :
  Lstat t p = inr Directory → t !! q = Some (RegFile d) → q ≠ [] →
  ¬ q `prefix_of` p.
Proof.
  intros HL Hq Hnil Hpre.
  pose proof (Lstat_through_file _ _ _ _ _ HL Hq Hnil Hpre) as ->.
  apply Lstat_lookup in HL; [congruence|done].
Qed.

(** Resolution of [p] reads the tree at the prefixes of [p] only. *)
Lemma Lstat_ext t t' p :
  (∀ q, q `prefix_of` p → q ≠ [] → t !! q = t' !! q) →
  Lstat t p = Lstat t' p.
Proof.
  induction p as [|c p IH] using rev_ind; intros Heq; [done|].
  rewrite !Lstat_snoc. rewrite IH.
  - rewrite (Heq (p ++ [c])); [done|done|]. by destruct p.
  - intros q Hq Hne. apply Heq; [|done]. by apply prefix_app_r.
Qed.

Lemma Lstat_insert_ne t p q n :
  ¬ q `prefix_of` p → Lstat (<[q := n]> t) p = Lstat t p.
Proof.
  intros Hq. apply Lstat_ext. intros r Hr _.
  apply lookup_insert_ne. by intros ->.
Qed.

Lemma Lstat_delete_ne t p q :
  ¬ q `prefix_of` p → Lstat (delete q t) p = Lstat t p.
Proof.
  intros Hq. apply Lstat_ext. intros r Hr _.
  apply lookup_delete_ne. by intros ->.
Qed.

Lemma Lstat_insert_child t p c n :
  Lstat t p = inr Directory → Lstat (<[p ++ [c] := n]> t) (p ++ [c]) = inr n.
Proof.
  intros Hp. rewrite Lstat_snoc. rewrite Lstat_insert_ne.
  - by rewrite Hp, lookup_insert_eq.
  - intros Hpre. apply prefix_length in Hpre.
    rewrite length_app in Hpre. simpl in Hpre. lia.
Qed.

Lemma Lstat_insert_eq t p n :
  p ≠ [] → Lstat t (Dir p) = inr Directory → Lstat (<[p := n]> t) p = inr n.
Proof.
  intros Hp. destruct (exists_last Hp) as (p' & c & ->).
  rewrite Dir_snoc. apply Lstat_insert_child.
Qed.

Lemma not_prefix_snoc p c : ¬ (p ++ [c]) `prefix_of` p.
Proof.
  intros Hpre%prefix_length. rewrite length_app in Hpre. simpl in Hpre. lia.
Qed.

(** [t ⊑d t']: [t'] is [t] with directories added where there was
    nothing. *)
Definition grows (t t' : tree) : Prop :=
  ∀ q, t' !! q = t !! q ∨ (t !! q = None ∧ t' !! q = Some Directory).

Lemma grows_refl t : grows t t.
Proof. intros q. by left. Qed.

Lemma grows_trans t1 t2 t3 : grows t1 t2 → grows t2 t3 → grows t1 t3.
Proof.
  intros H12 H23 q. destruct (H12 q) as [E1|[E1 E1']], (H23 q) as [E2|[E2 E2']].
  - left. congruence.
  - right. split; congruence.
  - right. split; congruence.
  - congruence.
Qed.

Lemma grows_insert t p : t !! p = None → grows t (<[p := Directory]> t).
Proof.
  intros Hp q. destruct (decide (p = q)) as [->|Hne].
  - right. by rewrite lookup_insert_eq.
  - left. by rewrite lookup_insert_ne.
Qed.

Lemma grows_lookup t t' q n : grows t t' → t !! q = Some n → t' !! q = Some n.
Proof. intros Hg Hq. destruct (Hg q) as [E|[E _]]; congruence. Qed.

Lemma grows_Lstat t t' p n : grows t t' → Lstat t p = inr n → Lstat t' p = inr n.
Proof.
  intros Hg. revert n. induction p as [|c p IH] using rev_ind; intros n; [done|].
  rewrite !Lstat_snoc.
  destruct (Lstat t p) as [e|[d|]]; try done.
  rewrite (IH Directory) by done.
  destruct (t !! (p ++ [c])) as [n'|] eqn:E; [|done].
  intros [= ->]. by rewrite (grows_lookup _ _ _ _ Hg E).
Qed.

Lemma grows_file_back t t' p d :
  grows t t' → t' !! p = Some (RegFile d) → t !! p = Some (RegFile d).
Proof. intros Hg Hp. destruct (Hg p) as [E|[_ E]]; congruence. Qed.

(** Writing a regular file where there was no directory leaves every
    other entry that resolved as it was. *)
Lemma Lstat_insert_other t p q n x :
  Lstat t p = inr n → p ≠ q → q ≠ [] → t !! q ≠ Some Directory →
  Lstat (<[q := x]> t) p = inr n.
Proof.
  intros HL Hne Hq Hnd. rewrite Lstat_insert_ne; [done|]. intros Hpre.
  apply Hnd. eapply Lstat_prefix_lookup; [exact HL|done|congruence|done].
Qed.

(** A tree in which every entry resolves: no entry lies below a missing
    directory or below a regular file. *)
Definition well_formed (t : tree) : Prop :=
  map_Forall (λ p n, Lstat t p = inr n) t.

#[global] Instance well_formed_dec t : Decision (well_formed t).
Proof. unfold well_formed. apply _. Defined.

(** Adding directories to a well-formed tree neither shows nor hides a
    regular file. *)
Lemma grows_regular_files t t' p d :
  well_formed t → grows t t' →
  Lstat t' p = inr (RegFile d) ↔ Lstat t p = inr (RegFile d).
Proof.
  intros Hwf Hg. split; [|by apply grows_Lstat].
  intros HL. apply Hwf. eapply grows_file_back; [done|].
  apply Lstat_lookup; [done|]. by intros ->.
Qed.

(** *** MkdirAll *)

Lemma mkdir_from_grows t cur rest :
  grows t (mkdir_from t cur rest).1.
Proof.
  revert t cur. induction rest as [|c rest IH]; intros t cur; simpl.
  - apply grows_refl.
  - destruct (t !! (cur ++ [c])) as [[d|]|] eqn:E; simpl.
    + apply grows_refl.
    + apply IH.
    + eapply grows_trans; [by apply grows_insert|apply IH].
Qed.

Lemma mkdir_from_touches t cur rest q :
  (mkdir_from t cur rest).1 !! q ≠ t !! q →
  ∃ r, r `prefix_of` rest ∧ r ≠ [] ∧ q = cur ++ r.
Proof.
  revert t cur. induction rest as [|c rest IH]; intros t cur; simpl; [done|].
  assert (∀ t0, (mkdir_from t0 (cur ++ [c]) rest).1 !! q ≠ t0 !! q →
    ∃ r, r `prefix_of` c :: rest ∧ r ≠ [] ∧ q = cur ++ r) as Hrec.
  { intros t0 (r & Hr & _ & ->)%IH. exists (c :: r).
    split; [by apply prefix_cons|]. split; [done|]. by rewrite <- app_assoc. }
  destruct (t !! (cur ++ [c])) as [[d|]|] eqn:E; simpl; [done|by apply Hrec|].
  intros Hne. destruct (decide (q = cur ++ [c])) as [->|Hq].
  - exists [c]. split; [|done]. by apply prefix_cons, prefix_nil.
  - apply (Hrec (<[cur ++ [c] := Directory]> t)).
    by rewrite lookup_insert_ne.
Qed.

Lemma mkdir_from_ok t cur rest t' :
  resolve t [] cur = inr Directory →
  mkdir_from t cur rest = (t', None) →
  Lstat t' (cur ++ rest) = inr Directory.
Proof.
  revert t cur. induction rest as [|c rest IH]; intros t cur Hcur; simpl.
  - intros [= <-]. by rewrite app_nil_r.
  - fold (Lstat t cur) in Hcur.
    replace (cur ++ c :: rest) with ((cur ++ [c]) ++ rest)
      by (by rewrite <- app_assoc).
    destruct (t !! (cur ++ [c])) as [[d|]|] eqn:E; [done| |].
    + apply IH. fold (Lstat t (cur ++ [c])).
      by rewrite Lstat_snoc, Hcur, E.
    + apply IH. fold (Lstat (<[cur ++ [c]:=Directory]> t) (cur ++ [c])).
      by apply Lstat_insert_child.
Qed.

Lemma MkdirAll_grows t p : grows t (Os.MkdirAll t p).1.
Proof. apply mkdir_from_grows. Qed.

Lemma MkdirAll_touches t p q :
  (Os.MkdirAll t p).1 !! q ≠ t !! q → q `prefix_of` p ∧ q ≠ [].
Proof. intros (r & Hr & Hne & ->)%mkdir_from_touches. done. Qed.

Lemma MkdirAll_ok t p t' :
  Os.MkdirAll t p = (t', None) → Lstat t' p = inr Directory.
Proof. intros Hm. by apply (mkdir_from_ok t [] p). Qed.

(** A regular file on the way is the only reason for MkdirAll to fail. *)
Lemma mkdir_from_error t cur rest t' e :
  mkdir_from t cur rest = (t', Some e) →
  e = ENOTDIR ∧ ∃ r d, r `prefix_of` rest ∧ r ≠ [] ∧
    t' !! (cur ++ r) = Some (RegFile d).
Proof.
  revert t cur. induction rest as [|c rest IH]; intros t cur; simpl; [done|].
  assert (∀ t0, mkdir_from t0 (cur ++ [c]) rest = (t', Some e) →
    e = ENOTDIR ∧ ∃ r d, r `prefix_of` c :: rest ∧ r ≠ [] ∧
      t' !! (cur ++ r) = Some (RegFile d)) as Hrec.
  { intros t0 (-> & r & d & Hr & _ & Hd)%IH. split; [done|].
    exists (c :: r), d. split; [by apply prefix_cons|]. split; [done|].
    by rewrite <- app_assoc in Hd. }
  destruct (t !! (cur ++ [c])) as [[d|]|] eqn:E; [|by apply Hrec..].
  intros [= <- <-]. split; [done|]. exists [c], d.
  split; [by apply prefix_cons, prefix_nil|]. done.
Qed.

(** Below a regular file, resolution fails with ENOTDIR. *)
Lemma Lstat_below_file t p r d :
  Lstat t p = inr (RegFile d) → r ≠ [] → Lstat t (p ++ r) = inl ENOTDIR.
Proof.
  intros Hp. induction r as [|c r IH] using rev_ind; [done|]. intros _.
  rewrite app_assoc, Lstat_snoc. destruct r as [|x r].
  - by rewrite app_nil_r, Hp.
  - by rewrite IH.
Qed.

(** Whether MkdirAll fails or not, the path is not missing afterwards. *)
Lemma mkdir_from_not_ENOENT t cur rest :
  Lstat t cur = inr Directory →
  Lstat (mkdir_from t cur rest).1 (cur ++ rest) ≠ inl ENOENT.
Proof.
  revert t cur. induction rest as [|c rest IH]; intros t cur Hcur; simpl.
  - by rewrite app_nil_r, Hcur.
  - replace (cur ++ c :: rest) with ((cur ++ [c]) ++ rest)
      by (by rewrite <- app_assoc).
    destruct (t !! (cur ++ [c])) as [[d|]|] eqn:E; simpl.
    + assert (Lstat t (cur ++ [c]) = inr (RegFile d)) as Hc
        by (by rewrite Lstat_snoc, Hcur, E).
      destruct rest as [|x rest].
      * by rewrite app_nil_r, Hc.
      * by rewrite (Lstat_below_file _ _ _ d).
    + apply IH. by rewrite Lstat_snoc, Hcur, E.
    + apply IH. by apply Lstat_insert_child.
Qed.

Lemma MkdirAll_not_ENOENT t p : Lstat (Os.MkdirAll t p).1 p ≠ inl ENOENT.
Proof. by apply (mkdir_from_not_ENOENT t [] p). Qed.

Lemma mkdir_from_succeeds t cur rest :
  (∀ r d, r `prefix_of` rest → r ≠ [] → t !! (cur ++ r) ≠ Some (RegFile d)) →
  ∃ t', mkdir_from t cur rest = (t', None).
Proof.
  intros Hfree. destruct (mkdir_from t cur rest) as [t' [e|]] eqn:E; [|by eauto].
  exfalso. pose proof (mkdir_from_grows t cur rest) as Hg. rewrite E in Hg.
  simpl in Hg.
  apply mkdir_from_error in E as (_ & r & d & Hr & Hne & Hd).
  destruct (Hg (cur ++ r)) as [Heq|[_ Heq]]; [|congruence].
  rewrite Hd in Heq. by eapply Hfree.
Qed.

Lemma MkdirAll_succeeds t p :
  (∀ q d, q `prefix_of` p → q ≠ [] → t !! q ≠ Some (RegFile d)) →
  ∃ t', Os.MkdirAll t p = (t', None).
Proof. intros Hfree. by apply mkdir_from_succeeds. Qed.

End OsFacts.

(** ** Facts about the calls of the engine *)

Section CallFacts.
Import Os.
Implicit Types (t : tree) (p q : path) (n : node) (w : World).

Lemma append_file_nil t p : append_file t p [] = t.
Proof.
  unfold append_file. destruct (t !! p) as [[d|]|] eqn:E; [|done..].
  rewrite app_nil_r. by apply insert_id.
Qed.

Lemma append_file_app t p a b :
  append_file (append_file t p a) p b = append_file t p (a ++ b).
Proof.
  unfold append_file. destruct (t !! p) as [[d|]|] eqn:E.
  - rewrite lookup_insert_eq, insert_insert_eq. by rewrite app_assoc.
  - by rewrite E.
  - by rewrite E.
Qed.

Lemma append_file_new t p b :
  t !! p = Some (RegFile []) → append_file t p b = <[p := RegFile b]> t.
Proof. intros E. unfold append_file. by rewrite E. Qed.

(** One pass of io.Copy: the bytes counted, the bytes hashed and the bytes
    appended to the file are the bytes the reader gave. *)
Lemma io_Copy_spec tempFile hash data written w :
  io_Copy tempFile hash data written w =
  (((written + Z.of_nat (length (reader_bytes data)))%Z,
    MD5.Digest (MD5.written hash ++ reader_bytes data),
    (if reader_ok data then None else Some ReadError)),
   set_files w (append_file (files w) tempFile (reader_bytes data))).
Proof.
  revert hash written w.
  induction data as [| |p rest IH]; intros [h] written w; simpl.
  - rewrite app_nil_r, append_file_nil, Z.add_0_r. by destruct w.
  - rewrite app_nil_r, append_file_nil, Z.add_0_r. by destruct w.
  - rewrite IH. simpl.
    rewrite append_file_app, length_app, <- app_assoc, Nat2Z.inj_add.
    by rewrite Z.add_assoc.
Qed.

Lemma CreateTemp_inr t dir r t' tmp r' :
  Os.CreateTemp t dir r = inr (t', tmp, r') →
  Lstat t dir = inr Directory ∧ t !! tmp = None ∧
  t' = <[tmp := RegFile []]> t ∧ ∃ c, tmp = dir ++ [c].
Proof.
  unfold Os.CreateTemp. destruct (Lstat t dir) as [e|[d|]]; [done..|].
  generalize (N.to_nat 10000). intros fuel. revert r.
  induction fuel as [|fuel IH]; intros r; simpl; [done|].
  destruct (t !! (dir ++ [temp_name r])) eqn:E; [apply IH|].
  intros [= <- <- <-]. eauto.
Qed.

Lemma CreateTemp_inl t dir r e :
  Lstat t dir = inr Directory → Os.CreateTemp t dir r = inl e → e = EEXIST.
Proof.
  intros Hd. unfold Os.CreateTemp. rewrite Hd.
  generalize (N.to_nat 10000). intros fuel. revert r.
  induction fuel as [|fuel IH]; intros r; simpl; [by intros [= <-]|].
  destruct (t !! (dir ++ [temp_name r])); [apply IH|done].
Qed.

Lemma CreateTemp_fresh t dir r :
  Lstat t dir = inr Directory → t !! (dir ++ [temp_name r]) = None →
  Os.CreateTemp t dir r =
  inr (<[dir ++ [temp_name r] := RegFile []]> t, dir ++ [temp_name r], N.succ r).
Proof.
  intros Hd Hf. unfold Os.CreateTemp. rewrite Hd.
  destruct (N.to_nat 10000) eqn:E; [lia|]. simpl. by rewrite Hf.
Qed.

Lemma parent_error_None t p :
  parent_error t p = None ↔ Lstat t (Dir p) = inr Directory.
Proof.
  unfold parent_error. destruct (Lstat t (Dir p)) as [e|[d|]]; naive_solver.
Qed.

Lemma WriteFile_inr t p data t' :
  Os.WriteFile t p data = inr t' →
  p ≠ [] ∧ Lstat t (Dir p) = inr Directory ∧ t !! p ≠ Some Directory ∧
  t' = <[p := RegFile data]> t.
Proof.
  unfold Os.WriteFile. destruct p as [|c p]; [done|].
  destruct (parent_error t (c :: p)) eqn:E; [done|].
  apply parent_error_None in E.
  destruct (t !! (c :: p)) as [[d|]|]; intros [= <-]; done.
Qed.

(** os.MkdirAll(filepath.Dir(p)), then os.WriteFile(p): whatever MkdirAll
    did, WriteFile does not fail for a missing directory. *)
Lemma WriteFile_after_MkdirAll t p data e :
  Os.WriteFile (Os.MkdirAll t (Dir p)).1 p data = inl e → e ≠ ENOENT.
Proof.
  unfold Os.WriteFile. destruct p as [|c p]; [by intros [= <-]|].
  unfold parent_error.
  pose proof (MkdirAll_not_ENOENT t (Dir (c :: p))) as Hne.
  destruct (Lstat _ (Dir (c :: p))) as [e'|[d|]].
  - intros [= <-]. congruence.
  - by intros [= <-].
  - destruct (_ !! (c :: p)) as [[d|]|]; [done| |done]. by intros [= <-].
Qed.

Lemma WriteFile_succeeds t p data :
  p ≠ [] → Lstat t (Dir p) = inr Directory → t !! p ≠ Some Directory →
  Os.WriteFile t p data = inr (<[p := RegFile data]> t).
Proof.
  intros Hp Hd Hn. unfold Os.WriteFile. destruct p as [|c p]; [done|].
  apply parent_error_None in Hd. rewrite Hd.
  by destruct (t !! (c :: p)) as [[d|]|].
Qed.

Lemma WriteFile_inl t p data e :
  Os.WriteFile t p data = inl e →
  p = [] ∨ Lstat t (Dir p) ≠ inr Directory ∨ t !! p = Some Directory.
Proof.
  unfold Os.WriteFile. destruct p as [|c p]; [by left|].
  destruct (parent_error t (c :: p)) eqn:E.
  - intros _. right. left. rewrite <- parent_error_None. congruence.
  - destruct (t !! (c :: p)) as [[d|]|]; try done. by right; right.
Qed.

Lemma Rename_inr t old new t' :
  Os.Rename t old new = inr t' →
  ∃ d, Lstat t old = inr (RegFile d) ∧ new ≠ [] ∧
       Lstat t (Dir new) = inr Directory ∧
       ((old = new ∧ t' = t) ∨
        (old ≠ new ∧ t !! new ≠ Some Directory ∧
         t' = <[new := RegFile d]> (delete old t))).
Proof.
  unfold Os.Rename. destruct (Lstat t old) as [e|[d|]]; [done| |done].
  destruct new as [|c new]; [done|].
  destruct (parent_error t (c :: new)) eqn:E; [done|].
  apply parent_error_None in E. intros Hr. exists d.
  do 3 (split; [done|]).
  case_decide; [left; by simplify_eq|right].
  destruct (t !! (c :: new)) as [[?|]|]; by simplify_eq.
Qed.

Lemma Rename_inl t old new d e :
  Lstat t old = inr (RegFile d) → Os.Rename t old new = inl e →
  new = [] ∨ Lstat t (Dir new) ≠ inr Directory ∨ t !! new = Some Directory.
Proof.
  intros Ho. unfold Os.Rename. rewrite Ho.
  destruct new as [|c new]; [by left|].
  destruct (parent_error t (c :: new)) eqn:E.
  - intros _. right. left. rewrite <- parent_error_None. congruence.
  - case_decide; [done|].
    destruct (t !! (c :: new)) as [[?|]|]; try done. by right; right.
Qed.

Lemma Rename_succeeds t old new d :
  Lstat t old = inr (RegFile d) → new ≠ [] → old ≠ new →
  Lstat t (Dir new) = inr Directory → t !! new ≠ Some Directory →
  Os.Rename t old new = inr (<[new := RegFile d]> (delete old t)).
Proof.
  intros Ho Hn Hne Hd Hnd. unfold Os.Rename. rewrite Ho.
  destruct new as [|c new]; [done|].
  apply parent_error_None in Hd. rewrite Hd.
  rewrite decide_False by done.
  by destruct (t !! (c :: new)) as [[?|]|].
Qed.

Lemma Remove_file t p d :
  Lstat t p = inr (RegFile d) → Os.Remove t p = inr (delete p t).
Proof.
  intros Hp. unfold Os.Remove. destruct p as [|c p]; [done|]. by rewrite Hp.
Qed.

Lemma Remove_inr t p t' : Os.Remove t p = inr t' → t' = delete p t.
Proof.
  unfold Os.Remove. destruct p as [|c p]; [done|].
  destruct (Lstat t (c :: p)) as [e|[d|]]; [done|by intros [= <-]|].
  destruct (entries t (c :: p)); [by intros [= <-]|done].
Qed.

Lemma Remove_inl t p e : Os.Remove t p = inl e → Lstat t p = inl e ∨
  p = [] ∨ (Lstat t p = inr Directory ∧ e = ENOTEMPTY).
Proof.
  unfold Os.Remove. destruct p as [|c p]; [by right; left|].
  destruct (Lstat t (c :: p)) as [e'|[d|]]; [by intros [= <-]; left|done|].
  destruct (entries t (c :: p)); [done|]. intros [= <-]. by right; right.
Qed.

End CallFacts.

Section PutFacts.
Import Os.
Context `{JSON}.
Implicit Types (t : tree) (p q : path) (n : node) (w : World).
Implicit Types (st : ObjectStorage).

(** os.Remove with its error dropped. *)
Definition removed (t : tree) (p : path) : tree :=
  match Os.Remove t p with
  | inl _ => t
  | inr t' => t'
  end.

Definition put_metadata (k : string) (data : Reader) (ct : string) (now : Z)
  : ObjectMetadata :=
  {| Key := k;
     Size := Z.of_nat (length (reader_bytes data));
     ContentType := ct;
     ETag := Hex.EncodeToString (MD5.Sum (reader_bytes data));
     LastModified := now |}.

(** PutObject, call by call. *)
Lemma PutObject_unfold st b k data ct w :
  let op := Join (dataDir st) [b; k] in
  let mp := Join (metadataDir st) [b; k +:+ ".json"] in
  PutObject st b k data ct w =
  match Os.MkdirAll (files w) (Dir op) with
  | (t1, Some e) =>
      (Err (Errorf_w "failed to create object directory"
              (PathError "mkdir" (Dir op) e)),
       set_files w t1)
  | (t1, None) =>
      match Os.CreateTemp t1 (Dir op) (rand w) with
      | inl e =>
          (Err (Errorf_w "failed to create temp file"
                  (PathError "open" (Dir op) e)),
           set_files w t1)
      | inr (t2, tmp, r) =>
          let t2' := append_file t2 tmp (reader_bytes data) in
          if reader_ok data then
            match Os.Rename t2' tmp op with
            | inl e =>
                (Err (Errorf_w "failed to finalize object"
                        (PathError "rename" tmp e)),
                 {| files := removed t2' tmp; clock := clock w; rand := r |})
            | inr t3 =>
                let m := put_metadata k data ct (clock w) in
                let t4 := (Os.MkdirAll t3 (Dir mp)).1 in
                match Os.WriteFile t4 mp (MarshalObject m) with
                | inl e =>
                    (Err (Errorf_w "failed to save metadata"
                            (PathError "open" mp e)),
                     {| files := t4; clock := (clock w + 1)%Z; rand := r |})
                | inr t5 =>
                    (Ok m,
                     {| files := t5; clock := (clock w + 1)%Z; rand := r |})
                end
            end
          else
            (Err (Errorf_w "failed to write object data" ReadError),
             {| files := removed t2' tmp; clock := clock w; rand := r |})
      end
  end.
Proof.
  intros op mp.
  unfold PutObject, mbind, IO_bind, mret, IO_ret, wrap, try, fail.
  unfold Engine.MkdirAll at 1. fold op.
  destruct (Os.MkdirAll (files w) (Dir op)) as [t1 [e|]]; [done|].
  unfold Engine.CreateTemp. simpl.
  destruct (Os.CreateTemp t1 (Dir op) (rand w)) as [e|[[t2 tmp] r]]; [done|].
  rewrite io_Copy_spec. simpl.
  destruct (reader_ok data).
  - unfold Engine.Rename, update. simpl.
    destruct (Os.Rename _ tmp op) as [e|t3].
    + unfold Engine.Remove, update, removed. simpl.
      by destruct (Os.Remove _ tmp).
    + unfold time_Now, saveObjectMetaData, mbind, IO_bind, try. simpl.
      unfold Engine.MkdirAll. simpl. fold mp.
      destruct (Os.MkdirAll t3 (Dir mp)) as [t4 e4]. simpl.
      unfold Engine.WriteFile, update. simpl.
      unfold put_metadata, MD5.Sum_nil. simpl.
      by destruct (Os.WriteFile t4 mp _).
  - unfold Engine.Remove, update, removed. simpl.
    by destruct (Os.Remove _ tmp).
Qed.

Lemma MkdirAll_effect t p q :
  (Os.MkdirAll t p).1 !! q = t !! q ∨
  (t !! q = None ∧ (Os.MkdirAll t p).1 !! q = Some Directory ∧
   q `prefix_of` p ∧ q ≠ []).
Proof.
  destruct (decide ((Os.MkdirAll t p).1 !! q = t !! q)) as [|Hne]; [by left|].
  right. destruct (MkdirAll_grows t p q) as [|[? ?]]; [done|].
  by apply MkdirAll_touches in Hne.
Qed.

(** The temporary file, once written, holds the bytes; renaming it
    publishes them at the target and leaves nothing else behind, and when
    the rename fails, removing it restores the tree. *)
Lemma temp_written t1 dir r t2 tmp r' data :
  Os.CreateTemp t1 dir r = inr (t2, tmp, r') →
  append_file t2 tmp data = <[tmp := RegFile data]> t1 ∧
  Lstat (<[tmp := RegFile data]> t1) tmp = inr (RegFile data) ∧
  removed (<[tmp := RegFile data]> t1) tmp = t1.
Proof.
  intros (Hd & Hf & -> & c & ->)%CreateTemp_inr.
  assert (Lstat (<[dir ++ [c] := RegFile data]> t1) (dir ++ [c])
          = inr (RegFile data)) as HL by by apply Lstat_insert_child.
  split; [|split; [done|]].
  - rewrite append_file_new by apply lookup_insert_eq.
    apply insert_insert_eq.
  - unfold removed. rewrite (Remove_file _ _ data) by done.
    by apply delete_insert_id.
Qed.

Lemma publish t1 dir r t2 tmp r' data op t3 :
  Os.CreateTemp t1 dir r = inr (t2, tmp, r') →
  Os.Rename (append_file t2 tmp data) tmp op = inr t3 →
  t3 = <[op := RegFile data]> t1 ∧ op ≠ [] ∧ t1 !! op ≠ Some Directory ∧
  Lstat t1 (Dir op) = inr Directory.
Proof.
  intros Hc. destruct (temp_written _ _ _ _ _ _ data Hc) as (-> & HL & _).
  apply CreateTemp_inr in Hc as (Hd & Hf & _ & c & ->).
  intros (d & HL' & Hop & Hpar & Hcase)%Rename_inr.
  assert (d = data) as -> by congruence.
  assert (Lstat t1 (Dir op) = inr Directory) as Hpar'.
  { rewrite <- Hpar. symmetry. apply Lstat_insert_ne.
    eapply Lstat_dir_not_below_file; [exact Hpar|apply lookup_insert_eq|].
    by destruct dir. }
  destruct Hcase as [[<- ->]|(Hne & Hnd & ->)].
  - split; [done|]. split; [done|]. split; [congruence|done].
  - rewrite lookup_insert_ne in Hnd by done.
    rewrite delete_insert_id by done. done.
Qed.

Lemma publish_fails t1 dir r t2 tmp r' data op e :
  Os.CreateTemp t1 dir r = inr (t2, tmp, r') →
  Os.Rename (append_file t2 tmp data) tmp op = inl e →
  removed (append_file t2 tmp data) tmp = t1 ∧
  (op = [] ∨ Lstat t1 (Dir op) ≠ inr Directory ∨ t1 !! op = Some Directory).
Proof.
  intros Hc. destruct (temp_written _ _ _ _ _ _ data Hc) as (-> & HL & Hrm).
  apply CreateTemp_inr in Hc as (Hd & Hf & _ & c & ->).
  intros Hr. split; [done|].
  destruct (Rename_inl _ _ _ _ _ HL Hr) as [?|[Hpar|Hdir]]; [by left|..].
  - right. left. intros Hpar'. apply Hpar.
    rewrite <- Hpar'. apply Lstat_insert_ne.
    intros Hpre.
    apply Lstat_prefix_is_Some with (q := dir ++ [c]) in Hpar' as [? ?];
      [congruence|done|by destruct dir].
  - right. right. rewrite lookup_insert_ne in Hdir; [done|].
    intros <-. by rewrite lookup_insert_eq in Hdir.
Qed.

(** The tree after the payload of a put is in place, and after the
    directories of its metadata record are made. *)
Definition published st (b k : string) (data : Reader) (t : tree) : tree :=
  let op := Join (dataDir st) [b; k] in
  <[op := RegFile (reader_bytes data)]> (Os.MkdirAll t (Dir op)).1.

Definition prepared st (b k : string) (data : Reader) (t : tree) : tree :=
  let mp := Join (metadataDir st) [b; k +:+ ".json"] in
  (Os.MkdirAll (published st b k data t) (Dir mp)).1.

(** The three ways a put ends: before the payload is published, with the
    tree as MkdirAll left it; after it, with the metadata record not
    written; or with both in place. *)
Inductive put_outcome st (b k : string) (data : Reader) (ct : string) w
  : result ObjectMetadata → World → Prop :=
| put_unpublished e w' :
    files w' = (Os.MkdirAll (files w) (Dir (Join (dataDir st) [b; k]))).1 →
    clock w' = clock w →
    (∀ c, e ≠ Errorf_w "failed to save metadata" c) →
    put_outcome st b k data ct w (Err e) w'
| put_no_metadata c w' :
    let op := Join (dataDir st) [b; k] in
    reader_ok data = true →
    files w' = prepared st b k data (files w) →
    clock w' = (clock w + 1)%Z →
    Lstat (published st b k data (files w)) op
      = inr (RegFile (reader_bytes data)) →
    op ≠ [] →
    (Os.MkdirAll (files w) (Dir op)).1 !! op ≠ Some Directory →
    put_outcome st b k data ct w
      (Err (Errorf_w "failed to save metadata" c)) w'
| put_done w' :
    let op := Join (dataDir st) [b; k] in
    let mp := Join (metadataDir st) [b; k +:+ ".json"] in
    let m := put_metadata k data ct (clock w) in
    reader_ok data = true →
    files w' = <[mp := RegFile (MarshalObject m)]>
                 (prepared st b k data (files w)) →
    clock w' = (clock w + 1)%Z →
    Lstat (published st b k data (files w)) op
      = inr (RegFile (reader_bytes data)) →
    op ≠ [] →
    (Os.MkdirAll (files w) (Dir op)).1 !! op ≠ Some Directory →
    mp ≠ [] →
    Lstat (prepared st b k data (files w)) (Dir mp) = inr Directory →
    prepared st b k data (files w) !! mp ≠ Some Directory →
    put_outcome st b k data ct w (Ok m) w'.

Lemma PutObject_outcome st b k data ct w r w' :
  PutObject st b k data ct w = (r, w') → put_outcome st b k data ct w r w'.
Proof.
  rewrite PutObject_unfold.
  pose proof (put_unpublished st b k data ct w) as Hun.
  pose proof (put_no_metadata st b k data ct w) as Hno.
  pose proof (put_done st b k data ct w) as Hdone.
  unfold prepared, published in *.
  set (op := Join (dataDir st) [b; k]) in *.
  set (mp := Join (metadataDir st) [b; k +:+ ".json"]) in *.
  destruct (Os.MkdirAll (files w) (Dir op)) as [t1 [e|]] eqn:E1.
  { intros [= <- <-]. by apply Hun. }
  destruct (Os.CreateTemp t1 (Dir op) (rand w)) as [e|[[t2 tmp] r']] eqn:E2.
  { intros [= <- <-]. by apply Hun. }
  destruct (reader_ok data) eqn:Hok.
  2:{ intros [= <- <-]. destruct (temp_written _ _ _ _ _ _ (reader_bytes data) E2)
        as (-> & _ & ->). by apply Hun. }
  simpl. destruct (Os.Rename _ tmp op) as [e|t3] eqn:E3.
  { intros [= <- <-]. apply publish_fails with (1 := E2) in E3 as [-> _].
    by apply Hun. }
  apply publish with (1 := E2) in E3 as (-> & Hop & Hnd & Hpar).
  assert (Lstat (<[op:=RegFile (reader_bytes data)]> t1) op
          = inr (RegFile (reader_bytes data))) as HL.
  { by apply Lstat_insert_eq. }
  destruct (Os.WriteFile _ mp _) as [e|t5] eqn:E5.
  { intros [= <- <-]. by apply Hno. }
  intros [= <- <-].
  apply WriteFile_inr in E5 as (Hmp & Hmpar & Hmnd & ->).
  by apply Hdone.
Qed.

Lemma PutObject_Ok_inv st b k data ct w m w' :
  PutObject st b k data ct w = (Ok m, w') →
  let op := Join (dataDir st) [b; k] in
  let mp := Join (metadataDir st) [b; k +:+ ".json"] in
  m = put_metadata k data ct (clock w) ∧
  reader_ok data = true ∧
  files w' = <[mp := RegFile (MarshalObject m)]>
               (prepared st b k data (files w)) ∧
  clock w' = (clock w + 1)%Z ∧
  Lstat (published st b k data (files w)) op
    = inr (RegFile (reader_bytes data)) ∧
  op ≠ [] ∧
  (Os.MkdirAll (files w) (Dir op)).1 !! op ≠ Some Directory ∧
  mp ≠ [] ∧
  Lstat (prepared st b k data (files w)) (Dir mp) = inr Directory ∧
  prepared st b k data (files w) !! mp ≠ Some Directory.
Proof. intros Hput%PutObject_outcome. by inversion Hput. Qed.

Lemma PutObject_Err_inv st b k data ct w e w' :
  PutObject st b k data ct w = (Err e, w') →
  let op := Join (dataDir st) [b; k] in
  (files w' = (Os.MkdirAll (files w) (Dir op)).1 ∧ clock w' = clock w ∧
   ∀ c, e ≠ Errorf_w "failed to save metadata" c) ∨
  ((∃ c, e = Errorf_w "failed to save metadata" c) ∧
   reader_ok data = true ∧
   files w' = prepared st b k data (files w) ∧
   clock w' = (clock w + 1)%Z ∧
   Lstat (published st b k data (files w)) op
     = inr (RegFile (reader_bytes data)) ∧
   op ≠ [] ∧
   (Os.MkdirAll (files w) (Dir op)).1 !! op ≠ Some Directory).
Proof.
  intros Hput%PutObject_outcome. inversion Hput; subst; [by left|right].
  split; [by eexists|done].
Qed.

Lemma put_done_metadata t mp d :
  mp ≠ [] → Lstat t (Dir mp) = inr Directory →
  Lstat (<[mp := RegFile d]> t) mp = inr (RegFile d).
Proof. apply Lstat_insert_eq. Qed.

Lemma put_done_payload t t' op mp d d' :
  Lstat t op = inr (RegFile d) → grows t t' →
  mp ≠ [] → t' !! mp ≠ Some Directory → op ≠ mp →
  Lstat (<[mp := RegFile d']> t') op = inr (RegFile d).
Proof.
  intros HL Hg Hmp Hnd Hne. apply (grows_Lstat _ _ _ _ Hg) in HL.
  rewrite Lstat_insert_ne; [done|]. intros Hpre.
  by rewrite (Lstat_prefix_lookup _ _ _ _ HL Hpre) in Hnd.
Qed.

(** GetObject, call by call. *)
Lemma GetObject_unfold st b k w :
  let op := Join (dataDir st) [b; k] in
  let mp := Join (metadataDir st) [b; k +:+ ".json"] in
  GetObject st b k w =
  match Lstat (files w) op with
  | inl ENOENT => (Err (Errorf "object not found"), w)
  | inl e =>
      (Err (Errorf_w "failed to open object" (PathError "open" op e)), w)
  | inr file =>
      match Os.ReadFile (files w) mp with
      | inl e =>
          (Err (Errorf_w "failed to load metadata" (PathError "open" mp e)), w)
      | inr d =>
          match UnmarshalObject d with
          | None => (Err (Errorf_w "failed to load metadata" SyntaxError), w)
          | Some m => (Ok (file, m), w)
          end
      end
  end.
Proof.
  intros op mp.
  unfold GetObject, mbind, IO_bind, mret, IO_ret, wrap, try, fail.
  unfold Stat, Open, loadObjectMetadata, Engine.ReadFile, lift.
  unfold mbind, IO_bind, mret, IO_ret, fail. fold op mp.
  destruct (Lstat (files w) op) as [[]|file] eqn:E; simpl;
    rewrite ?E; simpl; try done.
  destruct (Os.ReadFile (files w) mp) as [e|d]; simpl; [done|].
  by destruct (UnmarshalObject d).
Qed.

Lemma ReadFile_Lstat t p d :
  Os.ReadFile t p = inr d ↔ Lstat t p = inr (RegFile d).
Proof.
  unfold Os.ReadFile. destruct (Lstat t p) as [e|[d'|]]; naive_solver.
Qed.

(** errors.Is(err, fs.ErrNotExist): a not-found error of package os, as it
    is or wrapped by fmt.Errorf. *)
Fixpoint not_found (err : error) : bool :=
  match err with
  | PathError _ _ e => Os.IsNotExist e
  | Errorf_w _ cause => not_found cause
  | _ => false
  end.

(** Renaming the temporary file does not fail for a missing entry: the
    file is there, and so is the directory of the target, which is the
    directory the file was made in. *)
Lemma publish_error t1 r t2 tmp r' data op e :
  Os.CreateTemp t1 (Dir op) r = inr (t2, tmp, r') →
  Os.Rename (append_file t2 tmp data) tmp op = inl e → e ≠ ENOENT.
Proof.
  intros Hc. destruct (temp_written _ _ _ _ _ _ data Hc) as (-> & HL & _).
  apply CreateTemp_inr in Hc as (Hd & _ & _ & c & ->).
  unfold Os.Rename. rewrite HL. destruct op as [|x op]; [by intros [= <-]|].
  assert (parent_error (<[Dir (x :: op) ++ [c] := RegFile data]> t1) (x :: op)
          = None) as ->.
  { apply parent_error_None. rewrite Lstat_insert_ne; [done|].
    apply not_prefix_snoc. }
  case_decide; [done|].
  destruct (_ !! (x :: op)) as [[?|]|]; [done| |done]. by intros [= <-].
Qed.

(** No error of PutObject is a not-found error, whatever the tree holds:
    what is missing on the way is made by MkdirAll. *)
Lemma PutObject_never_not_found st b k data ct w e w' :
  PutObject st b k data ct w = (Err e, w') → not_found e = false.
Proof.
  rewrite PutObject_unfold. simpl.
  destruct (Os.MkdirAll _ _) as [t1 [e1|]] eqn:E1.
  { intros [= <- <-]. by apply mkdir_from_error in E1 as [-> _]. }
  destruct (Os.CreateTemp t1 _ _) as [e2|[[t2 tmp] r]] eqn:E2.
  { intros [= <- <-]. apply CreateTemp_inl in E2 as ->; [done|].
    by apply MkdirAll_ok in E1. }
  destruct (reader_ok data); [|by intros [= <- <-]].
  destruct (Os.Rename _ tmp _) as [e3|t3] eqn:E3.
  { intros [= <- <-]. apply (publish_error _ _ _ _ _ _ _ _ E2) in E3.
    by destruct e3. }
  destruct (Os.WriteFile _ _ _) as [e5|t5] eqn:E5; [|done].
  intros [= <- <-]. apply WriteFile_after_MkdirAll in E5. by destruct e5.
Qed.

End PutFacts.

(** The storage NewObjectStorage makes below a base directory. *)
Definition storage_at (base : path) : ObjectStorage :=
  {| dataDir := base ++ ["data"]; metadataDir := base ++ ["metadata"] |}.

Section StorageFacts.
Import Os.
Context `{JSON}.

Lemma clean_onto_snoc stack es e :
  e ≠ "" → e ≠ "." → e ≠ ".." →
  clean_onto stack (es ++ [e]) = clean_onto stack es ++ [e].
Proof.
  intros H1 H2 H3. revert stack. induction es as [|x es IH]; intros stack.
  - simpl. rewrite decide_False by (intros [?|?]; done).
    by rewrite decide_False.
  - simpl. repeat case_decide; try destruct (last stack); try case_decide;
      apply IH.
Qed.

Lemma NewObjectStorage_storage baseDir w :
  (NewObjectStorage baseDir w).1 = Ok (storage_at (Join [] [baseDir])).
Proof.
  unfold NewObjectStorage, mbind, IO_bind, try, mret, IO_ret.
  destruct (Engine.MkdirAll _ w) as [r1 w1].
  destruct (Engine.MkdirAll _ w1) as [r2 w2]. simpl.
  unfold storage_at, Join. simpl. rewrite !app_nil_r.
  by rewrite !clean_onto_snoc.
Qed.

Lemma data_metadata_apart (base x y : path) :
  (base ++ ["data"]) ++ x ≠ (base ++ ["metadata"]) ++ y.
Proof.
  rewrite <- !app_assoc. intros Heq%app_inv_head. simpl in Heq. congruence.
Qed.

Lemma data_not_below_metadata (base x y : path) :
  ¬ ((base ++ ["metadata"]) ++ y) `prefix_of` ((base ++ ["data"]) ++ x).
Proof.
  intros [z Hz]. rewrite <- (app_assoc _ y z) in Hz.
  by apply data_metadata_apart in Hz.
Qed.

Lemma metadata_not_below_data (base x y : path) :
  ¬ ((base ++ ["data"]) ++ y) `prefix_of` ((base ++ ["metadata"]) ++ x).
Proof.
  intros [z Hz]. rewrite <- (app_assoc _ y z) in Hz. symmetry in Hz.
  by apply data_metadata_apart in Hz.
Qed.

Lemma length_append (s1 s2 : string) :
  String.length (s1 +:+ s2) = String.length s1 + String.length s2.
Proof. induction s1 as [|c s1 IH]; simpl; [done|]. by rewrite IH. Qed.

Lemma ext_differs (c : string) :
  c +:+ ".json" ≠ c ∧ c +:+ ".json" ≠ "" ∧ c +:+ ".json" ≠ "." ∧
  c +:+ ".json" ≠ "..".
Proof.
  assert (∀ s, String.length (c +:+ ".json") ≠ String.length s →
               c +:+ ".json" ≠ s) as Hlen
    by (intros s Hs Heq; by rewrite Heq in Hs).
  assert (∀ s, (String.length s < 5)%nat → c +:+ ".json" ≠ s) as Hshort.
  { intros s Hs. apply Hlen. rewrite length_append. simpl. lia. }
  split; [apply Hlen; rewrite length_append; simpl; lia|].
  repeat split; apply Hshort; simpl; lia.
Qed.

Lemma clean_onto_elems stack es es' :
  clean_onto stack (es ++ es') = clean_onto (clean_onto stack es) es'.
Proof.
  revert stack. induction es as [|x es IH]; intros stack; [done|].
  simpl. repeat case_decide; try destruct (last stack); try case_decide;
    apply IH.
Qed.

(** Cleaning the same elements on top of the data and of the metadata
    directory: the two results keep their distinct roots, or [".."] has
    taken both below them and they agree. *)
Lemma clean_onto_roots (base : path) es :
  (∃ s, clean_onto (base ++ ["data"]) es = (base ++ ["data"]) ++ s ∧
        clean_onto (base ++ ["metadata"]) es = (base ++ ["metadata"]) ++ s) ∨
  clean_onto (base ++ ["data"]) es = clean_onto (base ++ ["metadata"]) es.
Proof.
  assert (∀ X Y,
    ((∃ s, X = (base ++ ["data"]) ++ s ∧ Y = (base ++ ["metadata"]) ++ s)
     ∨ X = Y) →
    (∃ s, clean_onto X es = (base ++ ["data"]) ++ s ∧
          clean_onto Y es = (base ++ ["metadata"]) ++ s) ∨
    clean_onto X es = clean_onto Y es) as Hgen.
  { induction es as [|e es IH]; intros X Y HR; [done|]. simpl.
    destruct HR as [(s & -> & ->)|<-]; [|by right].
    case_decide; [apply IH; left; by exists s|].
    case_decide as Hdd.
    - destruct s as [|x s _] using rev_ind.
      + rewrite !app_nil_r, !last_snoc.
        rewrite !decide_False by done. rewrite !removelast_last.
        apply IH. by right.
      + rewrite !app_assoc, !last_snoc. case_decide.
        * apply IH. left. exists ((s ++ [x]) ++ [".."]).
          by rewrite !app_assoc.
        * rewrite !removelast_last. apply IH. left. by exists s.
    - apply IH. left. exists (s ++ [e]). by rewrite !app_assoc. }
  apply Hgen. left. exists []. by rewrite !app_nil_r.
Qed.

(** The payload and the metadata record of an object are never the same
    file, whatever the bucket name and the key. *)
Lemma object_metadata_apart (base : path) (b k : string) :
  Join (base ++ ["data"]) [b; k] ≠ Join (base ++ ["metadata"]) [b; k +:+ ".json"].
Proof.
  unfold Join. cbn [flat_map]. rewrite !app_nil_r.
  rewrite split_slash_ext by done.
  destruct (exists_last (split_slash_nonempty k)) as (ks & c & ->).
  rewrite add_ext_snoc, !app_assoc.
  set (pre := split_slash b ++ ks).
  rewrite (clean_onto_elems _ pre [c]), (clean_onto_elems _ pre [_]).
  destruct (ext_differs c) as (Hc & H1 & H2 & H3).
  assert (∀ Y, clean_onto Y [c +:+ ".json"] = Y ++ [c +:+ ".json"]) as ->.
  { intros Y. simpl. rewrite decide_False by (intros [?|?]; done).
    by rewrite decide_False. }
  assert (∀ X Y : path, (length X ≤ length Y)%nat →
    clean_onto X [c] ≠ Y ++ [c +:+ ".json"]) as Hfin.
  { intros X Y Hlen. simpl. repeat case_decide.
    - intros ->. rewrite length_app in Hlen. simpl in Hlen. lia.
    - destruct (last X) eqn:EL; [case_decide|].
      + intros [_ ?]%app_inj_tail. done.
      + apply last_Some in EL as [X' ->]. rewrite removelast_last.
        intros Heq. apply (f_equal length) in Heq.
        rewrite !length_app in Hlen, Heq. simpl in Hlen, Heq. lia.
      + intros [_ ?]%app_inj_tail. done.
    - intros [_ ?]%app_inj_tail. done. }
  destruct (clean_onto_roots base pre) as [(s & -> & ->)| ->].
  - apply Hfin. rewrite !length_app. simpl. lia.
  - by apply Hfin.
Qed.

End StorageFacts.

(** ** Facts about encoding/hex and crypto/md5 *)

Section HashFacts.

Definition lower_hex (s : string) : Prop :=
  Forall (λ c, c ∈ Hex.hextable) (list_ascii_of_string s).

Lemma digit_hex (n : N) : (n < 16)%N → Hex.digit n ∈ Hex.hextable.
Proof.
  intros Hn. unfold Hex.digit. apply list_elem_of_In, nth_In.
  change (length Hex.hextable) with 16. lia.
Qed.

Lemma EncodeToString_lower_hex src : lower_hex (Hex.EncodeToString src).
Proof.
  unfold lower_hex. induction src as [|b src IH]; simpl; [constructor|].
  pose proof (Byte.to_N_bounded b) as Hb.
  constructor; [|constructor; [|done]]; apply digit_hex.
  - rewrite N.shiftr_div_pow2. change (2 ^ 4)%N with 16%N.
    apply N.Div0.div_lt_upper_bound. lia.
  - change 15%N with (N.ones 4). rewrite N.land_ones.
    apply N.mod_lt. done.
Qed.

Lemma EncodeToString_length src :
  String.length (Hex.EncodeToString src) = 2 * length src.
Proof. induction src as [|b src IH]; simpl; [done|]. rewrite IH. lia. Qed.

Lemma le_bytes_length n z : length (MD5.le_bytes n z) = n.
Proof. unfold MD5.le_bytes. by rewrite length_map, length_seq. Qed.

Lemma Sum_length msg : length (MD5.Sum msg) = 16.
Proof.
  unfold MD5.Sum. destruct (MD5.blocks _ _ _) as [[[a b] c] d].
  by rewrite !length_app, !le_bytes_length.
Qed.

End HashFacts.

(** ** A run of the engine: the scenario of the specification *)

Module Scenario.
Import BitsJSON.

Definition st : ObjectStorage := storage_at ["storage"].

(** The world NewObjectStorage("./storage") leaves when it starts from an
    empty working directory. *)
Definition w0 : World :=
  (NewObjectStorage "./storage"
     {| files := ∅; clock := 1700000000; rand := 42 |}).2.

Definition hello : Reader := Chunk (bytes "hel") (Chunk (bytes "lo") EOF).

Definition w1 : World := (CreateBucket st "photos" w0).2.
Definition w2 : World := (PutObject st "photos" "a.txt" hello "text/plain" w1).2.
Definition w3 : World := (DeleteObject st "photos" "a.txt" w2).2.

Definition a_txt : ObjectMetadata :=
  {| Key := "a.txt";
     Size := 5;
     ContentType := "text/plain";
     ETag := "5d41402abc4b2a76b9719d911017c592";
     LastModified := 1700000001 |}.

(** An object under a nested key. *)
Definition w_nested : World :=
  (PutObject st "photos" "2024/a.txt" hello "text/plain" w1).2.

(** An object put into a bucket that CreateBucket never made. *)
Definition w_music : World :=
  (PutObject st "music" "song.mp3" hello "audio/mpeg" w0).2.

(** A bucket "y", and the world in which a put into bucket "y.json"
    starts. *)
Definition w_y : World := (CreateBucket st "y" w0).2.
Definition w_y_put : World :=
  (PutObject st "y.json" "k" hello "text/plain" w_y).2.

(** A put with the empty key into a bucket that was never created (the
    request PUT /objects/b/). *)
Definition w_flat : World := (PutObject st "b" "" hello "text/plain" w0).2.

Example new_storage :
  (NewObjectStorage "./storage"
     {| files := ∅; clock := 1700000000; rand := 42 |}).1 = Ok st.
Proof. by_computation. Qed.

Example create_photos : CreateBucket st "photos" w0 = (Ok (), w1).
Proof. by_computation. Qed.

Example put_a_txt :
  PutObject st "photos" "a.txt" hello "text/plain" w1 = (Ok a_txt, w2).
Proof. by_computation. Qed.

Example get_a_txt :
  GetObject st "photos" "a.txt" w2 = (Ok (Os.RegFile (bytes "hello"), a_txt), w2).
Proof. by_computation. Qed.

Example delete_a_txt : DeleteObject st "photos" "a.txt" w2 = (Ok (), w3).
Proof. by_computation. Qed.

Example get_after_delete :
  GetObject st "photos" "a.txt" w3 = (Err (Errorf "object not found"), w3).
Proof. by_computation. Qed.

Example list_photos : ListObjects st "photos" w2 = (Ok [a_txt], w2).
Proof. by_computation. Qed.

End Scenario.

(** ** The properties of the engine *)

Section Properties.
Import Os.
Context `{JSON}.
Implicit Types (t : tree) (p q : path) (w : World) (st : ObjectStorage).
Implicit Types (b k ct : string) (data : Reader) (m : ObjectMetadata).

(** C8: the metadata a successful PutObject returns has the number of
    bytes written as its size and the lowercase hexadecimal MD5 digest of
    those bytes as its etag.  After the call the payload path of the key
    holds a regular file: its bytes are the bytes the reader gave, their
    count is the size returned and their digest the etag returned (one
    pass feeds the file and the hash). *)
Theorem PutObject_size_and_etag base b k data ct w m w' :
  PutObject (storage_at base) b k data ct w = (Ok m, w') →
  ∃ written,
    Lstat (files w') (Join (dataDir (storage_at base)) [b; k])
      = inr (RegFile written) ∧
    written = reader_bytes data ∧
    Size m = Z.of_nat (length written) ∧
    ETag m = Hex.EncodeToString (MD5.Sum written) ∧
    lower_hex (ETag m) ∧ String.length (ETag m) = 32.
Proof.
  intros (Hm & _ & Hf & _ & HL & _ & _ & Hmp & Hd & Hnd)%PutObject_Ok_inv.
  exists (reader_bytes data). rewrite Hm. simpl.
  split; [|split; [done|split; [done|split; [done|split]]]].
  - rewrite Hf.
    apply (put_done_payload
             (published (storage_at base) b k data (files w))); try done.
    + apply MkdirAll_grows.
    + apply object_metadata_apart.
  - apply EncodeToString_lower_hex.
  - by rewrite EncodeToString_length, Sum_length.
Qed.

(** C5: after a successful PutObject, GetObject of the same bucket and key
    gives back the bytes that were put, with the metadata PutObject
    returned, whose etag is the MD5 digest of those bytes. *)
Theorem put_get_round_trip base b k data ct w m w' :
  PutObject (storage_at base) b k data ct w = (Ok m, w') →
  GetObject (storage_at base) b k w' = (Ok (RegFile (reader_bytes data), m), w')
  ∧ ETag m = Hex.EncodeToString (MD5.Sum (reader_bytes data)).
Proof.
  intros (Hm & _ & Hf & _ & HL & _ & _ & Hmp & Hd & Hnd)%PutObject_Ok_inv.
  split; [|by rewrite Hm]. rewrite GetObject_unfold. rewrite Hf.
  pose proof (object_metadata_apart base b k) as Hne.
  rewrite (put_done_payload (published (storage_at base) b k data (files w))
             _ _ _ (reader_bytes data)); try done.
  - set (mp := Join (metadataDir (storage_at base)) [b; k +:+ ".json"]) in *.
    assert (Os.ReadFile (<[mp := RegFile (MarshalObject m)]>
               (prepared (storage_at base) b k data (files w))) mp
            = inr (MarshalObject m)) as ->.
    { apply ReadFile_Lstat. by apply put_done_metadata. }
    by rewrite object_round_trip.
  - apply MkdirAll_grows.
Qed.

Lemma Rel_same (p : path) : Rel p p = Some ".".
Proof.
  unfold Rel. assert (strip_common p p = ([], [])) as ->.
  { induction p as [|x p IH]; simpl; [done|]. by rewrite decide_True. }
  rewrite decide_False; [done|]. by intros ?%elem_of_nil.
Qed.

(** C10, as the code has it.  When nothing can be found at the path of
    the bucket's payload directory (the path or a parent of it is
    missing, or a regular file stands where a parent should be),
    ListObjects returns the error of reaching it, not an empty list.
    When a regular file stands at that path (the payload of a put with
    the empty key), there is no payload directory and yet no error: the
    walk visits the file alone, and the list is empty unless a record of
    the key "." is found, and has at most that one object. *)
Theorem ListObjects_missing_bucket st b w :
  (∀ e, Lstat (files w) (Join (dataDir st) [b]) = inl e →
     ListObjects st b w
     = (Err (PathError "lstat" (Join (dataDir st) [b]) e), w)) ∧
  (∀ d, Lstat (files w) (Join (dataDir st) [b]) = inr (RegFile d) →
     ∃ l, ListObjects st b w = (Ok l, w) ∧ (length l ≤ 1)%nat ∧
          (∀ e, Os.ReadFile (files w) (Join (metadataDir st) [b; "..json"])
                = inl e → l = [])).
Proof.
  split.
  - intros e HL. unfold ListObjects, Walk. rewrite HL. done.
  - intros d HL. unfold ListObjects, Walk. rewrite HL.
    unfold ListObjects_visit. simpl. rewrite Rel_same.
    unfold loadObjectMetadata, mbind, IO_bind, mret, IO_ret, fail.
    unfold Engine.ReadFile, lift.
    change ("." +:+ ".json") with "..json".
    destruct (Os.ReadFile (files w) (Join (metadataDir st) [b; "..json"]))
      as [e|d'] eqn:E; simpl.
    + exists []. split; [done|]. split; [simpl; lia|done].
    + destruct (UnmarshalObject d') as [m|]; simpl.
      * exists [m]. split; [done|]. split; [simpl; lia|]. by intros e [=].
      * exists []. split; [done|]. split; [simpl; lia|done].
Qed.

(** DeleteObject, call by call: both removals go to paths below the data
    directory. *)
Lemma DeleteObject_unfold st b k w :
  let op := Join (dataDir st) [b; k] in
  let jp := Join (dataDir st) [b; k +:+ ".json"] in
  DeleteObject st b k w =
  match Os.Remove (files w) op with
  | inl e =>
      if Os.IsNotExist e then
        match Os.Remove (files w) jp with
        | inl e' =>
            if Os.IsNotExist e' then (Ok (), w)
            else (Err (Errorf_w "failed to delete metadata"
                         (PathError "remove" jp e')), w)
        | inr t' => (Ok (), set_files w t')
        end
      else (Err (Errorf_w "failed to delete object"
                   (PathError "remove" op e)), w)
  | inr t1 =>
      match Os.Remove t1 jp with
      | inl e' =>
          if Os.IsNotExist e' then (Ok (), set_files w t1)
          else (Err (Errorf_w "failed to delete metadata"
                       (PathError "remove" jp e')), set_files w t1)
      | inr t' => (Ok (), set_files w t')
      end
  end.
Proof.
  intros op jp.
  unfold DeleteObject, unless_not_exist, mbind, IO_bind, mret, IO_ret, try, fail.
  unfold Engine.Remove, update. fold op jp.
  destruct (Os.Remove (files w) op) as [e|t1]; simpl.
  - destruct (Os.IsNotExist e); simpl; [|done].
    destruct (Os.Remove (files w) jp) as [e'|t']; simpl; [|done].
    by destruct (Os.IsNotExist e').
  - destruct (Os.Remove t1 jp) as [e'|t']; simpl; [|by destruct w].
    destruct (Os.IsNotExist e'); by destruct w.
Qed.

(** DeleteObject only ever deletes entries below the data directory: the
    entries it leaves differ from before at the payload path and at the
    payload path with ".json" appended, nowhere else. *)
Lemma DeleteObject_effect st b k w r w' q :
  DeleteObject st b k w = (r, w') →
  q ≠ Join (dataDir st) [b; k] → q ≠ Join (dataDir st) [b; k +:+ ".json"] →
  files w' !! q = files w !! q.
Proof.
  rewrite DeleteObject_unfold.
  set (op := Join (dataDir st) [b; k]).
  set (jp := Join (dataDir st) [b; k +:+ ".json"]).
  intros Hrun Hq1 Hq2.
  destruct (Os.Remove (files w) op) as [e|t1] eqn:E1.
  - destruct (Os.IsNotExist e); [|by simplify_eq].
    destruct (Os.Remove (files w) jp) as [e'|t'] eqn:E2.
    + destruct (Os.IsNotExist e'); by simplify_eq.
    + apply Remove_inr in E2 as ->. simplify_eq. simpl.
      by rewrite lookup_delete_ne.
  - apply Remove_inr in E1 as ->.
    destruct (Os.Remove _ jp) as [e'|t'] eqn:E2.
    + destruct (Os.IsNotExist e'); simplify_eq; simpl;
        by rewrite lookup_delete_ne.
    + apply Remove_inr in E2 as ->. simplify_eq. simpl.
      by rewrite !lookup_delete_ne.
Qed.

(** For a bucket name of one component and a clean key, nothing below the
    metadata directory changes under DeleteObject: the metadata record of
    the object is still there afterwards. *)
Lemma DeleteObject_keeps_metadata base b k w r w' q :
  valid_name b → clean_key k →
  DeleteObject (storage_at base) b k w = (r, w') →
  (base ++ ["metadata"]) `prefix_of` q →
  files w' !! q = files w !! q.
Proof.
  intros Hb Hk Hrun [x ->]. eapply DeleteObject_effect; [exact Hrun|..]; simpl.
  - rewrite Join_object by done. intros Heq. symmetry in Heq.
    by apply data_metadata_apart in Heq.
  - rewrite Join_object_json by done. intros Heq. symmetry in Heq.
    by apply data_metadata_apart in Heq.
Qed.

(** C6, as the code has it: NotFound is the answer exactly when os.Stat
    reports that nothing exists at the payload path; any other failure to
    reach the path is an error of opening; and when something is at the
    path (a regular file, or a directory) while the metadata record cannot
    be read or decoded, the answer is an error of loading the metadata,
    with no stream. *)
Theorem GetObject_errors st b k w :
  let op := Join (dataDir st) [b; k] in
  let mp := Join (metadataDir st) [b; k +:+ ".json"] in
  ((GetObject st b k w).1 = Err (Errorf "object not found")
   ↔ Lstat (files w) op = inl ENOENT) ∧
  (∀ e, Lstat (files w) op = inl e → e ≠ ENOENT →
        (GetObject st b k w).1
        = Err (Errorf_w "failed to open object" (PathError "open" op e))) ∧
  (∀ n, Lstat (files w) op = inr n →
        (∀ d, Os.ReadFile (files w) mp = inr d → UnmarshalObject d = None) →
        ∃ c, (GetObject st b k w).1
             = Err (Errorf_w "failed to load metadata" c)).
Proof.
  intros op mp. rewrite GetObject_unfold. fold op mp.
  split; [|split].
  - destruct (Lstat (files w) op) as [[]|n]; simpl; try (split; congruence).
    destruct (Os.ReadFile (files w) mp) as [e|d]; simpl; [split; congruence|].
    destruct (UnmarshalObject d); simpl; split; congruence.
  - intros e -> He. by destruct e.
  - intros n -> Hbad.
    destruct (Os.ReadFile (files w) mp) as [e|d]; simpl; [by eauto|].
    rewrite (Hbad d) by done. by eauto.
Qed.

(** *** The claims the code departs from, as they are stated *)

(** C6 as stated: NotFound exactly when no payload file exists for the
    key. *)
Definition NotFound_iff_no_payload_file st b k w : Prop :=
  (GetObject st b k w).1 = Err (Errorf "object not found")
  ↔ ¬ ∃ d, Lstat (files w) (Join (dataDir st) [b; k]) = inr (RegFile d).

(** C2 as stated: after a PutObject that returned an error, a payload
    visible at the key was there before. *)
Definition failed_put_shows_no_new_payload st b k data ct w : Prop :=
  ∀ e w', PutObject st b k data ct w = (Err e, w') →
  ∀ d, Lstat (files w') (Join (dataDir st) [b; k]) = inr (RegFile d) →
       Lstat (files w) (Join (dataDir st) [b; k]) = inr (RegFile d).

(** C9 as stated: into a bucket with no payload directory and no bucket
    metadata record, PutObject succeeds. *)
Definition put_into_absent_bucket_succeeds st b k data ct w : Prop :=
  Lstat (files w) (Join (dataDir st) [b]) = inl ENOENT →
  Lstat (files w) (Join (metadataDir st) [b +:+ ".json"]) = inl ENOENT →
  ∃ m w', PutObject st b k data ct w = (Ok m, w').

(** C10 as stated: for a bucket whose payload directory does not exist,
    ListObjects returns an error. *)
Definition no_directory_is_an_error st b w : Prop :=
  Lstat (files w) (Join (dataDir st) [b]) ≠ inr Directory →
  ∃ e, (ListObjects st b w).1 = Err e.

(** C3 as stated: a bucket whose metadata record cannot be read has no
    entry in the list. *)
Definition unreadable_buckets_omitted st w : Prop :=
  ∀ l w' name e bk, ListBuckets st w = (Ok l, w') →
  Os.ReadFile (files w) (Join (metadataDir st) [name +:+ ".json"]) = inl e →
  bk ∈ l → Name bk ≠ name.

(** *** ListBuckets *)

Lemma child_of_Some p q c : child_of p q = Some c ↔ q = p ++ [c].
Proof.
  unfold child_of. split.
  - destruct (last q) as [c'|]; [|done]. case_decide; naive_solver.
  - intros ->. rewrite last_snoc. by rewrite decide_True.
Qed.

Lemma elem_of_entries t p c n :
  (c, n) ∈ entries t p ↔ t !! (p ++ [c]) = Some n.
Proof.
  unfold entries. rewrite list_elem_of_omap. split.
  - intros ([q n'] & Hin%elem_of_map_to_list & Hf).
    destruct (child_of p q) as [c'|] eqn:E; simplify_eq/=.
    by apply child_of_Some in E as ->.
  - intros Hl. exists (p ++ [c], n). split; [by apply elem_of_map_to_list|].
    by rewrite (proj2 (child_of_Some p (p ++ [c]) c) eq_refl).
Qed.

Lemma ReadDir_Directory t p :
  Lstat t p = inr Directory →
  ∃ es, Os.ReadDir t p = inr es ∧
        ∀ c n, (c, n) ∈ es ↔ t !! (p ++ [c]) = Some n.
Proof.
  intros HL. unfold Os.ReadDir. rewrite HL. eexists. split; [done|].
  intros c n. rewrite merge_sort_Permutation. apply elem_of_entries.
Qed.

(** What ListBuckets makes of the directory [name]: the decoded record,
    or, when the record cannot be read, a substitute with the name of the
    directory and the time of the call. *)
Definition bucket_listed st t (now : Z) (name : string) (bk : Bucket) : Prop :=
  match Os.ReadFile t (Join (metadataDir st) [name +:+ ".json"]) with
  | inl _ => Name bk = name ∧ (now ≤ Created bk)%Z
  | inr d => UnmarshalBucket d = Some bk
  end.

Lemma loadBucketMetadata_unfold st name w :
  loadBucketMetadata st name w =
  match Os.ReadFile (files w) (Join (metadataDir st) [name +:+ ".json"]) with
  | inl _ =>
      (Ok {| Name := name; Created := clock w |},
       {| files := files w; clock := (clock w + 1)%Z; rand := rand w |})
  | inr d =>
      match UnmarshalBucket d with
      | None => (Err SyntaxError, w)
      | Some bk => (Ok bk, w)
      end
  end.
Proof.
  unfold loadBucketMetadata, mbind, IO_bind, mret, IO_ret, try, fail.
  unfold Engine.ReadFile, lift, time_Now.
  destruct (Os.ReadFile _ _) as [e|d]; simpl; [done|].
  by destruct (UnmarshalBucket d).
Qed.

Lemma ListBuckets_loop_spec st es acc w :
  ∃ l w', ListBuckets_loop st es acc w = (Ok (acc ++ l), w') ∧
    files w' = files w ∧ (clock w ≤ clock w')%Z ∧
    (∀ bk, bk ∈ l →
       ∃ name, (name, Directory) ∈ es ∧
               bucket_listed st (files w) (clock w) name bk) ∧
    (∀ name, (name, Directory) ∈ es →
       (∃ bk, bk ∈ l ∧ bucket_listed st (files w) (clock w) name bk) ∨
       (∃ d, Os.ReadFile (files w) (Join (metadataDir st) [name +:+ ".json"])
             = inr d ∧ UnmarshalBucket d = None)).
Proof.
  revert acc w. induction es as [|[name info] es IH]; intros acc w.
  - exists [], w. rewrite app_nil_r. simpl.
    split; [done|]. split; [done|]. split; [lia|].
    split; by intros ? ?%elem_of_nil.
  - simpl. destruct info as [d|]; simpl.
    { destruct (IH acc w) as (l & w' & -> & Hf & Hc & Hin & Hall).
      exists l, w'.
      split; [done|]. split; [done|]. split; [done|]. split.
      - intros bk (n & Hn & Hb)%Hin. exists n. split; [by right|done].
      - intros n [[= ]|Hn]%elem_of_cons. by apply Hall. }
    unfold mbind, IO_bind, try. rewrite loadBucketMetadata_unfold.
    unfold bucket_listed in *.
    destruct (Os.ReadFile (files w) _) as [e|d] eqn:ER.
    + set (w1 := {| files := files w; clock := (clock w + 1)%Z; rand := rand w |}).
      destruct (IH (acc ++ [{| Name := name; Created := clock w |}]) w1)
        as (l & w' & -> & Hf & Hc & Hin & Hall). simpl in *.
      exists ({| Name := name; Created := clock w |} :: l), w'.
      rewrite <- app_assoc.
      split; [done|]. split; [done|]. split; [lia|]. split.
      * intros bk [->|Hbk]%elem_of_cons.
        -- exists name. split; [by left|]. rewrite ER. simpl. split; [done|lia].
        -- destruct (Hin bk Hbk) as (n & Hn & Hb). exists n.
           split; [by right|].
           destruct (Os.ReadFile (files w)
                       (Join (metadataDir st) [n +:+ ".json"])); [|done].
           destruct Hb. split; [done|lia].
      * intros n [[= ->]|Hn]%elem_of_cons.
        -- left. eexists. split; [by left|]. rewrite ER. simpl. split; [done|lia].
        -- destruct (Hall n Hn) as [(bk & Hbk & Hb)|Hbad]; [left|by right].
           exists bk. split; [by right|].
           destruct (Os.ReadFile (files w)
                       (Join (metadataDir st) [n +:+ ".json"])); [|done].
           destruct Hb. split; [done|lia].
    + destruct (UnmarshalBucket d) as [bk0|] eqn:EU.
      * destruct (IH (acc ++ [bk0]) w) as (l & w' & -> & Hf & Hc & Hin & Hall).
        exists (bk0 :: l), w'. rewrite <- app_assoc.
        split; [done|]. split; [done|]. split; [done|]. split.
        -- intros bk [->|Hbk]%elem_of_cons.
           ++ exists name. split; [by left|]. by rewrite ER.
           ++ destruct (Hin bk Hbk) as (n & Hn & Hb). exists n.
              split; [by right|done].
        -- intros n [[= ->]|Hn]%elem_of_cons.
           ++ left. exists bk0. split; [by left|]. by rewrite ER.
           ++ destruct (Hall n Hn) as [(bk & Hbk & Hb)|Hbad]; [left|by right].
              exists bk. split; [by right|done].
      * destruct (IH acc w) as (l & w' & -> & Hf & Hc & Hin & Hall).
        exists l, w'.
        split; [done|]. split; [done|]. split; [done|]. split.
        -- intros bk (n & Hn & Hb)%Hin. exists n. split; [by right|done].
        -- intros n [[= ->]|Hn]%elem_of_cons; [|by apply Hall].
           right. exists d. by rewrite ER.
Qed.

(** C3, as the code has it: ListBuckets answers for every directory under
    the data directory.  Each entry of its list is the decoded record of
    such a directory or, where the record cannot be read, a substitute
    made of the directory name and the current time; conversely every
    such directory has its entry, except those whose record is read and
    does not parse. *)
Theorem ListBuckets_entries st w :
  Lstat (files w) (dataDir st) = inr Directory →
  ∃ l w', ListBuckets st w = (Ok l, w') ∧ files w' = files w ∧
    (∀ bk, bk ∈ l →
       ∃ name, files w !! (dataDir st ++ [name]) = Some Directory ∧
               bucket_listed st (files w) (clock w) name bk) ∧
    (∀ name, files w !! (dataDir st ++ [name]) = Some Directory →
       (∃ bk, bk ∈ l ∧ bucket_listed st (files w) (clock w) name bk) ∨
       (∃ d, Os.ReadFile (files w) (Join (metadataDir st) [name +:+ ".json"])
             = inr d ∧ UnmarshalBucket d = None)).
Proof.
  intros (es & Hes & Hmem)%ReadDir_Directory.
  unfold ListBuckets, mbind, IO_bind, wrap, Engine.ReadDir, lift.
  rewrite Hes. simpl.
  destruct (ListBuckets_loop_spec st es [] w)
    as (l & w' & -> & Hf & _ & Hin & Hall).
  exists l, w'. split; [done|]. split; [done|]. split.
  - intros bk (n & Hn%Hmem & Hb)%Hin. by exists n.
  - intros n Hn%Hmem. by apply Hall.
Qed.

(** *** PutObject that fails *)

(** C2, as the code has it.  In a well-formed tree, a PutObject that
    returns an error leaves every regular file other than the payload of
    its key as it was (the metadata records among them: none is written).
    For the payload itself: when the error is not the one of saving the
    metadata, it is as before too; when it is, the payload the call was
    given is already published at the key. *)
Theorem PutObject_failure st b k data ct w e w' :
  well_formed (files w) →
  PutObject st b k data ct w = (Err e, w') →
  let op := Join (dataDir st) [b; k] in
  (∀ p d, p ≠ op →
     Lstat (files w') p = inr (RegFile d) ↔ Lstat (files w) p = inr (RegFile d)) ∧
  ((∀ c, e ≠ Errorf_w "failed to save metadata" c) →
   ∀ d, Lstat (files w') op = inr (RegFile d)
        ↔ Lstat (files w) op = inr (RegFile d)) ∧
  ((∃ c, e = Errorf_w "failed to save metadata" c) →
   Lstat (files w') op = inr (RegFile (reader_bytes data))).
Proof.
  intros Hwf Hput op.
  pose proof (MkdirAll_grows (files w) (Dir op)) as Hg1.
  destruct (PutObject_Err_inv _ _ _ _ _ _ _ _ Hput)
    as [(Hf & _ & He)|((c & ->) & _ & Hf & _ & HL & Hop & Hnd)];
    fold op in Hf; rewrite Hf.
  - split; [|split].
    + intros p d _. by apply grows_regular_files.
    + intros _ d. by apply grows_regular_files.
    + intros [c ->]. by destruct (He c).
  - fold op in HL, Hop, Hnd.
    pose proof (MkdirAll_grows (published st b k data (files w))
                  (Dir (Join (metadataDir st) [b; k +:+ ".json"]))) as Hg2.
    fold (prepared st b k data (files w)) in Hg2.
    split; [|split].
    + intros p d Hp. split.
      * intros HLp. apply Hwf. apply (grows_file_back _ _ _ _ Hg1).
        apply Lstat_lookup in HLp; [|by intros ->].
        apply (grows_file_back _ _ _ _ Hg2) in HLp.
        unfold published in HLp. fold op in HLp.
        by rewrite lookup_insert_ne in HLp.
      * intros HLp. apply (grows_Lstat _ _ _ _ Hg2).
        unfold published. fold op.
        apply Lstat_insert_other; [|done..].
        by apply (grows_Lstat _ _ _ _ Hg1).
    + intros Hc. by destruct (Hc c).
    + intros _. by apply (grows_Lstat _ _ _ _ Hg2).
Qed.

End Properties.

(** ** PutObject into a bucket that was never created *)

Section FreshBucket.
Import Os.
Context `{JSON}.
Implicit Types (t : tree) (p q : path) (w : World).

Lemma prefix_snoc_cases (q l : path) x :
  q `prefix_of` l ++ [x] → q = l ++ [x] ∨ q `prefix_of` l.
Proof.
  intros [k Hk]. destruct k as [|y k _] using rev_ind.
  - left. by rewrite app_nil_r in Hk.
  - right. rewrite app_assoc in Hk. apply app_inj_tail in Hk as [-> _].
    by apply prefix_app_r.
Qed.

Lemma prefix_below_cases (D q x : path) b :
  q `prefix_of` D ++ b :: x → q `prefix_of` D ∨ (D ++ [b]) `prefix_of` q.
Proof.
  intros Hq.
  destruct (prefix_weak_total q (D ++ [b]) (D ++ b :: x)) as [Hl|Hr];
    [done|by apply prefix_app, prefix_cons, prefix_nil| |by right].
  destruct (prefix_snoc_cases _ _ _ Hl) as [->|?]; [by right|by left].
Qed.

(** Below an existing directory [D], with nothing at or below [D/b]: no
    regular file stands on the way to a path below [D/b]. *)
Lemma no_file_on_the_way t (D x : path) b q d :
  Lstat t D = inr Directory →
  (∀ q, (D ++ [b]) `prefix_of` q → t !! q = None) →
  q `prefix_of` D ++ b :: x → q ≠ [] → t !! q ≠ Some (RegFile d).
Proof.
  intros HD Hfree Hq Hne.
  destruct (prefix_below_cases _ _ _ _ Hq) as [Hl|Hr].
  - destruct (Lstat_prefix_is_Some _ _ _ _ HD Hl Hne) as [n Hn].
    destruct (decide (q = D)) as [->|HqD].
    + apply Lstat_lookup in HD; [congruence|done].
    + rewrite (Lstat_prefix_lookup _ _ _ _ HD Hl HqD Hne). done.
  - by rewrite (Hfree q Hr).
Qed.

Lemma publish_succeeds t1 r t2 tmp r' data op :
  Os.CreateTemp t1 (Dir op) r = inr (t2, tmp, r') →
  op ≠ [] → t1 !! op ≠ Some Directory →
  Os.Rename (append_file t2 tmp data) tmp op
  = inr (<[op := RegFile data]> t1).
Proof.
  intros Hc Hop Hnd.
  destruct (temp_written _ _ _ _ _ _ data Hc) as (-> & HL & _).
  apply CreateTemp_inr in Hc as (Hd & Hf & _ & c & ->).
  unfold Os.Rename. rewrite HL. destruct op as [|x op]; [done|].
  assert (parent_error (<[Dir (x :: op) ++ [c] := RegFile data]> t1) (x :: op)
          = None) as ->.
  { apply parent_error_None. rewrite Lstat_insert_ne; [done|].
    apply not_prefix_snoc. }
  case_decide as Heq.
  - by rewrite Heq.
  - rewrite lookup_insert_ne by done.
    rewrite delete_insert_id by done.
    by destruct (t1 !! (x :: op)) as [[?|]|].
Qed.

Lemma well_formed_nothing_below t p q :
  well_formed t → t !! p = None → p ≠ [] → p `prefix_of` q → t !! q = None.
Proof.
  intros Hwf Hp Hne Hpre. destruct (t !! q) as [n|] eqn:E; [|done].
  apply Hwf in E. destruct (Lstat_prefix_is_Some _ _ _ _ E Hpre Hne). congruence.
Qed.

(** C9, as the code has it: PutObject does not need the bucket, but it
    does not succeed for every bucket that was never created.  With no
    payload directory data/b for bucket [b], no error of PutObject into
    [b] is a not-found error.  And the put succeeds in a well-formed
    store with its data and metadata directories, where nothing stands
    at metadata/b either (the record of a bucket "x" stands there when
    [b] is "x.json"), for a bucket name of one path component, a key of
    clean components and a reader that does not fail, when the file
    system accepts the paths of the payload, of the temporary file and
    of the metadata record: it returns the metadata, the payload
    directory of the bucket exists afterwards, and the bucket record is
    as before (none is written). *)
Theorem PutObject_creates_bucket base b k data ct w :
  files w !! (base ++ ["data"; b]) = None →
  (∀ e w', PutObject (storage_at base) b k data ct w = (Err e, w') →
     not_found e = false) ∧
  (valid_name b → clean_key k → reader_ok data = true →
   well_formed (files w) →
   Lstat (files w) (base ++ ["data"]) = inr Directory →
   Lstat (files w) (base ++ ["metadata"]) = inr Directory →
   files w !! (base ++ ["metadata"; b]) = None →
   path_accepted (Join (dataDir (storage_at base)) [b; k]) →
   temp_accepted (Dir (Join (dataDir (storage_at base)) [b; k])) →
   path_accepted (Join (metadataDir (storage_at base)) [b; k +:+ ".json"]) →
   ∃ m w',
     PutObject (storage_at base) b k data ct w = (Ok m, w') ∧
     Lstat (files w') (base ++ ["data"; b]) = inr Directory ∧
     files w' !! (base ++ ["metadata"; b +:+ ".json"])
     = files w !! (base ++ ["metadata"; b +:+ ".json"])).
Proof.
  intros HDb. split; [intros e w'; apply PutObject_never_not_found|].
  intros Hb Hk Hok Hwf HD HM HMb _ _ _.
  set (D := base ++ ["data"]) in *. set (M := base ++ ["metadata"]) in *.
  assert (∀ q, (D ++ [b]) `prefix_of` q → files w !! q = None) as HA.
  { intros q. apply well_formed_nothing_below; [done| |by destruct D].
    unfold D. by rewrite <- app_assoc. }
  assert (∀ q, (M ++ [b]) `prefix_of` q → files w !! q = None) as HB.
  { intros q. apply well_formed_nothing_below; [done| |by destruct M].
    unfold M. by rewrite <- app_assoc. }
  destruct (exists_last (split_slash_nonempty k)) as (ki & c & Hks).
  assert (Join D [b; k] = (D ++ b :: ki) ++ [c]) as Hop.
  { rewrite Join_object by done. rewrite Hks. by rewrite <- app_assoc. }
  assert (Join M [b; k +:+ ".json"] = (M ++ b :: ki) ++ [c +:+ ".json"]) as Hmp.
  { rewrite Join_object_json by done. rewrite Hks, add_ext_snoc.
    by rewrite <- app_assoc. }
  rewrite PutObject_unfold. simpl. fold D M. rewrite Hop, Hmp, !Dir_snoc.
  set (od := D ++ b :: ki). set (op := od ++ [c]).
  set (md := M ++ b :: ki). set (mp := md ++ [c +:+ ".json"]).
  (* the payload directories *)
  destruct (MkdirAll_succeeds (files w) od) as [t1 E1].
  { intros q d Hq Hne.
    exact (no_file_on_the_way (files w) D ki b q d HD HA Hq Hne). }
  rewrite E1.
  pose proof (MkdirAll_ok _ _ _ E1) as Hod.
  pose proof (MkdirAll_effect (files w) od) as Heff1. rewrite E1 in Heff1.
  simpl in Heff1.
  assert (∀ q, (D ++ [b]) `prefix_of` q → ¬ q `prefix_of` od → t1 !! q = None)
    as HA1.
  { intros q Hq Hn. destruct (Heff1 q) as [->|(_ & _ & ? & _)]; [by apply HA|done]. }
  assert ((D ++ [b]) `prefix_of` od) as HDbod
    by (unfold od; apply prefix_app, prefix_cons, prefix_nil).
  (* the temporary file *)
  rewrite CreateTemp_fresh; [|done|].
  2:{ apply HA1; [by apply prefix_app_r|apply not_prefix_snoc]. }
  simpl. rewrite Hok.
  (* the rename *)
  assert (t1 !! op = None) as Hop1
    by (apply HA1; [by apply prefix_app_r|apply not_prefix_snoc]).
  rewrite (publish_succeeds t1 (rand w)
             (<[od ++ [temp_name (rand w)] := RegFile []]> t1)
             (od ++ [temp_name (rand w)]) (N.succ (rand w))
             (reader_bytes data) op).
  2:{ unfold op. rewrite Dir_snoc. apply CreateTemp_fresh; [done|].
      apply HA1; [by apply prefix_app_r|apply not_prefix_snoc]. }
  2:{ unfold op. by destruct od. }
  2:{ by rewrite Hop1. }
  set (t3 := <[op := RegFile (reader_bytes data)]> t1).
  (* the directories of the metadata record *)
  assert (∀ q, M `prefix_of` q → q ≠ op) as Hapart.
  { intros q [x ->] Heq. unfold op, od, D, M in Heq.
    rewrite <- (app_assoc _ (b :: ki)) in Heq. symmetry in Heq.
    by apply data_metadata_apart in Heq. }
  assert (∀ q, M `prefix_of` q → t1 !! q = files w !! q) as HM1.
  { intros q [x ->]. destruct (Heff1 (M ++ x)) as [->|(_ & _ & Hpre & _)]; [done|].
    unfold od, D, M in Hpre. by apply data_not_below_metadata in Hpre. }
  destruct (MkdirAll_succeeds t3 md) as [t4 E4].
  { intros q d Hq Hne. unfold t3.
    destruct (prefix_below_cases _ _ _ _ Hq) as [Hl|Hr].
    - rewrite lookup_insert_ne.
      2:{ intros <-. unfold op, od, D, M in Hl.
          rewrite <- (app_assoc _ (b :: ki)) in Hl.
          rewrite <- (app_nil_r (base ++ ["metadata"])) in Hl.
          by apply metadata_not_below_data in Hl. }
      destruct (Heff1 q) as [->|(_ & -> & _)]; [|done].
      eapply (no_file_on_the_way _ M ki b); [done|done| |done].
      by apply prefix_app_r.
    - assert (M `prefix_of` q) as HMq
        by (etrans; [|exact Hr]; by apply prefix_app_r).
      rewrite lookup_insert_ne by (symmetry; by apply Hapart).
      rewrite HM1 by done. by rewrite HB. }
  rewrite E4. simpl.
  pose proof (MkdirAll_ok _ _ _ E4) as Hmd.
  pose proof (MkdirAll_effect t3 md) as Heff4. rewrite E4 in Heff4.
  simpl in Heff4.
  assert (M `prefix_of` mp) as HMmp
    by (unfold mp, md; rewrite <- app_assoc; by apply prefix_app_r).
  assert (t4 !! mp = None) as Hmp4.
  { destruct (Heff4 mp) as [->|(_ & _ & Hpre & _)];
      [|by apply not_prefix_snoc in Hpre].
    unfold t3. rewrite lookup_insert_ne by (symmetry; by apply Hapart).
    rewrite HM1 by done. apply HB. unfold mp, md.
    rewrite <- app_assoc. apply prefix_app. by apply prefix_cons, prefix_nil. }
  rewrite WriteFile_succeeds;
    [|unfold mp; by destruct md|unfold mp; by rewrite Dir_snoc
     |by rewrite Hmp4].
  eexists _, _. split; [done|]. simpl. split.
  - assert (Lstat t1 (D ++ [b]) = inr Directory) as HDb1.
    { destruct (decide (D ++ [b] = od)) as [->|Hne]; [done|].
      by eapply Lstat_prefix. }
    replace (base ++ ["data"; b]) with (D ++ [b])
      by (unfold D; by rewrite <- app_assoc).
    rewrite Lstat_insert_ne.
    2:{ unfold mp, md, M, D. rewrite <- (app_assoc _ (b :: ki)).
        apply data_not_below_metadata. }
    eapply grows_Lstat.
    { pose proof (MkdirAll_grows t3 md) as Hg. by rewrite E4 in Hg. }
    unfold t3. rewrite Lstat_insert_ne; [done|].
    intros Hpre%prefix_length. unfold op, od in Hpre.
    rewrite !length_app in Hpre. simpl in Hpre. lia.
  - assert (M `prefix_of` (base ++ ["metadata"; b +:+ ".json"])) as HMr.
    { exists [b +:+ ".json"]. unfold M. by rewrite <- app_assoc. }
    assert (base ++ ["metadata"; b +:+ ".json"] ≠ mp) as Hne.
    { unfold mp, md, M. rewrite <- !app_assoc. intros Heq%app_inv_head.
      simplify_eq/=. destruct (ext_differs b) as (Hd & _). done. }
    rewrite lookup_insert_ne by done.
    destruct (Heff4 (base ++ ["metadata"; b +:+ ".json"]))
      as [->|(_ & _ & Hpre & _)].
    + unfold t3. rewrite lookup_insert_ne by (symmetry; by apply Hapart).
      by apply HM1.
    + exfalso. unfold md, M in Hpre. rewrite <- app_assoc in Hpre.
      apply prefix_app_inv in Hpre. simpl in Hpre.
      apply prefix_cons_inv_2, prefix_cons_inv_1 in Hpre.
      destruct (ext_differs b) as (Hd & _). done.
Qed.

End FreshBucket.

(** ** Buckets: payload directory and metadata record *)

Section Buckets.
Import Os.
Context `{JSON}.
Variable base : path.
Implicit Types (t : tree) (p q : path) (w : World).

Let D : path := base ++ ["data"].
Let M : path := base ++ ["metadata"].
Let st : ObjectStorage := storage_at base.

(** The invariant of the specification: a bucket has its payload
    directory exactly when it has its metadata record. *)
Definition buckets_paired t : Prop :=
  ∀ name, valid_name name →
    Lstat t (base ++ ["data"; name]) = inr Directory
    ↔ ∃ d, Lstat t (base ++ ["metadata"; name +:+ ".json"]) = inr (RegFile d).

(** With the two directories of the store in place. *)
Definition store_invariant t : Prop :=
  Lstat t (base ++ ["data"]) = inr Directory ∧
  Lstat t (base ++ ["metadata"]) = inr Directory ∧
  buckets_paired t.

(** What the invariant reads of a tree stays the same from [t] to [t']:
    the two directories, the entries of the data directory, and which
    entries of the metadata directory are regular files. *)
Definition same_buckets t t' : Prop :=
  (Lstat t D = inr Directory → Lstat t' D = inr Directory) ∧
  (Lstat t M = inr Directory → Lstat t' M = inr Directory) ∧
  (∀ c, t' !! (D ++ [c]) = t !! (D ++ [c])) ∧
  (∀ c d, t' !! (M ++ [c]) = Some (RegFile d) ↔ t !! (M ++ [c]) = Some (RegFile d)).

Lemma same_buckets_refl t : same_buckets t t.
Proof. by repeat split. Qed.

Lemma same_buckets_trans t1 t2 t3 :
  same_buckets t1 t2 → same_buckets t2 t3 → same_buckets t1 t3.
Proof.
  intros (HD1 & HM1 & Hd1 & Hm1) (HD2 & HM2 & Hd2 & Hm2).
  split; [by auto|]. split; [by auto|]. split.
  - intros c. by rewrite Hd2, Hd1.
  - intros c d. by rewrite Hm2, Hm1.
Qed.

Lemma Lstat_child t p c n :
  Lstat t p = inr Directory →
  Lstat t (p ++ [c]) = inr n ↔ t !! (p ++ [c]) = Some n.
Proof.
  intros Hp. rewrite Lstat_snoc, Hp.
  destruct (t !! (p ++ [c])); naive_solver.
Qed.

Lemma store_invariant_same t t' :
  same_buckets t t' → store_invariant t → store_invariant t'.
Proof.
  intros (HD & HM & Hd & Hm) (HDt & HMt & Hp).
  fold D M in HDt, HMt. split; [by apply HD|]. split; [by apply HM|].
  intros name Hn. specialize (Hp name Hn).
  replace (base ++ ["data"; name]) with (D ++ [name]) in *
    by (unfold D; by rewrite <- app_assoc).
  replace (base ++ ["metadata"; name +:+ ".json"])
    with (M ++ [name +:+ ".json"]) in *
    by (unfold M; by rewrite <- app_assoc).
  rewrite Lstat_child in Hp |- * by auto.
  rewrite Hd, Hp. split; intros [d Hd'].
  - exists d. apply Lstat_child; [by auto|]. apply Hm.
    by apply Lstat_child in Hd'.
  - exists d. apply Lstat_child; [by auto|]. apply Hm.
    apply Lstat_child in Hd'; by auto.
Qed.

(** Paths at least two components below the data or the metadata
    directory: where objects and their records live. *)
Definition deep (q : path) : Prop :=
  ∃ r x y z, (r = D ∨ r = M) ∧ q = r ++ x :: y :: z.

Lemma deep_not_shallow q :
  deep q →
  ¬ q `prefix_of` D ∧ ¬ q `prefix_of` M ∧
  (∀ c, q ≠ D ++ [c]) ∧ (∀ c, q ≠ M ++ [c]).
Proof.
  intros (r & x & y & z & Hr & ->).
  assert (∀ (l : path) c, r ++ x :: y :: z ≠ r ++ [c]) as Hlen.
  { intros _ c Heq%app_inv_head. done. }
  assert (∀ l : path, length l = length r → ¬ (r ++ x :: y :: z) `prefix_of` l)
    as Hpre.
  { intros l Hl Hp%prefix_length. rewrite length_app in Hp. simpl in Hp. lia. }
  assert (length D = length M) as HDM
    by (unfold D, M; rewrite !length_app; done).
  destruct Hr as [->| ->].
  - split; [by apply Hpre|]. split; [apply Hpre; by rewrite HDM|].
    split; [by apply Hlen|]. intros c Heq. unfold D, M in Heq.
    by apply data_metadata_apart in Heq.
  - split; [apply Hpre; by rewrite HDM|]. split; [by apply Hpre|].
    split; [|by apply Hlen]. intros c Heq. symmetry in Heq. unfold D, M in Heq.
    by apply data_metadata_apart in Heq.
Qed.

Lemma same_buckets_insert t q n :
  deep q → same_buckets t (<[q := n]> t).
Proof.
  intros (HD & HM & Hd & Hm)%deep_not_shallow.
  split; [by rewrite Lstat_insert_ne|]. split; [by rewrite Lstat_insert_ne|].
  split.
  - intros c. by rewrite lookup_insert_ne.
  - intros c d. by rewrite lookup_insert_ne.
Qed.

Lemma same_buckets_delete t q :
  deep q → same_buckets t (delete q t).
Proof.
  intros (HD & HM & Hd & Hm)%deep_not_shallow.
  split; [by rewrite Lstat_delete_ne|]. split; [by rewrite Lstat_delete_ne|].
  split.
  - intros c. by rewrite lookup_delete_ne.
  - intros c d. by rewrite lookup_delete_ne.
Qed.

(** MkdirAll keeps the buckets as they are unless it makes an entry of
    the data directory itself. *)
Lemma same_buckets_MkdirAll t p :
  (∀ c, (D ++ [c]) `prefix_of` p → is_Some (t !! (D ++ [c]))) →
  same_buckets t (Os.MkdirAll t p).1.
Proof.
  intros Hex. pose proof (MkdirAll_grows t p) as Hg.
  split; [by apply grows_Lstat|]. split; [by apply grows_Lstat|]. split.
  - intros c. destruct (MkdirAll_effect t p (D ++ [c]))
      as [->|(Hn & _ & Hpre & _)]; [done|].
    destruct (Hex c Hpre). congruence.
  - intros c d. split; [by apply grows_file_back|by apply grows_lookup].
Qed.

Lemma object_paths b k :
  valid_name b → clean_key k →
  ∃ ki c, Join (dataDir st) [b; k] = (D ++ b :: ki) ++ [c] ∧
          Join (dataDir st) [b; k +:+ ".json"] = (D ++ b :: ki) ++ [c +:+ ".json"] ∧
          Join (metadataDir st) [b; k +:+ ".json"]
          = (M ++ b :: ki) ++ [c +:+ ".json"].
Proof.
  intros Hb Hk.
  destruct (exists_last (split_slash_nonempty k)) as (ki & c & Hks).
  exists ki, c. simpl. fold D M.
  rewrite Join_object, !Join_object_json by done.
  rewrite Hks, add_ext_snoc. by rewrite <- !app_assoc.
Qed.

Lemma deep_snoc r b ki c : r = D ∨ r = M → deep ((r ++ b :: ki) ++ [c]).
Proof.
  intros Hr. destruct ki as [|y ki].
  - exists r, b, c, []. split; [done|]. by rewrite <- app_assoc.
  - exists r, b, y, (ki ++ [c]). split; [done|]. by rewrite <- app_assoc.
Qed.

(** PutObject into a bucket whose payload directory exists. *)
Lemma PutObject_same_buckets b k data ct w :
  valid_name b → clean_key k →
  Lstat (files w) (base ++ ["data"; b]) = inr Directory →
  Lstat (files w) D = inr Directory →
  same_buckets (files w) (files (PutObject st b k data ct w).2).
Proof.
  intros Hb Hk Hdir HD.
  replace (base ++ ["data"; b]) with (D ++ [b]) in Hdir
    by (unfold D; by rewrite <- app_assoc).
  apply Lstat_child in Hdir; [|done].
  destruct (object_paths b k Hb Hk) as (ki & c & Hop & _ & Hmp).
  assert (same_buckets (files w)
            (Os.MkdirAll (files w) (Dir (Join (dataDir st) [b; k]))).1) as H1.
  { apply same_buckets_MkdirAll. intros x Hx. rewrite Hop, Dir_snoc in Hx.
    apply prefix_app_inv, prefix_cons_inv_1 in Hx as ->. by rewrite Hdir. }
  assert (same_buckets (files w) (published st b k data (files w))) as H3.
  { eapply same_buckets_trans; [exact H1|]. unfold published.
    apply same_buckets_insert. rewrite Hop. apply deep_snoc. by left. }
  assert (same_buckets (files w) (prepared st b k data (files w))) as H4.
  { eapply same_buckets_trans; [exact H3|]. unfold prepared.
    apply same_buckets_MkdirAll. intros x Hx. rewrite Hmp, Dir_snoc in Hx.
    unfold D, M in Hx. rewrite <- (app_nil_r (base ++ ["metadata"])) in Hx.
    rewrite <- (app_assoc _ [] (b :: ki)) in Hx.
    by apply metadata_not_below_data in Hx. }
  destruct (PutObject st b k data ct w) as [r w'] eqn:E.
  apply PutObject_outcome in E. simpl.
  inversion E as [e w0 Hf|e w0 op Hok Hf|w0 op mp m Hok Hf]; subst;
    rewrite Hf; [done|done|].
  eapply same_buckets_trans; [exact H4|].
  apply same_buckets_insert. unfold mp. rewrite Hmp. apply deep_snoc. by right.
Qed.

(** DeleteObject. *)
Lemma DeleteObject_same_buckets b k w :
  valid_name b → clean_key k →
  same_buckets (files w) (files (DeleteObject st b k w).2).
Proof.
  intros Hb Hk.
  destruct (object_paths b k Hb Hk) as (ki & c & Hop & Hjp & _).
  assert (deep (Join (dataDir st) [b; k])) as Hd1
    by (rewrite Hop; apply deep_snoc; by left).
  assert (deep (Join (dataDir st) [b; k +:+ ".json"])) as Hd2
    by (rewrite Hjp; apply deep_snoc; by left).
  rewrite DeleteObject_unfold.
  set (op := Join (dataDir st) [b; k]) in *.
  set (jp := Join (dataDir st) [b; k +:+ ".json"]) in *.
  destruct (Os.Remove (files w) op) as [e|t1] eqn:E1.
  - destruct (Os.IsNotExist e); [|apply same_buckets_refl].
    destruct (Os.Remove (files w) jp) as [e'|t'] eqn:E2.
    + destruct (Os.IsNotExist e'); apply same_buckets_refl.
    + apply Remove_inr in E2 as ->. by apply same_buckets_delete.
  - apply Remove_inr in E1 as ->.
    destruct (Os.Remove _ jp) as [e'|t'] eqn:E2.
    + destruct (Os.IsNotExist e'); by apply same_buckets_delete.
    + apply Remove_inr in E2 as ->. simpl.
      eapply same_buckets_trans; by apply same_buckets_delete.
Qed.

(** CreateBucket, call by call. *)
Lemma CreateBucket_unfold (s : ObjectStorage) b w :
  let bd := Join (dataDir s) [b] in
  let mp := Join (metadataDir s) [b +:+ ".json"] in
  CreateBucket s b w =
  match Os.MkdirAll (files w) bd with
  | (t1, Some e) =>
      (Err (Errorf_w "failed to create Bucket" (PathError "mkdir" bd e)),
       set_files w t1)
  | (t1, None) =>
      let t2 := (Os.MkdirAll t1 (Dir mp)).1 in
      match Os.WriteFile t2 mp
              (MarshalBucket {| Name := b; Created := clock w |}) with
      | inl e =>
          (Err (PathError "open" mp e),
           {| files := t2; clock := (clock w + 1)%Z; rand := rand w |})
      | inr t3 =>
          (Ok (), {| files := t3; clock := (clock w + 1)%Z; rand := rand w |})
      end
  end.
Proof.
  intros bd mp.
  unfold CreateBucket, saveBucketMetaData, mbind, IO_bind, wrap, try, time_Now.
  unfold Engine.MkdirAll at 1. fold bd.
  destruct (Os.MkdirAll (files w) bd) as [t1 [e|]]; [done|]. simpl.
  unfold Engine.MkdirAll. simpl. fold mp.
  destruct (Os.MkdirAll t1 (Dir mp)) as [t2 e2]. simpl.
  unfold Engine.WriteFile, update. simpl.
  by destruct (Os.WriteFile t2 mp _).
Qed.

Lemma append_json_inj (a b : string) : a +:+ ".json" = b +:+ ".json" → a = b.
Proof.
  revert b. induction a as [|x a IH]; intros [|y b] Heq; simpl in Heq.
  - done.
  - apply (f_equal String.length) in Heq. simpl in Heq.
    rewrite length_append in Heq. simpl in Heq. lia.
  - apply (f_equal String.length) in Heq. simpl in Heq.
    rewrite length_append in Heq. simpl in Heq. lia.
  - injection Heq as -> Heq. f_equal. by apply IH.
Qed.

(** A CreateBucket that succeeds leaves the bucket with both its payload
    directory and its record, and the other buckets as they were. *)
Lemma CreateBucket_invariant b w w' :
  valid_name b → store_invariant (files w) →
  CreateBucket st b w = (Ok (), w') →
  store_invariant (files w').
Proof.
  intros Hb (HD & HM & Hp). fold D M in HD, HM.
  rewrite CreateBucket_unfold. simpl. fold D M.
  rewrite Join_bucket, Join_bucket_json, Dir_snoc by done.
  destruct (Os.MkdirAll (files w) (D ++ [b])) as [t1 [e|]] eqn:E1; [done|].
  pose proof (MkdirAll_ok _ _ _ E1) as Hbd.
  pose proof (MkdirAll_grows (files w) (D ++ [b])) as Hg1.
  pose proof (MkdirAll_effect (files w) (D ++ [b])) as Heff1.
  rewrite E1 in Hg1, Heff1. simpl in Hg1, Heff1.
  pose proof (MkdirAll_grows t1 M) as Hg2.
  pose proof (MkdirAll_effect t1 M) as Heff2.
  set (t2 := (Os.MkdirAll t1 M).1) in *.
  destruct (Os.WriteFile t2 _ _) as [e|t3] eqn:E3; [done|].
  intros [= <-]. simpl.
  apply WriteFile_inr in E3 as (_ & _ & _ & ->).
  assert (Lstat t2 D = inr Directory) as HD2 by eauto using grows_Lstat.
  assert (Lstat t2 M = inr Directory) as HM2 by eauto using grows_Lstat.
  assert (∀ c, ¬ (M ++ [c]) `prefix_of` D) as HnD.
  { intros c. unfold D, M. rewrite <- (app_nil_r (base ++ ["data"])).
    apply data_not_below_metadata. }
  split; [|split].
  - fold D. by rewrite Lstat_insert_ne.
  - fold M. rewrite Lstat_insert_ne; [done|apply not_prefix_snoc].
  - intros name Hn. specialize (Hp name Hn).
    replace (base ++ ["data"; name]) with (D ++ [name]) in *
      by (unfold D; by rewrite <- app_assoc).
    replace (base ++ ["metadata"; name +:+ ".json"])
      with (M ++ [name +:+ ".json"]) in *
      by (unfold M; by rewrite <- app_assoc).
    rewrite Lstat_insert_ne.
    2:{ unfold D, M. apply data_not_below_metadata. }
    destruct (decide (name = b)) as [->|Hne].
    + split; intros _.
      * eexists. apply Lstat_insert_child. done.
      * eapply grows_Lstat; [exact Hg2|]. done.
    + assert (t2 !! (D ++ [name]) = files w !! (D ++ [name])) as Hsame.
      { destruct (Heff2 (D ++ [name])) as [->|(_ & _ & Hpre & _)].
        - destruct (Heff1 (D ++ [name])) as [->|(_ & _ & Hpre & _)]; [done|].
          apply prefix_app_inv, prefix_cons_inv_1 in Hpre. done.
        - unfold D, M in Hpre. rewrite <- (app_nil_r (base ++ ["metadata"])) in Hpre.
          by apply metadata_not_below_data in Hpre. }
      assert (∀ d, t2 !! (M ++ [name +:+ ".json"]) = Some (RegFile d)
                   ↔ files w !! (M ++ [name +:+ ".json"]) = Some (RegFile d))
        as Hrec.
      { intros d. split.
        - intros Hd. by apply (grows_file_back _ _ _ _ Hg1), (grows_file_back _ _ _ _ Hg2).
        - intros Hd. by apply (grows_lookup _ _ _ _ Hg2), (grows_lookup _ _ _ _ Hg1). }
      assert (Lstat t2 (D ++ [name]) = inr Directory
              ↔ Lstat (files w) (D ++ [name]) = inr Directory) as Ha.
      { rewrite !Lstat_child by done. by rewrite Hsame. }
      assert (∀ d, Lstat (<[M ++ [b +:+ ".json"] :=
                     RegFile (MarshalBucket {| Name := b; Created := clock w |})]> t2)
                     (M ++ [name +:+ ".json"]) = inr (RegFile d)
                   ↔ Lstat (files w) (M ++ [name +:+ ".json"]) = inr (RegFile d))
        as Hb'.
      { intros d. rewrite !Lstat_child; [|done|].
        2:{ rewrite Lstat_insert_ne; [done|apply not_prefix_snoc]. }
        rewrite lookup_insert_ne; [by apply Hrec|].
        intros Heq%app_inv_head. injection Heq as Heq.
        apply append_json_inj in Heq. congruence. }
      rewrite Ha, Hp. split; intros [d Hd]; exists d; by apply Hb'.
Qed.

(** The calls that only read. *)
Lemma GetObject_world (s : ObjectStorage) b k w : (GetObject s b k w).2 = w.
Proof.
  rewrite GetObject_unfold.
  destruct (Lstat _ _) as [[]|n]; try done.
  destruct (Os.ReadFile _ _) as [e|d]; [done|].
  by destruct (UnmarshalObject d).
Qed.

Lemma ListObjects_world (s : ObjectStorage) b w : (ListObjects s b w).2 = w.
Proof.
  unfold ListObjects. destruct (Walk _ _ _ _) as [objects [e|]]; done.
Qed.

Lemma ListBuckets_files (s : ObjectStorage) w :
  files (ListBuckets s w).2 = files w.
Proof.
  unfold ListBuckets, mbind, IO_bind, wrap, Engine.ReadDir, lift.
  destruct (Os.ReadDir _ _) as [e|es]; [done|].
  destruct (ListBuckets_loop_spec s es [] w) as (l & w' & -> & Hf & _).
  done.
Qed.

(** The calls of the engine, and the world each leaves. *)
Inductive call :=
| CallCreateBucket (b : string)
| CallPutObject (b k : string) (data : Reader) (ct : string)
| CallGetObject (b k : string)
| CallDeleteObject (b k : string)
| CallListBuckets
| CallListObjects (b : string).

Definition after (c : call) (w : World) : World :=
  match c with
  | CallCreateBucket b => (CreateBucket st b w).2
  | CallPutObject b k data ct => (PutObject st b k data ct w).2
  | CallGetObject b k => (GetObject st b k w).2
  | CallDeleteObject b k => (DeleteObject st b k w).2
  | CallListBuckets => (ListBuckets st w).2
  | CallListObjects b => (ListObjects st b w).2
  end.

(** The calls under which the invariant is kept: bucket names of one
    component and clean keys; a CreateBucket that succeeds; a PutObject
    into a bucket whose payload directory exists. *)
Definition keeps_pairs (c : call) (w : World) : Prop :=
  match c with
  | CallCreateBucket b => valid_name b ∧ (CreateBucket st b w).1 = Ok ()
  | CallPutObject b k _ _ =>
      valid_name b ∧ clean_key k ∧
      Lstat (files w) (base ++ ["data"; b]) = inr Directory
  | CallDeleteObject b k => valid_name b ∧ clean_key k
  | CallGetObject _ _ | CallListBuckets | CallListObjects _ => True
  end.

Fixpoint run (cs : list call) (w : World) : World :=
  match cs with
  | [] => w
  | c :: cs' => run cs' (after c w)
  end.

Fixpoint all_keep_pairs (cs : list call) (w : World) : Prop :=
  match cs with
  | [] => True
  | c :: cs' => keeps_pairs c w ∧ all_keep_pairs cs' (after c w)
  end.

Lemma after_invariant c w :
  store_invariant (files w) → keeps_pairs c w →
  store_invariant (files (after c w)).
Proof.
  intros Hinv Hc. destruct c as [b|b k data ct|b k|b k| |b]; simpl in *.
  - destruct Hc as [Hb Hok].
    destruct (CreateBucket st b w) as [r w'] eqn:E. simpl in *. subst r.
    by eapply CreateBucket_invariant.
  - destruct Hc as (Hb & Hk & Hdir).
    eapply store_invariant_same; [|exact Hinv].
    apply PutObject_same_buckets; try done. by destruct Hinv.
  - by rewrite GetObject_world.
  - destruct Hc as (Hb & Hk).
    eapply store_invariant_same; [|exact Hinv].
    by apply DeleteObject_same_buckets.
  - by rewrite ListBuckets_files.
  - by rewrite ListObjects_world.
Qed.

(** The empty store: what NewObjectStorage leaves below a base directory
    in which nothing is. *)
Lemma empty_store_invariant w :
  files w = ∅ →
  store_invariant
    (files (run [] (Engine.MkdirAll M (Engine.MkdirAll D w).2).2)).
Proof.
  intros Hw. simpl. unfold Engine.MkdirAll.
  destruct (MkdirAll_succeeds (files w) D) as [t1 E1].
  { intros q d _ _. by rewrite Hw, lookup_empty. }
  rewrite E1. simpl.
  pose proof (MkdirAll_grows (files w) D) as Hg1.
  pose proof (MkdirAll_effect (files w) D) as Heff1.
  rewrite E1 in Hg1, Heff1. simpl in Hg1, Heff1.
  destruct (MkdirAll_succeeds t1 M) as [t2 E2].
  { intros q d _ _ Hq. apply (grows_file_back _ _ _ _ Hg1) in Hq.
    by rewrite Hw, lookup_empty in Hq. }
  rewrite E2. simpl.
  pose proof (MkdirAll_grows t1 M) as Hg2.
  pose proof (MkdirAll_effect t1 M) as Heff2.
  rewrite E2 in Hg2, Heff2. simpl in Hg2, Heff2.
  assert (Lstat t2 D = inr Directory) as HD
    by (eapply grows_Lstat; [exact Hg2|]; by eapply MkdirAll_ok).
  assert (Lstat t2 M = inr Directory) as HM by by eapply MkdirAll_ok.
  split; [done|]. split; [done|].
  intros name Hn.
  replace (base ++ ["data"; name]) with (D ++ [name])
    by (unfold D; by rewrite <- app_assoc).
  replace (base ++ ["metadata"; name +:+ ".json"])
    with (M ++ [name +:+ ".json"])
    by (unfold M; by rewrite <- app_assoc).
  rewrite Lstat_child by done.
  assert (t2 !! (D ++ [name]) = None) as ->.
  { destruct (Heff2 (D ++ [name])) as [->|(_ & _ & Hpre & _)].
    - destruct (Heff1 (D ++ [name])) as [->|(_ & _ & Hpre & _)].
      + by rewrite Hw, lookup_empty.
      + by apply not_prefix_snoc in Hpre.
    - unfold D, M in Hpre. rewrite <- (app_nil_r (base ++ ["metadata"])) in Hpre.
      by apply metadata_not_below_data in Hpre. }
  split; [done|]. intros [d Hd]. apply Lstat_child in Hd; [|done].
  apply (grows_file_back _ _ _ _ Hg2), (grows_file_back _ _ _ _ Hg1) in Hd.
  by rewrite Hw, lookup_empty in Hd.
Qed.

Lemma buckets_paired_run w cs :
  store_invariant (files w) → all_keep_pairs cs w →
  buckets_paired (files (run cs w)).
Proof.
  revert w. induction cs as [|c cs IH]; intros w Hinv Hcs.
  - by destruct Hinv as (_ & _ & ?).
  - destruct Hcs as [Hc Hcs]. simpl. apply IH; [|done].
    by apply after_invariant.
Qed.

(** C4 as stated, for PutObject: the call leaves the buckets paired. *)
Definition put_keeps_buckets_paired b k data ct w : Prop :=
  buckets_paired (files w) →
  buckets_paired (files (PutObject st b k data ct w).2).

End Buckets.

Lemma NewObjectStorage_world `{JSON} baseDir w :
  (NewObjectStorage baseDir w).2 =
  (Engine.MkdirAll (Join [] [baseDir] ++ ["metadata"])
     (Engine.MkdirAll (Join [] [baseDir] ++ ["data"]) w).2).2.
Proof.
  unfold NewObjectStorage, mbind, IO_bind, try, mret, IO_ret.
  assert (Join [] [baseDir; "data"] = Join [] [baseDir] ++ ["data"]) as ->.
  { unfold Join. simpl. rewrite !app_nil_r. by rewrite clean_onto_snoc. }
  assert (Join [] [baseDir; "metadata"] = Join [] [baseDir] ++ ["metadata"]) as ->.
  { unfold Join. simpl. rewrite !app_nil_r. by rewrite clean_onto_snoc. }
  destruct (Engine.MkdirAll _ w) as [r1 w1]. simpl.
  by destruct (Engine.MkdirAll _ w1) as [r2 w2].
Qed.

(** C4, as the code has it: starting from the empty store, after any
    sequence of calls of the engine in which every CreateBucket succeeds
    and every PutObject goes into a bucket whose payload directory exists
    (bucket names of one component, clean keys), a bucket has its payload
    directory exactly when it has its metadata record. *)
Theorem buckets_paired_from_empty_store `{JSON} baseDir w cs :
  files w = ∅ →
  let base := Join [] [baseDir] in
  let w0 := (NewObjectStorage baseDir w).2 in
  all_keep_pairs base cs w0 →
  buckets_paired base (files (run base cs w0)).
Proof.
  intros Hw base w0 Hcs. apply buckets_paired_run; [|done].
  unfold w0. rewrite NewObjectStorage_world.
  by apply (empty_store_invariant base w).
Qed.

(** ** Listing the objects of a bucket *)

Section Listing.
Import Os.
Context `{JSON}.
Variable base : path.
Variable b : string.
Hypothesis b_valid : valid_name b.
Implicit Types (t : tree) (p q : path) (w : World) (k : string).
Implicit Types (m : ObjectMetadata).

Let D : path := base ++ ["data"].
Let M : path := base ++ ["metadata"].
Let st : ObjectStorage := storage_at base.

(** Where the payload and the record of key [k] are. *)
Definition obj_path k : path := (D ++ [b]) ++ split_slash k.
Definition meta_path k : path := (M ++ [b]) ++ add_ext ".json" (split_slash k).

Lemma Join_obj_path k : clean_key k → Join (dataDir st) [b; k] = obj_path k.
Proof.
  intros Hk. simpl. rewrite Join_object by done.
  unfold obj_path, D. by rewrite <- !app_assoc.
Qed.

Lemma Join_meta_path k :
  clean_key k → Join (metadataDir st) [b; k +:+ ".json"] = meta_path k.
Proof.
  intros Hk. simpl. rewrite Join_object_json by done.
  unfold meta_path, M. by rewrite <- !app_assoc.
Qed.

Lemma obj_path_inj k k' : obj_path k = obj_path k' → k = k'.
Proof.
  intros Heq%app_inv_head.
  by rewrite <- (concat_split_slash k), <- (concat_split_slash k'), Heq.
Qed.

Lemma meta_path_inj k k' : meta_path k = meta_path k' → k = k'.
Proof.
  intros Heq%app_inv_head. rewrite <- !split_slash_ext in Heq by done.
  apply append_json_inj.
  by rewrite <- (concat_split_slash (k +:+ _)),
             <- (concat_split_slash (k' +:+ _)), Heq.
Qed.

Lemma obj_meta_apart k k' : obj_path k ≠ meta_path k'.
Proof.
  unfold obj_path, meta_path, D, M. rewrite <- !(app_assoc _ [b]).
  apply data_metadata_apart.
Qed.


Lemma meta_not_below_bucket q k : (D ++ [b]) `prefix_of` q → q ≠ meta_path k.
Proof.
  intros [x ->]. unfold meta_path, D, M. rewrite <- !(app_assoc _ [b]).
  apply data_metadata_apart.
Qed.

Lemma obj_path_below k : (D ++ [b]) `prefix_of` obj_path k ∧ obj_path k ≠ D ++ [b].
Proof.
  split; [by apply prefix_app_r|]. unfold obj_path.
  rewrite <- (app_nil_r (D ++ [b])) at 2. intros Heq%app_inv_head.
  by apply split_slash_nonempty in Heq.
Qed.


Lemma obj_path_nonempty k : obj_path k ≠ [].
Proof.
  unfold obj_path. intros [Heq _]%app_eq_nil.
  by apply app_eq_nil in Heq as [_ ?].
Qed.

Lemma Rel_obj_path k : Rel (D ++ [b]) (obj_path k) = Some k.
Proof. unfold obj_path. by rewrite Rel_below, path_string_split. Qed.

(** What loadObjectMetadata answers for a clean key. *)
Lemma loadObjectMetadata_unfold k w :
  (loadObjectMetadata st b k w).1 =
  match Os.ReadFile (files w) (Join (metadataDir st) [b; k +:+ ".json"]) with
  | inl e => Err (PathError "open" (Join (metadataDir st) [b; k +:+ ".json"]) e)
  | inr d =>
      match UnmarshalObject d with
      | None => Err SyntaxError
      | Some m => Ok m
      end
  end.
Proof.
  unfold loadObjectMetadata, mbind, IO_bind, mret, IO_ret, fail.
  unfold Engine.ReadFile, lift.
  destruct (Os.ReadFile _ _) as [e|d]; simpl; [done|].
  by destruct (UnmarshalObject d).
Qed.

(** The metadata the walk of ListObjects collects at one entry. *)
Definition collected w (e : path * node) : option ObjectMetadata :=
  match e.2 with
  | Directory => None
  | RegFile _ =>
      match Rel (D ++ [b]) e.1 with
      | None => None
      | Some relPath =>
          match (loadObjectMetadata st b relPath w).1 with
          | Ok m => Some m
          | Err _ => None
          end
      end
  end.

Lemma ListObjects_visit_collected w objects (e : path * node) :
  (D ++ [b]) `prefix_of` e.1 →
  ListObjects_visit st b (D ++ [b]) w objects e.1 (inr e.2)
  = (objects ++ option_list (collected w e), None).
Proof.
  destruct e as [p n]. simpl. intros [x ->].
  unfold ListObjects_visit, collected. simpl.
  destruct n as [d|]; simpl; [|by rewrite app_nil_r].
  rewrite Rel_below.
  destruct (loadObjectMetadata st b (path_string x) w).1; simpl; [done|].
  by rewrite app_nil_r.
Qed.

Lemma walk_collects w (L : list (path * node)) (objects : list ObjectMetadata) :
  Forall (λ e, (D ++ [b]) `prefix_of` e.1) L →
  foldl (visit_next (ListObjects_visit st b (D ++ [b]) w)) (objects, None) L
  = (objects ++ omap (collected w) L, None).
Proof.
  intros HL. revert objects.
  induction HL as [|e L He _ IH]; intros objects.
  - simpl. by rewrite app_nil_r.
  - change (foldl ?f ?a (e :: L)) with (foldl f (f a e) L).
    unfold visit_next at 2. cbn [fst snd].
    rewrite ListObjects_visit_collected by done. rewrite IH.
    rewrite <- app_assoc. cbn [omap list_omap].
    by destruct (collected w e).
Qed.


(** No regular file lies below the payload directory of the bucket. *)
Definition bucket_empty t : Prop :=
  map_Forall (λ q n, (base ++ ["data"; b]) `prefix_of` q → IsDir n = true) t.

#[global] Instance bucket_empty_dec t : Decision (bucket_empty t).
Proof. unfold bucket_empty. apply _. Defined.

(** The objects of the bucket as a tree holds them: every listed object
    has its payload and its record in place, and every regular file below
    the payload directory of the bucket is the payload of a listed
    object. *)
Abbreviation stored := (string * list byte * ObjectMetadata)%type.

Definition holds t (objs : list stored) : Prop :=
  (∀ k d m, (k, d, m) ∈ objs →
     Key m = k ∧ Lstat t (obj_path k) = inr (RegFile d) ∧
     Lstat t (meta_path k) = inr (RegFile (MarshalObject m))) ∧
  (∀ q d, (D ++ [b]) `prefix_of` q → t !! q = Some (RegFile d) →
     ∃ k d' m, (k, d', m) ∈ objs ∧ q = obj_path k).

Definition keys_of (objs : list stored) : list string := (λ o, o.1.1) <$> objs.

(** A successful put of a new clean key adds its object and keeps the
    others. *)
Lemma PutObject_holds objs k data ct w m w' :
  clean_key k → k ∉ keys_of objs →
  holds (files w) objs →
  PutObject st b k data ct w = (Ok m, w') →
  holds (files w') (objs ++ [(k, reader_bytes data, m)]).
Proof.
  intros Hk Hnew [Hobjs Hfiles] Hput.
  destruct (PutObject_Ok_inv _ _ _ _ _ _ _ _ Hput)
    as (Hm & _ & Hf & _ & HL & Hop & Hnd & Hmp & Hmd & Hmnd).
  rewrite Join_obj_path, Join_meta_path in * by done.
  pose proof (MkdirAll_grows (files w) (Dir (obj_path k))) as Hg1.
  pose proof (MkdirAll_grows (published st b k data (files w))
                (Dir (meta_path k))) as Hg2.
  assert (prepared st b k data (files w)
          = (Os.MkdirAll (published st b k data (files w))
               (Dir (meta_path k))).1) as Hprep
    by (unfold prepared; by rewrite Join_meta_path).
  assert (published st b k data (files w)
          = <[obj_path k := RegFile (reader_bytes data)]>
              (Os.MkdirAll (files w) (Dir (obj_path k))).1) as Hpub
    by (unfold published; by rewrite Join_obj_path).
  rewrite <- Hprep in Hg2.
  assert (∀ p n, Lstat (files w) p = inr n → p ≠ obj_path k → p ≠ meta_path k →
                 Lstat (files w') p = inr n) as Hkeep.
  { intros p n Hp Hne1 Hne2. rewrite Hf.
    apply Lstat_insert_other; [|done..].
    apply (grows_Lstat _ _ _ _ Hg2). rewrite Hpub.
    apply Lstat_insert_other; [|done..].
    by apply (grows_Lstat _ _ _ _ Hg1). }
  split.
  - intros k0 d0 m0 [Hin|Hin%list_elem_of_singleton]%elem_of_app.
    + destruct (Hobjs k0 d0 m0 Hin) as (HK & Ho & Hr).
      assert (k0 ≠ k) as Hne.
      { intros ->. apply Hnew. unfold keys_of.
        apply list_elem_of_fmap. by exists (k, d0, m0). }
      split; [done|]. split; apply Hkeep; try done.
      * intros Heq%obj_path_inj. done.
      * apply obj_meta_apart.
      * intros Heq. symmetry in Heq. by apply obj_meta_apart in Heq.
      * intros Heq%meta_path_inj. done.
    + injection Hin as -> -> ->. split; [by rewrite Hm|]. rewrite Hf. split.
      * eapply put_done_payload; [exact HL|done..|apply obj_meta_apart].
      * by apply put_done_metadata.
  - intros q d Hq Hd. rewrite Hf in Hd.
    rewrite lookup_insert_ne in Hd
      by (intros Heq; symmetry in Heq; by apply meta_not_below_bucket in Heq).
    apply (grows_file_back _ _ _ _ Hg2) in Hd. rewrite Hpub in Hd.
    destruct (decide (q = obj_path k)) as [->|Hne].
    + exists k, (reader_bytes data), m. split; [|done].
      apply elem_of_app. right. by apply list_elem_of_singleton.
    + rewrite lookup_insert_ne in Hd by done.
      apply (grows_file_back _ _ _ _ Hg1) in Hd.
      destruct (Hfiles q d Hq Hd) as (k0 & d0 & m0 & Hin & ->).
      exists k0, d0, m0. split; [|done]. apply elem_of_app. by left.
Qed.

(** A sequence of puts into the bucket, each of which succeeds. *)
Abbreviation put := (string * Reader * string)%type.

Fixpoint put_all (puts : list put) (w : World)
  : option (list ObjectMetadata * World) :=
  match puts with
  | [] => Some ([], w)
  | (k, data, ct) :: rest =>
      match PutObject st b k data ct w with
      | (Ok m, w') =>
          match put_all rest w' with
          | Some (ms, w'') => Some (m :: ms, w'')
          | None => None
          end
      | (Err _, _) => None
      end
  end.

Definition put_keys (puts : list put) : list string := (λ x, x.1.1) <$> puts.

Definition stored_of (puts : list put) (ms : list ObjectMetadata) : list stored :=
  zip_with (λ x m, (x.1.1, reader_bytes x.1.2, m)) puts ms.

Lemma put_all_holds puts objs w ms w' :
  Forall clean_key (put_keys puts) →
  NoDup (keys_of objs ++ put_keys puts) →
  holds (files w) objs →
  put_all puts w = Some (ms, w') →
  holds (files w') (objs ++ stored_of puts ms) ∧ length ms = length puts.
Proof.
  revert objs w ms. induction puts as [|[[k data] ct] puts IH];
    intros objs w ms Hclean Hnd Hholds Hrun; simpl in *.
  - injection Hrun as <- <-. by rewrite app_nil_r.
  - destruct (PutObject st b k data ct w) as [[m|e] w1] eqn:E; [|done].
    destruct (put_all puts w1) as [[ms1 w2]|] eqn:E2; [|done].
    injection Hrun as <- <-.
    apply Forall_cons in Hclean as [Hk Hclean].
    apply NoDup_app in Hnd as (Hnd1 & Hdisj & Hnd2).
    apply NoDup_cons in Hnd2 as [Hk2 Hnd2].
    assert (k ∉ keys_of objs) as Hnew.
    { intros Hin. apply (Hdisj k Hin). by left. }
    pose proof (PutObject_holds objs k data ct w m w1 Hk Hnew Hholds E) as H1.
    destruct (IH (objs ++ [(k, reader_bytes data, m)]) w1 ms1 Hclean) as [H2 Hlen];
      [|done|done|].
    + unfold keys_of. rewrite fmap_app. simpl. rewrite <- app_assoc. simpl.
      apply NoDup_app. split; [done|]. split.
      * intros x Hx [->|Hin]%elem_of_cons.
        -- by apply Hnew.
        -- apply (Hdisj x Hx). by right.
      * by apply NoDup_cons.
    + split; [|simpl; by rewrite Hlen]. simpl. by rewrite <- app_assoc in H2.
Qed.


Lemma NoDup_omap {A B} (f : A → option B) (l : list A) :
  NoDup l →
  (∀ x y z, x ∈ l → y ∈ l → f x = Some z → f y = Some z → x = y) →
  NoDup (omap f l).
Proof.
  induction 1 as [|x l Hx Hl IH]; intros Hinj; simpl; [constructor|].
  assert (NoDup (omap f l)) as IH'.
  { apply IH. intros x' y' z Hx' Hy'. apply Hinj; by right. }
  destruct (f x) as [z|] eqn:E; [|done].
  constructor; [|done]. intros (y & Hy & Hfy)%list_elem_of_omap.
  assert (x = y) as -> by (eapply Hinj; [by left|by right|done..]).
  done.
Qed.


Lemma keys_of_stored (puts : list put) (ms : list ObjectMetadata) :
  length ms = length puts → keys_of (stored_of puts ms) = put_keys puts.
Proof.
  revert ms. induction puts as [|x puts IH]; intros [|m ms] Hlen;
    simpl in *; try done.
  unfold keys_of, put_keys in *. simpl. f_equal. apply IH. lia.
Qed.

Lemma snd_stored (puts : list put) (ms : list ObjectMetadata) :
  length ms = length puts → (λ o : stored, o.2) <$> stored_of puts ms = ms.
Proof.
  revert ms. induction puts as [|x puts IH]; intros [|m ms] Hlen;
    simpl in *; try done.
  f_equal. apply IH. lia.
Qed.



End Listing.

(** ** The departures, on concrete runs *)

(** C1: DeleteObject succeeds and the payload is gone, but the metadata
    record of the object is still in place: the second removal asks for
    data/photos/a.txt.json, not metadata/photos/a.txt.json. *)
Theorem DeleteObject_leaves_metadata_record :
  DeleteObject Scenario.st "photos" "a.txt" Scenario.w2 = (Ok (), Scenario.w3) ∧
  Os.Lstat (files Scenario.w3) ["storage"; "data"; "photos"; "a.txt"]
    = inl Os.ENOENT ∧
  Os.ReadFile (files Scenario.w3)
    ["storage"; "metadata"; "photos"; "a.txt.json"]
    = inr (MarshalObject Scenario.a_txt).
Proof. split; [by_computation|]. split; by_computation. Qed.

(** C6: with an object under key "2024/a.txt", the key "2024" has no
    payload file (a directory is there), and GetObject does not answer
    NotFound but an error of loading the metadata. *)
Lemma GetObject_of_directory :
  ¬ NotFound_iff_no_payload_file Scenario.st "photos" "2024" Scenario.w_nested.
Proof.
  intros [_ Hclaim].
  assert ((GetObject Scenario.st "photos" "2024" Scenario.w_nested).1
          = Err (Errorf "object not found")) as Hnf.
  { apply Hclaim. intros [d Hd]. vm_compute in Hd. discriminate. }
  vm_compute in Hnf. discriminate.
Qed.

(** C2: bucket "y" exists, so metadata/y.json is a regular file; a put
    into bucket "y.json" publishes its payload and then fails to save the
    metadata record below metadata/y.json. *)
Lemma failed_put_publishes_payload :
  ¬ failed_put_shows_no_new_payload Scenario.st "y.json" "k" Scenario.hello
      "text/plain" Scenario.w_y.
Proof.
  intros Hclaim.
  specialize (Hclaim
    (Errorf_w "failed to save metadata"
       (PathError "open" ["storage"; "metadata"; "y.json"; "k.json"] Os.ENOTDIR))
    Scenario.w_y_put).
  assert (Os.Lstat (files Scenario.w_y) (Join (dataDir Scenario.st) ["y.json"; "k"])
          = inr (Os.RegFile (bytes "hello"))) as Hbefore.
  { apply Hclaim; by_computation. }
  vm_compute in Hbefore. discriminate.
Qed.

(** C4: from the empty store, PutObject into bucket "music", which was
    never created, makes data/music and no metadata/music.json. *)
Lemma PutObject_breaks_pairing :
  ¬ put_keeps_buckets_paired ["storage"] "music" "song.mp3" Scenario.hello
      "audio/mpeg" Scenario.w0.
Proof.
  intros Hclaim.
  assert (buckets_paired ["storage"] (files Scenario.w0)) as Hpaired.
  { unfold Scenario.w0. rewrite NewObjectStorage_world.
    by apply (empty_store_invariant ["storage"]). }
  apply Hclaim in Hpaired.
  destruct (Hpaired "music") as [Hrecord _].
  { by_computation. }
  destruct Hrecord as [d Hd]; [by_computation|].
  vm_compute in Hd. discriminate.
Qed.

(** C3: bucket "music" has a payload directory and no metadata record;
    ListBuckets lists it all the same, with the time of the call. *)
Lemma ListBuckets_fabricates_entry :
  ¬ unreadable_buckets_omitted Scenario.st Scenario.w_music.
Proof.
  intros Hclaim.
  apply (Hclaim [{| Name := "music"; Created := clock Scenario.w_music |}]
           (ListBuckets Scenario.st Scenario.w_music).2 "music" Os.ENOENT
           {| Name := "music"; Created := clock Scenario.w_music |}).
  - by_computation.
  - by_computation.
  - apply list_elem_of_singleton. reflexivity.
  - reflexivity.
Qed.

(** C10: the put with the empty key into bucket "b", which was never
    created, leaves its payload as the regular file data/b; the bucket
    has no payload directory, and ListObjects answers with an empty list
    and no error. *)
Lemma ListObjects_of_payload_at_bucket_path :
  ¬ no_directory_is_an_error Scenario.st "b" Scenario.w_flat.
Proof.
  intros Hclaim. destruct Hclaim as [e He].
  - intros Hdir. vm_compute in Hdir. discriminate.
  - vm_compute in He. discriminate.
Qed.

(** C9: bucket "y" exists, so metadata/y.json is a regular file; bucket
    "y.json" was never created and has neither a payload directory nor a
    record (metadata/y.json.json), and yet the put into it fails. *)
Lemma PutObject_into_absent_bucket_fails :
  ¬ put_into_absent_bucket_succeeds Scenario.st "y.json" "k" Scenario.hello
      "text/plain" Scenario.w_y.
Proof.
  intros Hclaim. destruct Hclaim as (m & w' & Hput).
  - by_computation.
  - by_computation.
  - vm_compute in Hput. discriminate.
Qed.



(** ** The theorems, on concrete runs *)

Lemma PutObject_size_and_etag_witness :
  PutObject (storage_at ["storage"]) "photos" "a.txt" Scenario.hello
    "text/plain" Scenario.w1 = (Ok Scenario.a_txt, Scenario.w2) ∧
  ∃ written,
    Os.Lstat (files Scenario.w2)
      (Join (dataDir (storage_at ["storage"])) ["photos"; "a.txt"])
      = inr (Os.RegFile written) ∧
    written = reader_bytes Scenario.hello ∧
    Size Scenario.a_txt = Z.of_nat (length written) ∧
    ETag Scenario.a_txt = Hex.EncodeToString (MD5.Sum written) ∧
    lower_hex (ETag Scenario.a_txt) ∧
    String.length (ETag Scenario.a_txt) = 32.
Proof.
  split; [by_computation|].
  apply (PutObject_size_and_etag ["storage"] "photos" "a.txt" Scenario.hello
           "text/plain" Scenario.w1 Scenario.a_txt Scenario.w2).
  by_computation.
Defined.

Lemma put_get_round_trip_witness :
  PutObject (storage_at ["storage"]) "photos" "a.txt" Scenario.hello
    "text/plain" Scenario.w1 = (Ok Scenario.a_txt, Scenario.w2) ∧
  (GetObject (storage_at ["storage"]) "photos" "a.txt" Scenario.w2
     = (Ok (Os.RegFile (reader_bytes Scenario.hello), Scenario.a_txt),
        Scenario.w2) ∧
   ETag Scenario.a_txt
     = Hex.EncodeToString (MD5.Sum (reader_bytes Scenario.hello))).
Proof.
  split; [by_computation|].
  apply (put_get_round_trip ["storage"] "photos" "a.txt" Scenario.hello
           "text/plain" Scenario.w1 Scenario.a_txt Scenario.w2).
  by_computation.
Defined.

Lemma ListObjects_missing_bucket_witness :
  (Os.Lstat (files Scenario.w2) (Join (dataDir Scenario.st) ["music"])
     = inl Os.ENOENT ∧
   ListObjects Scenario.st "music" Scenario.w2
     = (Err (PathError "lstat" (Join (dataDir Scenario.st) ["music"])
               Os.ENOENT),
        Scenario.w2)) ∧
  (Os.Lstat (files Scenario.w_flat) (Join (dataDir Scenario.st) ["b"])
     = inr (Os.RegFile (bytes "hello")) ∧
   ∃ l, ListObjects Scenario.st "b" Scenario.w_flat = (Ok l, Scenario.w_flat) ∧
        (length l ≤ 1)%nat ∧
        (∀ e, Os.ReadFile (files Scenario.w_flat)
                (Join (metadataDir Scenario.st) ["b"; "..json"]) = inl e →
              l = [])).
Proof.
  assert (Os.Lstat (files Scenario.w2) (Join (dataDir Scenario.st) ["music"])
          = inl Os.ENOENT) as H1 by by_computation.
  assert (Os.Lstat (files Scenario.w_flat) (Join (dataDir Scenario.st) ["b"])
          = inr (Os.RegFile (bytes "hello"))) as H2 by by_computation.
  split.
  - split; [exact H1|].
    exact (proj1 (ListObjects_missing_bucket Scenario.st "music" Scenario.w2)
             Os.ENOENT H1).
  - split; [exact H2|].
    exact (proj2 (ListObjects_missing_bucket Scenario.st "b" Scenario.w_flat)
             (bytes "hello") H2).
Defined.

Definition w_y_error : error :=
  Errorf_w "failed to save metadata"
    (PathError "open" ["storage"; "metadata"; "y.json"; "k.json"] Os.ENOTDIR).

Lemma PutObject_failure_witness :
  well_formed (files Scenario.w_y) ∧
  PutObject Scenario.st "y.json" "k" Scenario.hello "text/plain" Scenario.w_y
    = (Err w_y_error, Scenario.w_y_put) ∧
  (let op := Join (dataDir Scenario.st) ["y.json"; "k"] in
   (∀ p d, p ≠ op →
      Os.Lstat (files Scenario.w_y_put) p = inr (Os.RegFile d)
      ↔ Os.Lstat (files Scenario.w_y) p = inr (Os.RegFile d)) ∧
   ((∀ c, w_y_error ≠ Errorf_w "failed to save metadata" c) →
    ∀ d, Os.Lstat (files Scenario.w_y_put) op = inr (Os.RegFile d)
         ↔ Os.Lstat (files Scenario.w_y) op = inr (Os.RegFile d)) ∧
   ((∃ c, w_y_error = Errorf_w "failed to save metadata" c) →
    Os.Lstat (files Scenario.w_y_put) op
    = inr (Os.RegFile (reader_bytes Scenario.hello)))).
Proof.
  assert (well_formed (files Scenario.w_y)) as Hwf.
  { by_computation. }
  split; [exact Hwf|]. split; [by_computation|].
  apply (PutObject_failure Scenario.st "y.json" "k" Scenario.hello "text/plain"
           Scenario.w_y w_y_error Scenario.w_y_put Hwf).
  by_computation.
Defined.

Lemma ListBuckets_entries_witness :
  Os.Lstat (files Scenario.w_music) (dataDir Scenario.st) = inr Os.Directory ∧
  ∃ l w', ListBuckets Scenario.st Scenario.w_music = (Ok l, w') ∧
    files w' = files Scenario.w_music ∧
    (∀ bk, bk ∈ l →
       ∃ name, files Scenario.w_music !! (dataDir Scenario.st ++ [name])
               = Some Os.Directory ∧
               bucket_listed Scenario.st (files Scenario.w_music)
                 (clock Scenario.w_music) name bk) ∧
    (∀ name, files Scenario.w_music !! (dataDir Scenario.st ++ [name])
             = Some Os.Directory →
       (∃ bk, bk ∈ l ∧ bucket_listed Scenario.st (files Scenario.w_music)
                         (clock Scenario.w_music) name bk) ∨
       (∃ d, Os.ReadFile (files Scenario.w_music)
               (Join (metadataDir Scenario.st) [name +:+ ".json"])
             = inr d ∧ UnmarshalBucket d = None)).
Proof.
  split; [by_computation|].
  apply (ListBuckets_entries Scenario.st Scenario.w_music).
  by_computation.
Defined.

Definition Scenario_calls : list call :=
  [CallCreateBucket "photos";
   CallPutObject "photos" "a.txt" Scenario.hello "text/plain";
   CallGetObject "photos" "a.txt";
   CallListBuckets;
   CallListObjects "photos";
   CallDeleteObject "photos" "a.txt"].

Lemma buckets_paired_from_empty_store_witness :
  let w := {| files := ∅; clock := 1700000000; rand := 42 |} in
  files w = ∅ ∧
  all_keep_pairs (Join [] ["./storage"]) Scenario_calls
    (NewObjectStorage "./storage" w).2 ∧
  buckets_paired (Join [] ["./storage"])
    (files (run (Join [] ["./storage"]) Scenario_calls
              (NewObjectStorage "./storage" w).2)).
Proof.
  intros w.
  assert (all_keep_pairs (Join [] ["./storage"]) Scenario_calls
            (NewObjectStorage "./storage" w).2) as Hcalls.
  { by_computation. }
  split; [reflexivity|]. split; [exact Hcalls|].
  apply (buckets_paired_from_empty_store "./storage" w Scenario_calls);
    [reflexivity|exact Hcalls].
Defined.

Lemma PutObject_creates_bucket_witness :
  files Scenario.w0 !! (["storage"] ++ ["data"; "music"]) = None ∧
  (valid_name "music" ∧ clean_key "song.mp3" ∧
   reader_ok Scenario.hello = true ∧ well_formed (files Scenario.w0) ∧
   Os.Lstat (files Scenario.w0) (["storage"] ++ ["data"]) = inr Os.Directory ∧
   Os.Lstat (files Scenario.w0) (["storage"] ++ ["metadata"])
     = inr Os.Directory ∧
   files Scenario.w0 !! (["storage"] ++ ["metadata"; "music"]) = None ∧
   Os.path_accepted
     (Join (dataDir (storage_at ["storage"])) ["music"; "song.mp3"]) ∧
   Os.temp_accepted
     (Dir (Join (dataDir (storage_at ["storage"])) ["music"; "song.mp3"])) ∧
   Os.path_accepted
     (Join (metadataDir (storage_at ["storage"]))
        ["music"; "song.mp3" +:+ ".json"])) ∧
  (∀ e w',
     PutObject (storage_at ["storage"]) "music" "song.mp3" Scenario.hello
       "audio/mpeg" Scenario.w0 = (Err e, w') → not_found e = false) ∧
  ∃ m w',
    PutObject (storage_at ["storage"]) "music" "song.mp3" Scenario.hello
      "audio/mpeg" Scenario.w0 = (Ok m, w') ∧
    Os.Lstat (files w') (["storage"] ++ ["data"; "music"]) = inr Os.Directory ∧
    files w' !! (["storage"] ++ ["metadata"; "music" +:+ ".json"])
    = files Scenario.w0 !! (["storage"] ++ ["metadata"; "music" +:+ ".json"]).
Proof.
  assert (files Scenario.w0 !! (["storage"] ++ ["data"; "music"]) = None)
    as H0 by by_computation.
  assert (valid_name "music") as H1 by by_computation.
  assert (clean_key "song.mp3") as H2 by by_computation.
  assert (reader_ok Scenario.hello = true) as H3 by reflexivity.
  assert (well_formed (files Scenario.w0)) as H4 by by_computation.
  assert (Os.Lstat (files Scenario.w0) (["storage"] ++ ["data"])
          = inr Os.Directory) as H5 by by_computation.
  assert (Os.Lstat (files Scenario.w0) (["storage"] ++ ["metadata"])
          = inr Os.Directory) as H6 by by_computation.
  assert (files Scenario.w0 !! (["storage"] ++ ["metadata"; "music"]) = None)
    as H7 by by_computation.
  assert (Os.path_accepted
            (Join (dataDir (storage_at ["storage"])) ["music"; "song.mp3"]))
    as H8 by by_computation.
  assert (Os.temp_accepted
            (Dir (Join (dataDir (storage_at ["storage"]))
                    ["music"; "song.mp3"])))
    as H9 by by_computation.
  assert (Os.path_accepted
            (Join (metadataDir (storage_at ["storage"]))
               ["music"; "song.mp3" +:+ ".json"]))
    as H10 by by_computation.
  split; [exact H0|].
  split; [exact (conj H1 (conj H2 (conj H3 (conj H4 (conj H5 (conj H6
                   (conj H7 (conj H8 (conj H9 H10)))))))))|].
  split.
  - exact (proj1 (PutObject_creates_bucket ["storage"] "music" "song.mp3"
                    Scenario.hello "audio/mpeg" Scenario.w0 H0)).
  - exact (proj2 (PutObject_creates_bucket ["storage"] "music" "song.mp3"
                    Scenario.hello "audio/mpeg" Scenario.w0 H0)
             H1 H2 H3 H4 H5 H6 H7 H8 H9 H10).
Defined.

Definition three_puts_before : list (string * Reader * string) :=
  [("a.txt", Scenario.hello, "text/plain")].
Definition three_puts_after : list (string * Reader * string) :=
  [("2024/c.txt", Chunk (bytes "third") EOF, "text/plain")].
Definition three_puts : list (string * Reader * string) :=
  three_puts_before
  ++ ("b.txt", Chunk (bytes "second") EOF, "text/plain") :: three_puts_after.

Definition three_puts_result : list ObjectMetadata * World :=
  Eval vm_compute in
    default ([], Scenario.w1)
      (put_all ["storage"] "photos" three_puts Scenario.w1).


(** ** More of the engine: what the calls do to one another *)

Section EngineFacts.
Import Os.
Context `{JSON}.
Implicit Types (t : tree) (p q : path) (w : World) (st : ObjectStorage).
Implicit Types (b k ct : string) (data : Reader) (m : ObjectMetadata).

(** MkdirAll of a directory that exists changes nothing. *)
Lemma mkdir_from_existing t cur rest :
  Lstat t (cur ++ rest) = inr Directory → mkdir_from t cur rest = (t, None).
Proof.
  revert cur. induction rest as [|c rest IH]; intros cur HL; simpl; [done|].
  assert (t !! (cur ++ [c]) = Some Directory) as ->.
  { destruct (decide (cur ++ [c] = cur ++ c :: rest)) as [Heq|Hne].
    - rewrite Heq. apply Lstat_lookup; [done|]. by destruct cur.
    - eapply Lstat_prefix_lookup; [exact HL| |done|by destruct cur].
      apply prefix_app, prefix_cons, prefix_nil. }
  apply IH. by rewrite <- app_assoc.
Qed.

Lemma MkdirAll_existing t p :
  Lstat t p = inr Directory → Os.MkdirAll t p = (t, None).
Proof. intros HL. by apply mkdir_from_existing. Qed.

Lemma set_files_files w : set_files w (files w) = w.
Proof. by destruct w. Qed.

(** What GetObject answers when the payload path resolves and the record
    holds an encoded descriptor, and when nothing is at the payload
    path. *)
Lemma GetObject_stored st b k w n m :
  Lstat (files w) (Join (dataDir st) [b; k]) = inr n →
  Os.ReadFile (files w) (Join (metadataDir st) [b; k +:+ ".json"])
    = inr (MarshalObject m) →
  GetObject st b k w = (Ok (n, m), w).
Proof.
  intros Ho Hm. rewrite GetObject_unfold. cbv zeta.
  by rewrite Ho, Hm, object_round_trip.
Qed.

Lemma GetObject_missing st b k w :
  Lstat (files w) (Join (dataDir st) [b; k]) = inl ENOENT →
  GetObject st b k w = (Err (Errorf "object not found"), w).
Proof. intros Ho. rewrite GetObject_unfold. cbv zeta. by rewrite Ho. Qed.

(** After a put that succeeds, the payload and the record are in place. *)
Lemma PutObject_stored base b k data ct w m w' :
  PutObject (storage_at base) b k data ct w = (Ok m, w') →
  Lstat (files w') (Join (dataDir (storage_at base)) [b; k])
    = inr (RegFile (reader_bytes data)) ∧
  Os.ReadFile (files w') (Join (metadataDir (storage_at base)) [b; k +:+ ".json"])
    = inr (MarshalObject m).
Proof.
  intros (Hm & _ & Hf & _ & HL & _ & _ & Hmp & Hd & Hnd)%PutObject_Ok_inv.
  rewrite Hf. split.
  - eapply put_done_payload; [exact HL|apply MkdirAll_grows|done|done|].
    apply object_metadata_apart.
  - apply ReadFile_Lstat. by apply put_done_metadata.
Qed.

(** Removing an entry that os.Remove can remove leaves nothing at its
    path. *)
Lemma Lstat_removed t p t' :
  Os.Remove t p = inr t' → Lstat t' p = inl ENOENT.
Proof.
  intros Hr. pose proof (Remove_inr _ _ _ Hr) as ->.
  unfold Os.Remove in Hr. destruct p as [|c0 p0] eqn:Ep; [done|].
  rewrite <- Ep in *. assert (p ≠ []) as Hp by (by rewrite Ep).
  destruct (Lstat t p) as [e|n] eqn:HL; [done|].
  destruct (path_snoc p Hp) as (c & Hc).
  apply Lstat_parent in HL. rewrite Hc at 2. rewrite Lstat_snoc.
  rewrite Lstat_delete_ne.
  - rewrite HL, <- Hc. by rewrite lookup_delete_eq.
  - rewrite Hc at 1. apply not_prefix_snoc.
Qed.


Lemma Remove_not_exist t p e :
  Os.Remove t p = inl e → IsNotExist e = true → Lstat t p = inl ENOENT.
Proof.
  unfold Os.Remove. destruct p as [|c p]; [by intros [= <-]|].
  destruct (Lstat t (c :: p)) as [e'|[d|]].
  - intros [= ->] He. by destruct e.
  - done.
  - destruct (entries t (c :: p)); [done|]. by intros [= <-].
Qed.

(** The payload path of a key of clean components and the path the
    second removal of DeleteObject goes to: side by side in one
    directory. *)
Lemma delete_paths (D : path) b k :
  valid_name b → clean_key k →
  ∃ od c, Join D [b; k] = od ++ [c] ∧
          Join D [b; k +:+ ".json"] = od ++ [c +:+ ".json"] ∧
          ¬ (od ++ [c +:+ ".json"]) `prefix_of` (od ++ [c]) ∧
          ¬ (od ++ [c]) `prefix_of` (od ++ [c +:+ ".json"]).
Proof.
  intros Hb Hk.
  destruct (exists_last (split_slash_nonempty k)) as (ki & c & Hks).
  exists (D ++ b :: ki), c.
  split; [by rewrite Join_object, Hks, <- app_assoc by done|].
  split; [by rewrite Join_object_json, Hks, add_ext_snoc, <- app_assoc by done|].
  destruct (ext_differs c) as [Hne _].
  split; intros Hpre%prefix_app_inv%prefix_cons_inv_1; congruence.
Qed.

(** DeleteObject, when it succeeds, has removed what was at the two
    paths it goes to. *)
Lemma DeleteObject_Ok_inv st b k w w' :
  valid_name b → clean_key k →
  DeleteObject st b k w = (Ok (), w') →
  Lstat (files w') (Join (dataDir st) [b; k]) = inl ENOENT ∧
  ((∃ e, Lstat (files w) (Join (dataDir st) [b; k +:+ ".json"]) = inl e ∧
         e ≠ ENOENT) ∨
   Lstat (files w') (Join (dataDir st) [b; k +:+ ".json"]) = inl ENOENT).
Proof.
  intros Hb Hk.
  destruct (delete_paths (dataDir st) b k Hb Hk) as (od & c & Hop & Hjp & H1 & H2).
  rewrite DeleteObject_unfold. cbv zeta. rewrite Hop, Hjp.
  destruct (Os.Remove (files w) (od ++ [c])) as [e|t1] eqn:E1.
  - destruct (IsNotExist e) eqn:He; [|done].
    apply (Remove_not_exist _ _ _ E1) in He.
    destruct (Os.Remove (files w) (od ++ [c +:+ ".json"])) as [e'|t'] eqn:E2.
    + destruct (IsNotExist e') eqn:He'; [|done]. intros [= <-].
      split; [done|]. right. by apply (Remove_not_exist _ _ _ E2).
    + intros [= <-]. simpl. split.
      * apply Remove_inr in E2 as ->. by rewrite Lstat_delete_ne.
      * right. by eapply Lstat_removed.
  - pose proof (Lstat_removed _ _ _ E1) as HL.
    destruct (Os.Remove t1 (od ++ [c +:+ ".json"])) as [e'|t'] eqn:E2.
    + destruct (IsNotExist e') eqn:He'; [|done]. intros [= <-]. simpl.
      split; [done|]. right. by apply (Remove_not_exist _ _ _ E2).
    + intros [= <-]. simpl. split.
      * apply Remove_inr in E2 as ->. by rewrite Lstat_delete_ne.
      * right. by eapply Lstat_removed.
Qed.


(** X2: after a DeleteObject that succeeds, GetObject of the same bucket
    and key answers "object not found". *)
Theorem GetObject_after_DeleteObject st b k w w' :
  valid_name b → clean_key k →
  DeleteObject st b k w = (Ok (), w') →
  GetObject st b k w' = (Err (Errorf "object not found"), w').
Proof.
  intros Hb Hk Hdel. apply GetObject_missing.
  by destruct (DeleteObject_Ok_inv _ _ _ _ _ Hb Hk Hdel) as [? _].
Qed.

(** X3: DeleteObject of key [k] also removes the payload of the object
    whose key is [k] with ".json" appended: the second removal goes to
    that path in the data directory.  After the call GetObject of that
    other object answers "object not found". *)
Theorem DeleteObject_removes_json_sibling st b k w w' d :
  valid_name b → clean_key k →
  Lstat (files w) (Join (dataDir st) [b; k +:+ ".json"]) = inr (RegFile d) →
  DeleteObject st b k w = (Ok (), w') →
  GetObject st b (k +:+ ".json") w' = (Err (Errorf "object not found"), w').
Proof.
  intros Hb Hk Hd Hdel. apply GetObject_missing.
  destruct (DeleteObject_Ok_inv _ _ _ _ _ Hb Hk Hdel)
    as [_ [(e & He & _)|?]]; [congruence|done].
Qed.

(** X4: no DeleteObject (of a bucket name of one component and a key of
    clean components) changes what can be read below the metadata
    directory, whatever it returns: every metadata record, the one of the
    deleted object included, reads as before. *)
Theorem DeleteObject_keeps_records base b k w r w' q :
  valid_name b → clean_key k →
  DeleteObject (storage_at base) b k w = (r, w') →
  (base ++ ["metadata"]) `prefix_of` q →
  Os.ReadFile (files w') q = Os.ReadFile (files w) q.
Proof.
  intros Hb Hk Hdel [x ->]. unfold Os.ReadFile.
  assert (Lstat (files w') ((base ++ ["metadata"]) ++ x)
          = Lstat (files w) ((base ++ ["metadata"]) ++ x)) as ->; [|done].
  destruct (delete_paths (base ++ ["data"]) b k Hb Hk)
    as (od & c & Hop & Hjp & _).
  assert (∃ y, od ++ [c] = (base ++ ["data"]) ++ y) as [y Hy].
  { rewrite <- Hop, Join_object by done. by eexists. }
  assert (∃ y, od ++ [c +:+ ".json"] = (base ++ ["data"]) ++ y) as [y' Hy'].
  { rewrite <- Hjp, Join_object_json by done. by eexists. }
  apply Lstat_ext. intros p Hp Hne.
  eapply DeleteObject_effect; [exact Hdel|..]; simpl.
  - rewrite Hop, Hy. intros ->.
    by apply metadata_not_below_data in Hp.
  - rewrite Hjp, Hy'. intros ->.
    by apply metadata_not_below_data in Hp.
Qed.

End EngineFacts.

Section BucketFacts.
Import Os.
Context `{JSON}.
Variable base : path.
Implicit Types (t : tree) (p q : path) (w : World).
Implicit Types (b k ct : string) (data : Reader) (m : ObjectMetadata).

Let D : path := base ++ ["data"].
Let M : path := base ++ ["metadata"].
Let st : ObjectStorage := storage_at base.

Lemma data_child b : base ++ ["data"; b] = D ++ [b].
Proof. unfold D. by rewrite <- app_assoc. Qed.

Lemma metadata_child b : base ++ ["metadata"; b] = M ++ [b].
Proof. unfold M. by rewrite <- app_assoc. Qed.

Lemma record_not_above_data c : ¬ (M ++ [c]) `prefix_of` D.
Proof.
  unfold D, M. rewrite <- (app_nil_r (base ++ ["data"])).
  apply data_not_below_metadata.
Qed.

(** A regular file on the way stops MkdirAll, which then leaves the tree
    as it is. *)
Lemma mkdir_from_through_file t cur r rest d :
  Lstat t (cur ++ r) = inr (RegFile d) → r ≠ [] →
  mkdir_from t cur (r ++ rest) = (t, Some ENOTDIR).
Proof.
  revert cur. induction r as [|c r IH]; intros cur HL Hr; [done|]. simpl.
  destruct r as [|c' r].
  - apply Lstat_lookup in HL; [|by destruct cur]. by rewrite HL.
  - assert (t !! (cur ++ [c]) = Some Directory) as ->.
    { eapply Lstat_prefix_lookup; [exact HL| | |by destruct cur].
      - apply prefix_app, prefix_cons, prefix_nil.
      - intros Heq%app_inv_head. done. }
    apply IH; [|done]. by rewrite <- app_assoc.
Qed.

Lemma MkdirAll_through_file t q x d :
  Lstat t q = inr (RegFile d) → Os.MkdirAll t (q ++ x) = (t, Some ENOTDIR).
Proof.
  intros HL. apply (mkdir_from_through_file t [] q x d); [done|].
  by intros ->.
Qed.

(** After a CreateBucket that succeeds, the data directory and the
    payload directory of the bucket are in place and the record reads as
    written. *)
Lemma CreateBucket_Ok_inv b w w' :
  valid_name b →
  CreateBucket st b w = (Ok (), w') →
  Lstat (files w') (dataDir st) = inr Directory ∧
  files w' !! (dataDir st ++ [b]) = Some Directory ∧
  Os.ReadFile (files w') (Join (metadataDir st) [b +:+ ".json"])
    = inr (MarshalBucket {| Name := b; Created := clock w |}).
Proof.
  intros Hb. rewrite CreateBucket_unfold. simpl. fold D M.
  rewrite Join_bucket, Join_bucket_json, Dir_snoc by done.
  destruct (Os.MkdirAll (files w) (D ++ [b])) as [t1 [e|]] eqn:E1; [done|].
  pose proof (MkdirAll_ok _ _ _ E1) as Hbd.
  pose proof (MkdirAll_grows t1 M) as Hg2.
  set (t2 := (Os.MkdirAll t1 M).1) in *.
  set (bk := {| Name := b; Created := clock w |}).
  destruct (Os.WriteFile t2 _ _) as [e|t3] eqn:E3; [done|].
  intros [= <-]. simpl.
  apply WriteFile_inr in E3 as (_ & HM2 & _ & ->). rewrite Dir_snoc in HM2.
  assert (Lstat t2 (D ++ [b]) = inr Directory) as Hbd2
    by (by apply (grows_Lstat _ _ _ _ Hg2)).
  set (t3 := <[M ++ [b +:+ ".json"] := RegFile (MarshalBucket bk)]> t2).
  assert (Lstat t3 (D ++ [b]) = inr Directory) as Hbd3.
  { unfold t3. rewrite Lstat_insert_ne; [done|].
    unfold D, M. apply data_not_below_metadata. }
  split; [|split].
  - apply Lstat_parent in Hbd3. by rewrite Dir_snoc in Hbd3.
  - apply Lstat_lookup in Hbd3; [done|by destruct D].
  - apply ReadFile_Lstat. by apply Lstat_insert_child.
Qed.

(** ListBuckets lists a directory of the data directory whose record
    holds an encoded descriptor, with that descriptor. *)
Lemma ListBuckets_includes (s : ObjectStorage) w name bk :
  Lstat (files w) (dataDir s) = inr Directory →
  files w !! (dataDir s ++ [name]) = Some Directory →
  Os.ReadFile (files w) (Join (metadataDir s) [name +:+ ".json"])
    = inr (MarshalBucket bk) →
  ∃ l w', ListBuckets s w = (Ok l, w') ∧ bk ∈ l.
Proof.
  intros HD Hdir Hread.
  destruct (ReadDir_Directory _ _ HD) as (es & Hes & Hmem).
  unfold ListBuckets, mbind, IO_bind, wrap, Engine.ReadDir, lift.
  rewrite Hes.
  destruct (ListBuckets_loop_spec s es [] w)
    as (l & w' & -> & _ & _ & _ & Hall).
  exists l, w'. split; [done|].
  destruct (Hall name) as [(bk' & Hbk & Hl)|(d & Hd & Hbad)].
  - by apply Hmem.
  - unfold bucket_listed in Hl. rewrite Hread in Hl.
    rewrite bucket_round_trip in Hl. by injection Hl as <-.
  - rewrite Hread in Hd. injection Hd as <-.
    by rewrite bucket_round_trip in Hbad.
Qed.

(** X5: for a bucket name of one path component (no slash in it; not
    empty, "." or ".."), a bucket that CreateBucket has made is in the
    list ListBuckets returns next, under its name and with the time of
    its creation.  (Other names are outside: CreateBucket of "a/b" makes
    data/a/b, and the list then shows a bucket "a".) *)
Theorem CreateBucket_listed b w w' :
  valid_name b →
  CreateBucket st b w = (Ok (), w') →
  ∃ l w'', ListBuckets st w' = (Ok l, w'') ∧
           {| Name := b; Created := clock w |} ∈ l.
Proof.
  intros Hb Hc.
  destruct (CreateBucket_Ok_inv b w w' Hb Hc) as (HD & Hdir & Hread).
  by apply (ListBuckets_includes st w' b).
Qed.

(** X6: CreateBucket of a bucket that exists is no error: it succeeds,
    writes the record anew with the time of this call, and changes
    nothing else in the store. *)
Theorem CreateBucket_existing b w d :
  valid_name b →
  Lstat (files w) (base ++ ["data"; b]) = inr Directory →
  Lstat (files w) (base ++ ["metadata"; b +:+ ".json"]) = inr (RegFile d) →
  CreateBucket st b w =
  (Ok (),
   {| files := <[base ++ ["metadata"; b +:+ ".json"] :=
                   RegFile (MarshalBucket {| Name := b; Created := clock w |})]>
                 (files w);
      clock := (clock w + 1)%Z; rand := rand w |}).
Proof.
  rewrite data_child, metadata_child. intros Hb Hbd Hrec.
  assert (Lstat (files w) M = inr Directory) as HM.
  { apply Lstat_parent in Hrec. by rewrite Dir_snoc in Hrec. }
  rewrite CreateBucket_unfold. simpl. fold D M.
  rewrite Join_bucket, Join_bucket_json, Dir_snoc by done.
  rewrite (MkdirAll_existing _ _ Hbd), (MkdirAll_existing _ _ HM). simpl.
  rewrite WriteFile_succeeds; [done|by destruct M|by rewrite Dir_snoc|].
  apply Lstat_lookup in Hrec; [|by destruct M]. by rewrite Hrec.
Qed.

(** X7: NewObjectStorage on a store that is already there (a restart of
    the server) returns the same storage and changes nothing. *)
Theorem NewObjectStorage_existing baseDir w :
  Lstat (files w) (Join [] [baseDir] ++ ["data"]) = inr Directory →
  Lstat (files w) (Join [] [baseDir] ++ ["metadata"]) = inr Directory →
  NewObjectStorage baseDir w = (Ok (storage_at (Join [] [baseDir])), w).
Proof.
  intros HD HM.
  pose proof (NewObjectStorage_storage baseDir w) as H1.
  pose proof (NewObjectStorage_world baseDir w) as H2.
  destruct (NewObjectStorage baseDir w) as [r w1]. simpl in H1, H2.
  rewrite H1, H2. f_equal. unfold Engine.MkdirAll.
  rewrite (MkdirAll_existing _ _ HD). simpl.
  rewrite (MkdirAll_existing _ _ HM). by destruct w.
Qed.

(** X8: NewObjectStorage reports no failure.  With a regular file where
    the base directory should be, it makes nothing and still returns a
    storage; CreateBucket and PutObject on that storage then fail (for a
    bucket name of one component and a key of clean components) and
    leave the tree as it is. *)
Theorem NewObjectStorage_on_file baseDir w d :
  Lstat (files w) (Join [] [baseDir]) = inr (RegFile d) →
  NewObjectStorage baseDir w = (Ok (storage_at (Join [] [baseDir])), w) ∧
  ∀ b, valid_name b →
    (∃ e, CreateBucket (storage_at (Join [] [baseDir])) b w = (Err e, w)) ∧
    (∀ k data ct, clean_key k →
       ∃ e, PutObject (storage_at (Join [] [baseDir])) b k data ct w
            = (Err e, w)).
Proof.
  intros Hfile. set (B := Join [] [baseDir]) in *. split.
  - pose proof (NewObjectStorage_storage baseDir w) as H1.
    pose proof (NewObjectStorage_world baseDir w) as H2.
    destruct (NewObjectStorage baseDir w) as [r w1]. simpl in H1, H2.
    rewrite H1, H2. f_equal. unfold Engine.MkdirAll. fold B.
    rewrite (MkdirAll_through_file _ _ _ _ Hfile). simpl.
    rewrite (MkdirAll_through_file _ _ _ _ Hfile). by destruct w.
  - intros b Hb. split.
    + rewrite CreateBucket_unfold. simpl. rewrite Join_bucket by done.
      rewrite <- !app_assoc.
      rewrite (MkdirAll_through_file _ _ _ _ Hfile).
      eexists. by rewrite set_files_files.
    + intros k data ct Hk. rewrite PutObject_unfold. simpl.
      destruct (exists_last (split_slash_nonempty k)) as (ki & c & Hks).
      rewrite Join_object, Hks by done.
      replace ((B ++ ["data"]) ++ b :: ki ++ [c])
        with ((B ++ "data" :: b :: ki) ++ [c])
        by (by rewrite <- !app_assoc).
      rewrite Dir_snoc.
      rewrite (MkdirAll_through_file _ _ _ _ Hfile).
      eexists. by rewrite set_files_files.
Qed.

End BucketFacts.

Section PutObjectFacts.
Import Os.
Context `{JSON}.
Implicit Types (t : tree) (p q : path) (w : World) (st : ObjectStorage).
Implicit Types (b k ct : string) (data : Reader) (m : ObjectMetadata).

(** X9: PutObject leaves no temporary file behind, whether it succeeds
    or fails: a regular file in the tree after the call was there before
    with the same content, or is the payload of the key, or is its
    metadata record. *)
Theorem PutObject_leaves_no_temporary_file st b k data ct w r w' q d :
  PutObject st b k data ct w = (r, w') →
  files w' !! q = Some (RegFile d) →
  files w !! q = Some (RegFile d) ∨
  q = Join (dataDir st) [b; k] ∨
  q = Join (metadataDir st) [b; k +:+ ".json"].
Proof.
  intros Hput Hq.
  set (op := Join (dataDir st) [b; k]) in *.
  set (mp := Join (metadataDir st) [b; k +:+ ".json"]) in *.
  pose proof (MkdirAll_grows (files w) (Dir op)) as Hg1.
  pose proof (MkdirAll_grows (published st b k data (files w)) (Dir mp)) as Hg2.
  fold (prepared st b k data (files w)) in Hg2.
  assert (∀ q d, prepared st b k data (files w) !! q = Some (RegFile d) →
                 files w !! q = Some (RegFile d) ∨ q = op) as Hprep.
  { intros q0 d0 Hq0. apply (grows_file_back _ _ _ _ Hg2) in Hq0.
    unfold published in Hq0. fold op in Hq0.
    destruct (decide (q0 = op)) as [->|Hne]; [by right|].
    rewrite lookup_insert_ne in Hq0 by done.
    left. by apply (grows_file_back _ _ _ _ Hg1). }
  destruct r as [m|e].
  - apply PutObject_Ok_inv in Hput as (_ & _ & Hf & _). fold mp in Hf.
    rewrite Hf in Hq.
    destruct (decide (q = mp)) as [->|Hne]; [by right; right|].
    rewrite lookup_insert_ne in Hq by done.
    destruct (Hprep _ _ Hq) as [?|?]; [by left|by right; left].
  - apply PutObject_Err_inv in Hput as [(Hf & _)|(_ & _ & Hf & _)];
      fold op in Hf; rewrite Hf in Hq.
    + left. by apply (grows_file_back _ _ _ _ Hg1).
    + destruct (Hprep _ _ Hq) as [?|?]; [by left|by right; left].
Qed.

(** What resolved before a put resolves to the same after it, the payload
    path and the record path of the put apart. *)
Lemma PutObject_keeps_Lstat st b k data ct w r w' p n :
  PutObject st b k data ct w = (r, w') →
  Lstat (files w) p = inr n →
  p ≠ Join (dataDir st) [b; k] →
  p ≠ Join (metadataDir st) [b; k +:+ ".json"] →
  Lstat (files w') p = inr n.
Proof.
  intros Hput Hp Hne1 Hne2.
  set (op := Join (dataDir st) [b; k]) in *.
  set (mp := Join (metadataDir st) [b; k +:+ ".json"]) in *.
  pose proof (MkdirAll_grows (files w) (Dir op)) as Hg1.
  pose proof (MkdirAll_grows (published st b k data (files w)) (Dir mp)) as Hg2.
  fold (prepared st b k data (files w)) in Hg2.
  assert (op ≠ [] → (Os.MkdirAll (files w) (Dir op)).1 !! op ≠ Some Directory →
          Lstat (prepared st b k data (files w)) p = inr n) as Hprep.
  { intros Hop Hnd. apply (grows_Lstat _ _ _ _ Hg2). unfold published.
    fold op. apply Lstat_insert_other; [|done..].
    by apply (grows_Lstat _ _ _ _ Hg1). }
  destruct r as [m|e].
  - apply PutObject_Ok_inv in Hput
      as (_ & _ & Hf & _ & _ & Hop & Hnd & Hmp & _ & Hmnd).
    fold op mp in Hf, Hop, Hnd, Hmp, Hmnd. rewrite Hf.
    apply Lstat_insert_other; [|done..]. by apply Hprep.
  - apply PutObject_Err_inv in Hput
      as [(Hf & _)|(_ & _ & Hf & _ & _ & Hop & Hnd)];
      fold op in Hf; rewrite Hf.
    + by apply (grows_Lstat _ _ _ _ Hg1).
    + by apply Hprep.
Qed.

(** X10: a PutObject, whether it succeeds or fails, does not change what
    GetObject returns for another object that was there: one whose
    payload path and record path are not those of the put. *)
Theorem PutObject_keeps_other_objects st b k data ct w r w' b' k' file m :
  PutObject st b k data ct w = (r, w') →
  GetObject st b' k' w = (Ok (file, m), w) →
  Join (dataDir st) [b'; k'] ≠ Join (dataDir st) [b; k] →
  Join (dataDir st) [b'; k'] ≠ Join (metadataDir st) [b; k +:+ ".json"] →
  Join (metadataDir st) [b'; k' +:+ ".json"] ≠ Join (dataDir st) [b; k] →
  Join (metadataDir st) [b'; k' +:+ ".json"]
    ≠ Join (metadataDir st) [b; k +:+ ".json"] →
  GetObject st b' k' w' = (Ok (file, m), w').
Proof.
  intros Hput Hget H1 H2 H3 H4.
  rewrite GetObject_unfold in Hget |- *. cbv zeta in *.
  destruct (Lstat (files w) (Join (dataDir st) [b'; k'])) as [[]|n] eqn:Ho;
    try done.
  destruct (Os.ReadFile (files w) _) as [e|d] eqn:Hr; [done|].
  destruct (UnmarshalObject d) as [m'|] eqn:Hu; [|done].
  injection Hget as -> ->. apply ReadFile_Lstat in Hr.
  rewrite (PutObject_keeps_Lstat _ _ _ _ _ _ _ _ _ _ Hput Ho H1 H2).
  apply (PutObject_keeps_Lstat _ _ _ _ _ _ _ _ _ _ Hput) in Hr; [|done..].
  apply ReadFile_Lstat in Hr. by rewrite Hr, Hu.
Qed.

(** X22: where a directory stands at the payload path of the key (the
    payload directory of the bucket itself for the empty key, or the
    directory of keys that lie below this one), PutObject fails and
    leaves every file and directory as it was: the temporary file cannot
    be renamed over a directory, and is removed. *)
Theorem PutObject_onto_directory st b k data ct w :
  Lstat (files w) (Join (dataDir st) [b; k]) = inr Directory →
  ∃ e w', PutObject st b k data ct w = (Err e, w') ∧ files w' = files w.
Proof.
  intros Hop. rewrite PutObject_unfold. cbv zeta.
  set (op := Join (dataDir st) [b; k]) in *. clearbody op.
  rewrite (MkdirAll_existing _ _ (Lstat_parent _ _ _ Hop)).
  destruct (Os.CreateTemp (files w) (Dir op) (rand w))
    as [e|[[t2 tmp] r]] eqn:E2; [by eauto|].
  destruct (temp_written _ _ _ _ _ _ (reader_bytes data) E2) as (Ht & HL & Hrm).
  rewrite Ht, Hrm.
  destruct (reader_ok data); [|by eauto].
  destruct (Os.Rename _ tmp op) as [e|t3] eqn:E3; [by eauto|].
  exfalso. apply CreateTemp_inr in E2 as (_ & Hfresh & _).
  apply Rename_inr in E3 as (d & _ & Hne & _ & Hcases).
  pose proof (Lstat_lookup _ _ _ Hop Hne) as Hdir.
  destruct Hcases as [[-> _]|(Hne' & Hnd & _)].
  - congruence.
  - rewrite lookup_insert_ne in Hnd by done. done.
Qed.

Lemma split_slash_append (k k2 : string) :
  split_slash (k +:+ "/" +:+ k2) = split_slash k ++ split_slash k2.
Proof.
  induction k as [|c k IH]; [done|].
  change (String c k +:+ "/" +:+ k2) with (String c (k +:+ "/" +:+ k2)).
  simpl. rewrite IH. case_decide; [done|].
  destruct (split_slash k) as [|x xs] eqn:E; [|done].
  by apply split_slash_nonempty in E.
Qed.

(** X23: an object cannot be put below an object.  When a payload is
    stored under key [k], PutObject of a key that continues [k] with a
    slash fails (the payload of [k] stands where a directory is needed)
    and leaves the store as it was. *)
Theorem PutObject_below_object st b k k2 data ct w d :
  valid_name b → clean_key k → clean_key k2 →
  Lstat (files w) (Join (dataDir st) [b; k]) = inr (RegFile d) →
  ∃ e, PutObject st b (k +:+ "/" +:+ k2) data ct w = (Err e, w).
Proof.
  intros Hb Hk Hk2 Hobj.
  assert (clean_key (k +:+ "/" +:+ k2)) as Hkk.
  { unfold clean_key. rewrite split_slash_append. by apply Forall_app. }
  rewrite PutObject_unfold. cbv zeta.
  rewrite Join_object in Hobj |- * by done.
  rewrite split_slash_append.
  destruct (exists_last (split_slash_nonempty k2)) as (ki & c & ->).
  replace (dataDir st ++ b :: split_slash k ++ ki ++ [c])
    with (((dataDir st ++ b :: split_slash k) ++ ki) ++ [c])
    by (by rewrite <- !app_assoc).
  rewrite Dir_snoc.
  rewrite (MkdirAll_through_file _ _ _ _ Hobj).
  eexists. by rewrite set_files_files.
Qed.

End PutObjectFacts.

Section ListingFacts.
Import Os.
Context `{JSON}.
Variable base : path.
Variable b : string.
Hypothesis b_valid : valid_name b.
Implicit Types (t : tree) (p q : path) (w : World) (k : string).
Implicit Types (m : ObjectMetadata).

Let D : path := base ++ ["data"].
Let M : path := base ++ ["metadata"].
Let st : ObjectStorage := storage_at base.

(** The order of the walk is a total preorder. *)
Lemma compare_refl (x : string) : (x ?= x)%string = Eq.
Proof.
  pose proof (String.compare_antisym x x) as Ha.
  by destruct (x ?= x)%string.
Qed.

Lemma compare_Lt_trans (x y z : string) :
  (x ?= y)%string = Lt → (y ?= z)%string = Lt → (x ?= z)%string = Lt.
Proof.
  intros Hxy Hyz.
  assert (String.le x z) as Hle.
  { trans y; unfold String.le, String.leb; [by rewrite Hxy|by rewrite Hyz]. }
  unfold String.le, String.leb in Hle.
  destruct (x ?= z)%string eqn:E; [|done|done].
  apply String.compare_eq_iff in E as ->.
  rewrite String.compare_antisym, Hyz in Hxy. done.
Qed.

Lemma path_leb_trans (p q r : path) :
  path_leb p q = true → path_leb q r = true → path_leb p r = true.
Proof.
  revert q r. induction p as [|x p IH]; intros [|y q] [|z r]; simpl; try done.
  destruct (x ?= y)%string eqn:Exy; [|intros _|done].
  - apply String.compare_eq_iff in Exy as ->.
    destruct (y ?= z)%string; [apply IH|done|done].
  - destruct (y ?= z)%string eqn:Eyz; [|intros _|done].
    + apply String.compare_eq_iff in Eyz as ->. by rewrite Exy.
    + by rewrite (compare_Lt_trans _ _ _ Exy Eyz).
Qed.

Lemma path_leb_total (p q : path) : path_leb p q = true ∨ path_leb q p = true.
Proof.
  revert q. induction p as [|x p IH]; intros [|y q]; simpl; auto.
  rewrite (String.compare_antisym y x).
  destruct (x ?= y)%string eqn:Exy; simpl; auto.
Qed.

#[local] Instance walk_le_trans : Transitive walk_le.
Proof. intros x y z. apply path_leb_trans. Qed.

#[local] Instance walk_le_total : Total walk_le.
Proof. intros x y. apply path_leb_total. Qed.

Lemma path_leb_app (p q r : path) : path_leb (p ++ q) (p ++ r) = path_leb q r.
Proof. induction p as [|x p IH]; [done|]. simpl. by rewrite compare_refl. Qed.

Lemma StronglySorted_omap {A B} (R1 : relation A) (R2 : relation B)
    (f : A → option B) (l : list A) :
  (∀ x y a c, x ∈ l → y ∈ l → f x = Some a → f y = Some c → R1 x y → R2 a c) →
  StronglySorted R1 l → StronglySorted R2 (omap f l).
Proof.
  intros Hmono Hs. induction Hs as [|x l Hs IH Hall]; simpl; [constructor|].
  assert (StronglySorted R2 (omap f l)) as IH'.
  { apply IH. intros x' y' a c Hx' Hy'. apply Hmono; by right. }
  destruct (f x) as [a|] eqn:E; [|done].
  constructor; [done|].
  apply Forall_forall. intros c (y & Hy & Hfy)%list_elem_of_omap.
  apply (Hmono x y); [by left|by right|done|done|].
  by apply (proj1 (Forall_forall _ _) Hall).
Qed.

(** The order of keys in which ListObjects returns the objects: the
    order of their paths, component by component. *)
Definition key_le (m1 m2 : ObjectMetadata) : Prop :=
  path_leb (split_slash (Key m1)) (split_slash (Key m2)) = true.

(** ListObjects of a bucket whose payload directory exists, as the walk
    goes. *)
Lemma ListObjects_walk w :
  Lstat (files w) (D ++ [b]) = inr Directory →
  ListObjects st b w
  = (Ok (omap (collected base b w)
           (merge_sort walk_le (below (files w) (D ++ [b])))), w).
Proof.
  intros Hdir. unfold ListObjects, Walk. simpl. fold D.
  rewrite Join_bucket by done. rewrite Hdir.
  change (ListObjects_visit (storage_at base) b (D ++ [b]) w []
            (D ++ [b]) (inr Directory)) with (@nil ObjectMetadata, @None error).
  unfold st, D. rewrite walk_collects; [done|].
  apply Forall_forall. intros e.
  rewrite merge_sort_Permutation. unfold below.
  rewrite list_elem_of_filter. by intros [(? & _) _].
Qed.

(** Listing a bucket that holds the objects [objs] and nothing else. *)
Lemma ListObjects_holds objs w :
  Forall clean_key (keys_of objs) → NoDup (keys_of objs) →
  holds base b (files w) objs →
  Lstat (files w) (D ++ [b]) = inr Directory →
  ∃ l, ListObjects st b w = (Ok l, w) ∧ l ≡ₚ (λ o, o.2) <$> objs ∧
       StronglySorted key_le l.
Proof.
  intros Hclean Hnd [Hobjs Hfiles] Hdir.
  assert (∀ k d m, (k, d, m) ∈ objs → clean_key k) as Hck.
  { intros k d m Hin. eapply (proj1 (Forall_forall _ _) Hclean).
    unfold keys_of. apply list_elem_of_fmap. by exists (k, d, m). }
  assert (∀ k d m d' m', (k, d, m) ∈ objs → (k, d', m') ∈ objs →
                         d = d' ∧ m = m') as Huniq.
  { intros k d m d' m' H1 H2.
    destruct (Hobjs _ _ _ H1) as (_ & Ho1 & Hr1).
    destruct (Hobjs _ _ _ H2) as (_ & Ho2 & Hr2).
    rewrite Ho1 in Ho2. injection Ho2 as ->. split; [done|].
    rewrite Hr1 in Hr2. injection Hr2 as Heq.
    apply (f_equal UnmarshalObject) in Heq.
    rewrite !object_round_trip in Heq. by injection Heq. }
  assert (∀ k d m, (k, d, m) ∈ objs →
            (loadObjectMetadata st b k w).1 = Ok m) as Hgood.
  { intros k d m Hin. destruct (Hobjs _ _ _ Hin) as (_ & _ & Hr).
    unfold st. rewrite loadObjectMetadata_unfold.
    rewrite Join_meta_path by eauto.
    apply ReadFile_Lstat in Hr. by rewrite Hr, object_round_trip. }
  rewrite (ListObjects_walk w Hdir). eexists. split; [done|].
  assert (∀ e m, e ∈ below (files w) (D ++ [b]) →
            collected base b w e = Some m →
            ∃ k d, (k, d, m) ∈ objs ∧ e = (obj_path base b k, RegFile d))
    as Hcoll.
  { intros [q n] m (Hq & Hlk%elem_of_map_to_list)%list_elem_of_filter.
    simpl in Hq. destruct Hq as (Hpre & Hroot & HLq).
    unfold collected. simpl. destruct n as [d|]; [|done]. simpl in Hlk.
    destruct (Hfiles q d Hpre Hlk) as (k & d' & m' & Hin & ->).
    rewrite Rel_obj_path. fold st. rewrite (Hgood k d' m' Hin). intros [= <-].
    destruct (Hobjs _ _ _ Hin) as (_ & Ho & _).
    simpl in HLq. rewrite Ho in HLq. injection HLq as ->.
    by exists k, d. }
  assert (∀ x y : string * list byte * ObjectMetadata,
            x ∈ objs → y ∈ objs → x.2 = y.2 → x = y) as Hinj.
  { intros [[k1 d1] m1] [[k2 d2] m2] Hin1 Hin2 Heq. simpl in Heq. subst m2.
    destruct (Hobjs _ _ _ Hin1) as (HK1 & _).
    destruct (Hobjs _ _ _ Hin2) as (HK2 & _).
    assert (k1 = k2) as -> by congruence.
    by destruct (Huniq _ _ _ _ _ Hin1 Hin2) as [-> _]. }
  split.
  - rewrite (omap_Permutation _ _ _ (merge_sort_Permutation _ _)).
    apply NoDup_Permutation.
    + apply NoDup_omap.
      * unfold below. apply NoDup_filter, NoDup_map_to_list.
      * intros x y m Hx Hy Hcx Hcy.
        destruct (Hcoll x m Hx Hcx) as (k1 & d1 & Hin1 & ->).
        destruct (Hcoll y m Hy Hcy) as (k2 & d2 & Hin2 & ->).
        by injection (Hinj _ _ Hin1 Hin2 eq_refl) as -> ->.
    + apply NoDup_fmap_2_strong; [done|]. by apply NoDup_fmap_1 in Hnd.
    + intros m. rewrite list_elem_of_omap, list_elem_of_fmap. split.
      * intros (e & He & Hc). destruct (Hcoll e m He Hc) as (k & d & Hin & _).
        by exists (k, d, m).
      * intros ([[k d] m'] & -> & Hin). simpl.
        destruct (Hobjs _ _ _ Hin) as (_ & Ho & _).
        exists (obj_path base b k, RegFile d). split.
        -- unfold below. apply list_elem_of_filter. simpl.
           split; [split; [apply obj_path_below|split; [apply obj_path_below|done]]|].
           apply elem_of_map_to_list. apply Lstat_lookup; [done|].
           apply obj_path_nonempty.
        -- unfold collected. simpl. rewrite Rel_obj_path. fold st.
           by rewrite (Hgood k d m' Hin).
  - eapply (StronglySorted_omap walk_le);
      [|by apply StronglySorted_merge_sort; apply _].
    intros x y m1 m2 Hx Hy Hc1 Hc2 Hle.
    rewrite merge_sort_Permutation in Hx, Hy.
    destruct (Hcoll x m1 Hx Hc1) as (k1 & d1 & Hin1 & ->).
    destruct (Hcoll y m2 Hy Hc2) as (k2 & d2 & Hin2 & ->).
    destruct (Hobjs _ _ _ Hin1) as (HK1 & _).
    destruct (Hobjs _ _ _ Hin2) as (HK2 & _).
    unfold key_le. rewrite HK1, HK2.
    unfold walk_le, obj_path in Hle. simpl in Hle.
    by rewrite path_leb_app in Hle.
Qed.

(** X11: ListObjects returns every object of the bucket, each once: in a
    bucket whose payload directory holds no regular file, after puts of
    pairwise distinct keys of clean components that all succeed, it
    returns the metadata those puts returned, in some order; with no put
    at all and the payload directory in place, the empty list. *)
Theorem ListObjects_lists_every_put puts w ms w' :
  (puts = [] → Lstat (files w) (base ++ ["data"; b]) = inr Directory) →
  bucket_empty base b (files w) →
  Forall clean_key (put_keys puts) → NoDup (put_keys puts) →
  put_all base b puts w = Some (ms, w') →
  ∃ l, ListObjects st b w' = (Ok l, w') ∧ l ≡ₚ ms.
Proof.
  intros Hdir Hempty Hclean Hnd Hrun.
  assert (holds base b (files w) []) as H0.
  { split; [by intros k d m ?%elem_of_nil|].
    intros q d Hq Hd. exfalso. apply Hempty in Hd. simpl in Hd.
    rewrite <- app_assoc in Hq. by specialize (Hd Hq). }
  destruct (put_all_holds base b b_valid _ [] w ms w' Hclean Hnd H0 Hrun)
    as [Hholds Hlen].
  simpl in Hholds.
  assert (Lstat (files w') (D ++ [b]) = inr Directory) as Hdir'.
  { destruct puts as [|[[k data] ct] puts'].
    - simpl in Hrun. injection Hrun as <- <-.
      unfold D. rewrite <- app_assoc. by apply Hdir.
    - destruct ms as [|m ms']; [done|].
      destruct Hholds as [Hobjs _].
      destruct (Hobjs k (reader_bytes data) m) as (_ & Ho & _); [by left|].
      eapply Lstat_prefix; [exact Ho|apply obj_path_below|].
      intros Heq. symmetry in Heq. by apply obj_path_below in Heq. }
  destruct (ListObjects_holds (stored_of puts ms) w') as (l & Hl & Hperm & _).
  - by rewrite keys_of_stored.
  - by rewrite keys_of_stored.
  - done.
  - done.
  - exists l. split; [done|]. by rewrite Hperm, snd_stored.
Qed.

(** X12: ListObjects returns the objects in the order of the walk: by
    key, compared component by component (so "a/z" comes before "a.txt").
    In a bucket filled by puts of pairwise distinct keys of clean
    components, each object in the list has a key that is less than or
    equal to the keys of all the objects after it. *)
Theorem ListObjects_in_key_order puts w ms w' l :
  bucket_empty base b (files w) →
  Forall clean_key (put_keys puts) → NoDup (put_keys puts) →
  put_all base b puts w = Some (ms, w') →
  ListObjects st b w' = (Ok l, w') →
  StronglySorted key_le l.
Proof.
  intros Hempty Hclean Hnd Hrun Hlist.
  assert (holds base b (files w) []) as H0.
  { split; [by intros k d m ?%elem_of_nil|].
    intros q d Hq Hd. exfalso. apply Hempty in Hd. simpl in Hd.
    rewrite <- app_assoc in Hq. by specialize (Hd Hq). }
  destruct (put_all_holds base b b_valid _ [] w ms w' Hclean Hnd H0 Hrun)
    as [Hholds Hlen].
  simpl in Hholds.
  destruct (Lstat (files w') (D ++ [b])) as [e|[d|]] eqn:Hdir.
  - unfold ListObjects, Walk in Hlist. simpl in Hlist. fold D in Hlist.
    rewrite Join_bucket, Hdir in Hlist by done. done.
  - unfold ListObjects, Walk in Hlist. simpl in Hlist. fold D in Hlist.
    rewrite Join_bucket, Hdir in Hlist by done. simpl in Hlist.
    destruct (Rel _ _); [|done].
    destruct (loadObjectMetadata _ _ _ _).1; injection Hlist as <-;
      repeat constructor.
  - destruct (ListObjects_holds (stored_of puts ms) w') as (l' & Hl & _ & Hs);
      [by rewrite keys_of_stored..|done|done|].
    rewrite Hl in Hlist. by injection Hlist as <-.
Qed.

End ListingFacts.

Section KeyFacts.
Import Os.
Context `{JSON}.
Implicit Types (t : tree) (p q : path) (w : World) (st : ObjectStorage).
Implicit Types (b k : string).

Lemma append_assoc (a b c : string) : (a +:+ b) +:+ c = a +:+ (b +:+ c).
Proof.
  induction a as [|x a IH]; [done|].
  change (String x ((a +:+ b) +:+ c) = String x (a +:+ (b +:+ c))).
  by f_equal.
Qed.

(** A name without a slash, a slash, and more: the name is the first
    component. *)
Lemma split_slash_name a s :
  split_slash a = [a] → split_slash (a +:+ "/" +:+ s) = a :: split_slash s.
Proof.
  induction a as [|c a IH]; simpl; [done|].
  case_decide; [done|]. intros Ha.
  destruct (split_slash a) as [|x xs] eqn:E.
  - by apply split_slash_nonempty in E.
  - injection Ha as -> ->. by rewrite IH.
Qed.

(** filepath.Join resolves a ".." in the key against the bucket name. *)
Lemma Join_dotdot (D : path) b1 b2 k :
  valid_name b1 → valid_name b2 →
  Join D [b1; "../" +:+ b2 +:+ "/" +:+ k] = Join D [b2; k].
Proof.
  intros (Hs1 & Hn1 & Hd1 & Hdd1) (Hs2 & Hn2 & Hd2 & Hdd2).
  unfold Join. cbn [flat_map]. rewrite !app_nil_r, Hs1, Hs2.
  change ("../" +:+ b2 +:+ "/" +:+ k) with (".." +:+ "/" +:+ (b2 +:+ "/" +:+ k)).
  rewrite (split_slash_name ".." _ eq_refl), (split_slash_name b2 k Hs2).
  cbn [app clean_onto].
  rewrite (decide_False (P := b1 = "" ∨ b1 = ".")) by (by intros [?|?]).
  rewrite (decide_False (P := b1 = "..")) by done.
  rewrite (decide_False (P := ".." = "" ∨ ".." = ".")) by (by intros [?|?]).
  rewrite (decide_True (P := ".." = "..")) by done.
  rewrite last_snoc. rewrite (decide_False (P := b1 = "..")) by done.
  by rewrite removelast_last.
Qed.

(** X13: a key is not confined to its bucket.  With ".." in the key,
    GetObject and DeleteObject of bucket [b1] reach the object of key
    [k] in bucket [b2]: the calls are the same as those on [b2] and
    [k]. *)
Theorem dotdot_key_reaches_other_bucket st b1 b2 k w :
  valid_name b1 → valid_name b2 →
  GetObject st b1 ("../" +:+ b2 +:+ "/" +:+ k) w = GetObject st b2 k w ∧
  DeleteObject st b1 ("../" +:+ b2 +:+ "/" +:+ k) w = DeleteObject st b2 k w.
Proof.
  intros Hb1 Hb2.
  assert (∀ ext, ("../" +:+ b2 +:+ "/" +:+ k) +:+ ext
                 = "../" +:+ b2 +:+ "/" +:+ (k +:+ ext)) as Hext.
  { intros ext. by rewrite !append_assoc. }
  split.
  - rewrite !GetObject_unfold. cbv zeta.
    by rewrite Hext, !Join_dotdot.
  - rewrite !DeleteObject_unfold. cbv zeta.
    by rewrite Hext, !Join_dotdot.
Qed.

End KeyFacts.

(** ** Facts about the handlers *)

Import Strings.

Example TrimPrefix_example : TrimPrefix "/objects/b/k" "/objects/" = "b/k".
Proof. reflexivity. Qed.

Example TrimPrefix_other : TrimPrefix "/health" "/objects/" = "/health".
Proof. reflexivity. Qed.

Example SplitN_example : SplitN "b/2024/a.txt" "/" 2 = ["b"; "2024/a.txt"].
Proof. reflexivity. Qed.

Example SplitN_no_separator : SplitN "bucket" "/" 2 = ["bucket"].
Proof. reflexivity. Qed.

Example SplitN_empty_key : SplitN "bucket/" "/" 2 = ["bucket"; ""].
Proof. reflexivity. Qed.

Example Contains_example :
  Contains "object not found" "not found" = true ∧
  Contains "not a directory" "not found" = false.
Proof. split; reflexivity. Qed.

Import Server.

Section StringsFacts.

Lemma prefix_append (pre s : string) : String.prefix pre (pre +:+ s) = true.
Proof.
  induction pre as [|c pre IH]; [by destruct s|].
  change (String c pre +:+ s) with (String c (pre +:+ s)). simpl.
  by destruct (ascii_dec c c).
Qed.

Lemma drop_string_append (pre s : string) :
  drop_string (String.length pre) (pre +:+ s) = s.
Proof.
  induction pre as [|c pre IH]; [by destruct s|].
  by change (String c pre +:+ s) with (String c (pre +:+ s)).
Qed.

Lemma TrimPrefix_append (pre s : string) : TrimPrefix (pre +:+ s) pre = s.
Proof.
  unfold TrimPrefix, HasPrefix. by rewrite prefix_append, drop_string_append.
Qed.

Lemma prefix_slash (c : ascii) (s : string) :
  String.prefix "/" (String c s) = bool_decide (c = "/"%char).
Proof.
  change (String.prefix "/" (String c s))
    with (match ascii_dec "/"%char c with
          | left _ => String.prefix "" s
          | right _ => false
          end).
  destruct (ascii_dec "/"%char c) as [<-|Hne].
  - by destruct s.
  - by rewrite bool_decide_eq_false_2.
Qed.

Lemma Cut_slash_cons (c : ascii) (s : string) :
  Cut (String c s) "/" =
  if bool_decide (c = "/"%char) then Some ("", s)
  else match Cut s "/" with
       | Some (before, after) => Some (String c before, after)
       | None => None
       end.
Proof.
  change (Cut (String c s) "/")
    with (if String.prefix "/" (String c s) then Some ("", s)
          else match Cut s "/" with
               | Some (before, after) => Some (String c before, after)
               | None => None
               end).
  by rewrite prefix_slash.
Qed.

(** A bucket name without a slash, a slash, and the key: cutting at the
    first slash gives the two back. *)
Lemma Cut_name (b k : string) :
  Contains b "/" = false → Cut (b +:+ "/" +:+ k) "/" = Some (b, k).
Proof.
  unfold Contains. induction b as [|c b IH]; intros Hb.
  - change ("" +:+ "/" +:+ k) with (String "/" k).
    by rewrite Cut_slash_cons.
  - change (String c b +:+ "/" +:+ k) with (String c (b +:+ "/" +:+ k)).
    rewrite Cut_slash_cons in Hb |- *.
    case_bool_decide; [done|].
    destruct (Cut b "/") as [[x y]|] eqn:E; [done|].
    by rewrite IH.
Qed.

Lemma SplitN_name (b k : string) :
  Contains b "/" = false → SplitN (b +:+ "/" +:+ k) "/" 2 = [b; k].
Proof. intros Hb. simpl. by rewrite Cut_name. Qed.

Lemma Contains_name (b k : string) :
  Contains b "/" = false → Contains (b +:+ "/" +:+ k) "/" = true.
Proof. intros Hb. unfold Contains. by rewrite Cut_name. Qed.

Lemma SplitN_Contains (s : string) :
  Contains s "/" = true → ∃ a c, SplitN s "/" 2 = [a; c].
Proof.
  unfold Contains. simpl.
  destruct (Cut s "/") as [[a c]|]; [by eauto|done].
Qed.

(** A name of one path component has no slash. *)
Lemma valid_name_no_slash (b : string) :
  split_slash b = [b] → Contains b "/" = false.
Proof.
  unfold Contains. induction b as [|c b IH]; [done|].
  rewrite Cut_slash_cons. simpl.
  case_decide as Hc; [done|]. intros Hs.
  rewrite bool_decide_eq_false_2 by done.
  destruct (split_slash b) as [|x xs] eqn:E.
  - by apply split_slash_nonempty in E.
  - injection Hs as -> ->. specialize (IH eq_refl).
    by destruct (Cut b "/") as [[? ?]|].
Qed.

End StringsFacts.

Section HandlersFacts.
Import Os.
Context `{JSON} `{ErrorTexts}.
Implicit Types (t : tree) (p q : path) (w : World) (s : StorageServer).
Implicit Types (r : Request) (b k : string).

(** Every entry of [t] is an entry of [t'], of the same kind. *)
Definition keeps_entries (t t' : tree) : Prop :=
  ∀ q n, t !! q = Some n → ∃ n', t' !! q = Some n' ∧ IsDir n' = IsDir n.

Lemma keeps_entries_refl t : keeps_entries t t.
Proof. intros q n Hq. by exists n. Qed.

Lemma keeps_entries_trans t1 t2 t3 :
  keeps_entries t1 t2 → keeps_entries t2 t3 → keeps_entries t1 t3.
Proof.
  intros H12 H23 q n Hq. destruct (H12 q n Hq) as (n' & Hq' & Hk).
  destruct (H23 q n' Hq') as (n'' & Hq'' & Hk'). exists n''.
  split; [done|]. by rewrite Hk'.
Qed.

Lemma keeps_entries_grows t t' : grows t t' → keeps_entries t t'.
Proof.
  intros Hg q n Hq. exists n. split; [|done]. by apply (grows_lookup _ _ _ _ Hg).
Qed.

Lemma keeps_entries_write t p d :
  t !! p ≠ Some Directory → keeps_entries t (<[p := RegFile d]> t).
Proof.
  intros Hp q n Hq. destruct (decide (q = p)) as [->|Hne].
  - exists (RegFile d). rewrite lookup_insert_eq. split; [done|].
    destruct n; [done|congruence].
  - exists n. by rewrite lookup_insert_ne.
Qed.

Lemma CreateBucket_keeps_entries (st : ObjectStorage) b w :
  keeps_entries (files w) (files (CreateBucket st b w).2).
Proof.
  rewrite CreateBucket_unfold. cbv zeta.
  pose proof (MkdirAll_grows (files w) (Join (dataDir st) [b])) as Hg1.
  destruct (Os.MkdirAll (files w) _) as [t1 [e|]]; simpl in *;
    [by apply keeps_entries_grows|].
  pose proof (MkdirAll_grows t1 (Dir (Join (metadataDir st) [b +:+ ".json"])))
    as Hg2.
  assert (keeps_entries (files w) (Os.MkdirAll t1
            (Dir (Join (metadataDir st) [b +:+ ".json"]))).1) as H2.
  { eapply keeps_entries_trans; by apply keeps_entries_grows. }
  destruct (Os.WriteFile _ _ _) as [e|t3] eqn:E3; simpl; [done|].
  apply WriteFile_inr in E3 as (_ & _ & Hnd & ->).
  eapply keeps_entries_trans; [exact H2|]. by apply keeps_entries_write.
Qed.

Lemma PutObject_keeps_entries (st : ObjectStorage) b k data ct w :
  keeps_entries (files w) (files (PutObject st b k data ct w).2).
Proof.
  set (op := Join (dataDir st) [b; k]).
  set (mp := Join (metadataDir st) [b; k +:+ ".json"]).
  pose proof (MkdirAll_grows (files w) (Dir op)) as Hg1.
  pose proof (MkdirAll_grows (published st b k data (files w)) (Dir mp)) as Hg2.
  fold (prepared st b k data (files w)) in Hg2.
  assert ((Os.MkdirAll (files w) (Dir op)).1 !! op ≠ Some Directory →
          keeps_entries (files w) (prepared st b k data (files w))) as Hprep.
  { intros Hnd. eapply keeps_entries_trans; [by apply keeps_entries_grows|].
    eapply keeps_entries_trans; [|by apply keeps_entries_grows].
    by apply keeps_entries_write. }
  destruct (PutObject st b k data ct w) as [[m|e] w'] eqn:E; simpl.
  - apply PutObject_Ok_inv in E as (_ & _ & Hf & _ & _ & _ & Hnd & _ & _ & Hmnd).
    rewrite Hf. eapply keeps_entries_trans; [by apply Hprep|].
    by apply keeps_entries_write.
  - apply PutObject_Err_inv in E as [(Hf & _)|(_ & _ & Hf & _ & _ & _ & Hnd)];
      rewrite Hf; [by apply keeps_entries_grows|by apply Hprep].
Qed.

(** X14: no request makes the server remove anything.  Whatever handler
    of main takes a request, every entry of the tree before it is an
    entry after it, a regular file still a regular file and a directory
    still a directory: no route leads to DeleteObject. *)
Theorem no_route_removes_an_entry s pattern (h : Handler) r w :
  (pattern, h) ∈ main_routes s →
  keeps_entries (files w) (files (h r w).2).
Proof.
  assert (keeps_entries (files w) (files (handleGetObject s r w).2)) as Hget.
  { unfold handleGetObject. case_decide; [apply keeps_entries_refl|].
    cbv zeta. destruct (SplitN _ _ _) as [|b [|k ?]];
      try apply keeps_entries_refl.
    pose proof (GetObject_world (storage s) b k w) as Hw.
    destruct (GetObject (storage s) b k w) as [[[f m]|e] w']; simpl in *;
      subst w'; [apply keeps_entries_refl|].
    destruct (Contains _ _); apply keeps_entries_refl. }
  assert (keeps_entries (files w) (files (handleListObjects s r w).2)) as Hlist.
  { unfold handleListObjects. case_decide; [apply keeps_entries_refl|].
    cbv zeta. destruct (Contains _ _); [done|].
    pose proof (ListObjects_world (storage s) (TrimPrefix (URL_Path r) "/objects/") w)
      as Hw.
    destruct (ListObjects _ _ w) as [[l|e] w']; simpl in *; subst w';
      apply keeps_entries_refl. }
  unfold main_routes. rewrite !elem_of_cons, elem_of_nil.
  intros [[= _ ->]|[[= _ ->]|[[= _ ->]|[[= _ ->]|[]]]]].
  - unfold handleCreateBucket. case_decide; [apply keeps_entries_refl|].
    cbv zeta. case_decide; [apply keeps_entries_refl|].
    pose proof (CreateBucket_keeps_entries (storage s)
                  (TrimPrefix (URL_Path r) "/buckets/") w) as Hk.
    by destruct (CreateBucket _ _ w) as [[[]|e] w'].
  - unfold handleListBuckets. case_decide; [apply keeps_entries_refl|].
    pose proof (ListBuckets_files (storage s) w) as Hf.
    destruct (ListBuckets (storage s) w) as [[l|e] w']; simpl in *;
      rewrite Hf; apply keeps_entries_refl.
  - unfold main_objects. cbv zeta. destruct (negb _); [done|].
    case_decide; [|done].
    unfold handlePutObject. case_decide; [apply keeps_entries_refl|].
    cbv zeta. destruct (SplitN _ _ _) as [|b [|k ?]];
      try apply keeps_entries_refl.
    pose proof (PutObject_keeps_entries (storage s) b k (Body r)
                  (if decide (Content_Type r = "")
                   then "application/octet-stream" else Content_Type r) w) as Hk.
    by destruct (PutObject _ _ _ _ _ w) as [[m|e] w'].
  - apply keeps_entries_refl.
Qed.

(** X15: on the "/objects/" route only GET and PUT are served.  A request
    with any other method (the DELETE of the client's rm, the HEAD of its
    stat) is answered 405 "Method not allowed", whatever its path, and
    the store is left as it is. *)
Theorem objects_route_other_methods s r w :
  Method r ≠ "GET" → Method r ≠ "PUT" →
  main_objects s r w
  = ([http_Error "Method not allowed" StatusMethodNotAllowed], w).
Proof.
  intros Hget Hput. unfold main_objects. cbv zeta.
  destruct (negb _).
  - unfold handleListObjects. by rewrite decide_True.
  - rewrite decide_False by done.
    unfold handleGetObject. by rewrite decide_True.
Qed.

(** X16: an upload and the download that follows, as the handlers serve
    them.  When the engine stores the body of PUT /objects/b/k (a bucket
    name without a slash), the answer carries the ETag and the metadata;
    a GET of the same path then answers with the bytes of the body, their
    count as Content-Length, the hexadecimal MD5 digest of the bytes as
    ETag, the time of the put, and the Content-Type of the upload, which
    is application/octet-stream when the upload named none. *)
Theorem put_then_get_over_http base b k body ct w m w' :
  let s := NewStorageServer (storage_at base) in
  let contentType :=
    if decide (ct = "") then "application/octet-stream" else ct in
  let path := "/objects/" +:+ b +:+ "/" +:+ k in
  Contains b "/" = false →
  PutObject (storage_at base) b k body contentType w = (Ok m, w') →
  main_objects s
    {| Method := "PUT"; URL_Path := path; Content_Type := ct; Body := body |} w
  = ([Header_Set "Content-Type" (Text "application/json");
      Header_Set "ETag"
        (Text (Hex.EncodeToString (MD5.Sum (reader_bytes body))));
      Encode (OfMetadata m)], w') ∧
  ∀ ct' body',
    main_objects s
      {| Method := "GET"; URL_Path := path;
         Content_Type := ct'; Body := body' |} w'
    = ([Header_Set "Content-Type" (Text contentType);
        Header_Set "ETag"
          (Text (Hex.EncodeToString (MD5.Sum (reader_bytes body))));
        Header_Set "Last-Modified" (HTTPTime (clock w));
        Header_Set "Content-Length"
          (Text (pretty (Z.of_nat (length (reader_bytes body)))));
        Write (reader_bytes body)], w').
Proof.
  intros s contentType path Hb Hput.
  assert (TrimPrefix path "/objects/" = b +:+ "/" +:+ k) as Htrim
    by apply TrimPrefix_append.
  pose proof (PutObject_Ok_inv _ _ _ _ _ _ _ _ Hput) as (Hm & _).
  destruct (PutObject_stored _ _ _ _ _ _ _ _ Hput) as [Ho Hr].
  split.
  - unfold main_objects. cbn [URL_Path Method]. rewrite Htrim.
    rewrite (Contains_name _ _ Hb). cbn [negb].
    rewrite decide_True by done.
    unfold handlePutObject. cbn [URL_Path Method Content_Type Body].
    rewrite decide_False by (by intros ?).
    rewrite Htrim, (SplitN_name _ _ Hb). cbn [storage s NewStorageServer].
    fold contentType. rewrite Hput. by rewrite Hm.
  - intros ct' body'. unfold main_objects. cbn [URL_Path Method].
    rewrite Htrim, (Contains_name _ _ Hb). cbn [negb].
    rewrite decide_False by done.
    unfold handleGetObject. cbn [URL_Path Method].
    rewrite decide_False by (by intros ?).
    rewrite Htrim, (SplitN_name _ _ Hb). cbn [storage s NewStorageServer].
    rewrite (GetObject_stored _ _ _ _ _ _ Ho Hr). by rewrite Hm.
Qed.


(** X18: making a bucket and listing the buckets, as the handlers serve
    them, for a bucket name [b] of one path component (no slash in it;
    not empty, "." or "..").  When the engine makes the bucket of
    PUT /buckets/b, the answer is 201 with the status "bucket created";
    the list of buckets is then served, with the new bucket in it, to a
    PUT of /buckets, and to no other method: a GET of /buckets is
    answered 405. *)
Theorem create_then_list_buckets_over_http base b w w' :
  let s := NewStorageServer (storage_at base) in
  valid_name b →
  CreateBucket (storage_at base) b w = (Ok (), w') →
  (∀ ct body,
     handleCreateBucket s
       {| Method := "PUT"; URL_Path := "/buckets/" +:+ b;
          Content_Type := ct; Body := body |} w
     = ([WriteHeader StatusCreated;
         Encode (StatusMap "status" "bucket created")], w')) ∧
  (∀ path ct body, ∃ l w'',
     handleListBuckets s
       {| Method := "PUT"; URL_Path := path;
          Content_Type := ct; Body := body |} w'
     = ([Header_Set "Content-Type" (Text "application/json");
         Encode (OfBuckets l)], w'') ∧
     {| Name := b; Created := clock w |} ∈ l) ∧
  (∀ r, Method r ≠ "PUT" →
     handleListBuckets s r w'
     = ([http_Error "Method not allowed" StatusMethodNotAllowed], w')).
Proof.
  intros s Hb Hc. split; [|split].
  - intros ct body. unfold handleCreateBucket. cbn [URL_Path Method].
    rewrite decide_False by (by intros ?).
    rewrite TrimPrefix_append.
    rewrite decide_False by (by destruct Hb as (_ & ? & _)).
    cbn [storage s NewStorageServer]. by rewrite Hc.
  - intros path ct body.
    destruct (CreateBucket_Ok_inv base b w w' Hb Hc) as (HD & Hdir & Hread).
    destruct (ListBuckets_includes (storage_at base) w' b _ HD Hdir Hread)
      as (l & w'' & Hl & Hin).
    exists l, w''. split; [|done].
    unfold handleListBuckets. cbn [Method].
    rewrite decide_False by (by intros ?).
    cbn [storage s NewStorageServer]. by rewrite Hl.
  - intros r Hr. unfold handleListBuckets. by rewrite decide_True.
Qed.

(** X21: on the "/objects/" route no request is answered 400.  The
    answer "Bucket and object key required" of handlePutObject and
    handleGetObject is out of reach: a path without a second part has no
    slash and is taken for the listing of a bucket, so that a PUT of
    /objects/b is answered 405. *)
Theorem objects_route_never_400 s r w :
  (∀ msg, http_Error msg StatusBadRequest ∉ (main_objects s r w).1) ∧
  (Method r = "PUT" → Contains (TrimPrefix (URL_Path r) "/objects/") "/" = false →
   main_objects s r w
   = ([http_Error "Method not allowed" StatusMethodNotAllowed], w)).
Proof.
  assert (∀ (l : list wcall) msg,
            Forall (λ c, ∀ m, c ≠ http_Error m StatusBadRequest) l →
            http_Error msg StatusBadRequest ∉ l) as Hnot.
  { intros l msg Hl Hin. by apply (proj1 (Forall_forall _ _) Hl _ Hin msg). }
  split.
  - intros msg. apply Hnot. unfold main_objects. cbv zeta.
    destruct (Contains (TrimPrefix (URL_Path r) "/objects/") "/") eqn:Hc;
      cbn [negb].
    + destruct (SplitN_Contains _ Hc) as (b & k & Hsplit).
      case_decide.
      * unfold handlePutObject. case_decide; [by repeat constructor|].
        cbv zeta. rewrite Hsplit.
        destruct (PutObject _ _ _ _ _ w) as [[m|e] w'];
          by repeat constructor.
      * unfold handleGetObject. case_decide; [by repeat constructor|].
        cbv zeta. rewrite Hsplit.
        destruct (GetObject (storage s) b k w) as [[[f m]|e] w'].
        -- destruct f; by repeat constructor.
        -- destruct (Contains (Error e) "not found"); by repeat constructor.
    + unfold handleListObjects. case_decide; [by repeat constructor|].
      cbv zeta. rewrite Hc.
      destruct (ListObjects _ _ w) as [[l|e] w']; by repeat constructor.
  - intros Hm Hc. unfold main_objects. cbv zeta. rewrite Hc. cbn [negb].
    unfold handleListObjects. rewrite decide_True; [done|].
    rewrite Hm. done.
Qed.

End HandlersFacts.

(** ** Facts about the client *)

Import Client.

Example Ext_example :
  Ext "photos/2024.d/a.tar.gz" = ".gz" ∧ Ext "a.b/c" = "" ∧ Ext ".bashrc" = ".bashrc"
  ∧ Ext "name." = ".".
Proof. repeat split; reflexivity. Qed.

Example getContentType_example :
  getContentType "Report.PDF" = Some "application/pdf" ∧
  getContentType "archive.tar.gz" = Some "application/gzip" ∧
  getContentType "Makefile" = Some "application/octet-stream" ∧
  getContentType "notes.TXT.bak" = Some "application/octet-stream".
Proof. by_computation. Qed.

Section ClientFacts.

(** The bytes of [s] miss the dot and the separator. *)
Definition plain (s : string) : Prop :=
  Forall (λ c, c ≠ "."%char ∧ c ≠ "/"%char) (list_ascii_of_string s).

Lemma list_ascii_append (a b : string) :
  list_ascii_of_string (a +:+ b) = list_ascii_of_string a ++ list_ascii_of_string b.
Proof.
  induction a as [|c a IH]; [done|].
  change (String c a +:+ b) with (String c (a +:+ b)). simpl. by rewrite IH.
Qed.

Lemma string_of_list_ascii_app (l : list ascii) (s : string) :
  string_of_list_ascii (l ++ list_ascii_of_string s)
  = string_of_list_ascii l +:+ s.
Proof.
  induction l as [|c l IH]; simpl.
  - apply string_of_list_ascii_of_string.
  - rewrite IH. done.
Qed.

(** The scan over a stretch without dot or separator goes on. *)
Lemma Ext_scan_plain (l rest : list ascii) (suffix : string) :
  Forall (λ c, c ≠ "."%char ∧ c ≠ "/"%char) l →
  Ext_scan (reverse l ++ rest) suffix
  = Ext_scan rest (string_of_list_ascii l +:+ suffix).
Proof.
  revert suffix. induction l as [|c l IH] using rev_ind; intros suffix Hl.
  - done.
  - apply Forall_app in Hl as [Hl Hc]. apply Forall_singleton in Hc as [Hd Hs].
    rewrite reverse_snoc. simpl.
    rewrite !bool_decide_eq_false_2 by done.
    rewrite IH by done.
    replace (string_of_list_ascii (l ++ [c]) +:+ suffix)
      with (string_of_list_ascii l +:+ String c suffix); [done|].
    clear. induction l as [|x l IH]; [done|]. simpl.
    change (String x ?a +:+ ?b) with (String x (a +:+ b)). by rewrite IH.
Qed.

Lemma Ext_dot (name ext : string) :
  plain ext → Ext (name +:+ "." +:+ ext) = "." +:+ ext.
Proof.
  intros Hext. unfold Ext.
  rewrite !list_ascii_append, !reverse_app. simpl.
  rewrite <- app_assoc. rewrite Ext_scan_plain by done. simpl.
  rewrite string_of_list_ascii_of_string.
  assert (∀ s, s +:+ "" = s) as ->; [|done].
  clear. induction s as [|c s IH]; [done|].
  change (String c s +:+ "") with (String c (s +:+ "")). by rewrite IH.
Qed.

Lemma Ext_plain (base : string) : plain base → Ext base = "".
Proof.
  intros Hb. unfold Ext.
  rewrite <- (app_nil_r (reverse _)). by rewrite Ext_scan_plain.
Qed.

Lemma Ext_dir_plain (dir base : string) :
  plain base → Ext (dir +:+ "/" +:+ base) = "".
Proof.
  intros Hb. unfold Ext.
  rewrite !list_ascii_append, !reverse_app. simpl.
  rewrite <- app_assoc. by rewrite Ext_scan_plain.
Qed.

(** X19: the content type the client gives an upload depends on the
    last extension of the file name alone: the directory and what comes
    before the last dot do not count, and a name whose last element has
    no dot is sent as application/octet-stream. *)
Theorem getContentType_by_last_extension (name ext dir base : string) :
  plain ext → plain base →
  getContentType (name +:+ "." +:+ ext) = getContentType ("." +:+ ext) ∧
  getContentType base = Some "application/octet-stream" ∧
  getContentType (dir +:+ "/" +:+ base) = Some "application/octet-stream".
Proof.
  intros Hext Hbase. unfold getContentType.
  pose proof (Ext_dot "" ext Hext) as H0.
  change ("" +:+ "." +:+ ext) with ("." +:+ ext) in H0.
  rewrite (Ext_dot name ext Hext), H0.
  by rewrite (Ext_plain base Hbase), (Ext_dir_plain dir base Hbase).
Qed.

Lemma lower_idemp (c : ascii) : lower (lower c) = lower c.
Proof.
  unfold lower.
  destruct ((65 <=? nat_of_ascii c) && (nat_of_ascii c <=? 90))%nat eqn:E;
    [|by rewrite E].
  apply andb_prop in E as [E1%Nat.leb_le E2%Nat.leb_le].
  rewrite nat_ascii_embedding by lia.
  destruct ((65 <=? nat_of_ascii c + 32) && (nat_of_ascii c + 32 <=? 90))%nat
    eqn:E'; [|done].
  apply andb_prop in E' as [_ E4%Nat.leb_le]. lia.
Qed.

Lemma lower_is_ascii (c : ascii) : is_ascii c = true → is_ascii (lower c) = true.
Proof.
  unfold lower, is_ascii. intros Hc%Nat.ltb_lt.
  destruct ((65 <=? nat_of_ascii c) && (nat_of_ascii c <=? 90))%nat eqn:E;
    [|by apply Nat.ltb_lt].
  apply andb_prop in E as [E1%Nat.leb_le E2%Nat.leb_le].
  rewrite nat_ascii_embedding by lia. apply Nat.ltb_lt. lia.
Qed.

Lemma lower_dot (c : ascii) : lower c = "."%char ↔ c = "."%char.
Proof.
  unfold lower.
  destruct ((65 <=? nat_of_ascii c) && (nat_of_ascii c <=? 90))%nat eqn:E;
    [|done].
  apply andb_prop in E as [E1%Nat.leb_le E2%Nat.leb_le]. split.
  - intros Heq%(f_equal nat_of_ascii). rewrite nat_ascii_embedding in Heq by lia.
    change (nat_of_ascii "."%char) with 46%nat in Heq. lia.
  - intros ->. change (nat_of_ascii "."%char) with 46%nat in E1. lia.
Qed.

Lemma lower_slash (c : ascii) : lower c = "/"%char ↔ c = "/"%char.
Proof.
  unfold lower.
  destruct ((65 <=? nat_of_ascii c) && (nat_of_ascii c <=? 90))%nat eqn:E;
    [|done].
  apply andb_prop in E as [E1%Nat.leb_le E2%Nat.leb_le]. split.
  - intros Heq%(f_equal nat_of_ascii). rewrite nat_ascii_embedding in Heq by lia.
    change (nat_of_ascii "/"%char) with 47%nat in Heq. lia.
  - intros ->. change (nat_of_ascii "/"%char) with 47%nat in E1. lia.
Qed.

(** The extension of the name in lower case is the extension in lower
    case. *)
Lemma Ext_scan_lower (l : list ascii) (suffix : list ascii) :
  list_ascii_of_string
    (Ext_scan (lower <$> l) (string_of_list_ascii (lower <$> suffix)))
  = lower <$> list_ascii_of_string (Ext_scan l (string_of_list_ascii suffix)).
Proof.
  revert suffix. induction l as [|c l IH]; intros suffix; [done|].
  cbn [fmap list_fmap Ext_scan].
  destruct (decide (c = "/"%char)) as [->|Hs].
  - done.
  - rewrite (bool_decide_eq_false_2 (c = "/"%char)) by done.
    rewrite (bool_decide_eq_false_2 (lower c = "/"%char))
      by (by rewrite lower_slash).
    destruct (decide (c = "."%char)) as [->|Hd].
    + simpl. by rewrite !list_ascii_of_string_of_list_ascii.
    + rewrite (bool_decide_eq_false_2 (c = "."%char)) by done.
      rewrite (bool_decide_eq_false_2 (lower c = "."%char))
        by (by rewrite lower_dot).
      apply (IH (c :: suffix)).
Qed.

(** X20: the content type does not depend on the case of the letters of
    the file name: a name and the same name in lower case get the same
    content type. *)
Theorem getContentType_ignores_case (name name' : string) :
  ToLower name = Some name' →
  getContentType name' = getContentType name.
Proof.
  unfold ToLower. destruct (forallb _ _) eqn:Hascii; [|done].
  intros [= <-]. unfold getContentType.
  set (l := list_ascii_of_string name) in *.
  assert (list_ascii_of_string (Ext (string_of_list_ascii (lower <$> l)))
          = lower <$> list_ascii_of_string (Ext name)) as HE.
  { unfold Ext. rewrite list_ascii_of_string_of_list_ascii. fold l.
    rewrite <- fmap_reverse. apply (Ext_scan_lower (reverse l) []). }
  assert (forallb is_ascii (list_ascii_of_string (Ext name)) = true) as HA.
  { apply forallb_forall. intros c Hc.
    assert (∀ rev suffix,
              (∀ x, In x (list_ascii_of_string suffix) → is_ascii x = true) →
              (∀ x, In x rev → is_ascii x = true) →
              ∀ x, In x (list_ascii_of_string (Ext_scan rev suffix)) →
                   is_ascii x = true) as Hscan.
    { clear. induction rev as [|c rev IH]; intros suffix Hs Hr x; [done|].
      simpl. case_bool_decide; [done|]. case_bool_decide.
      - simpl. intros [<-|Hx]; [apply Hr; by left|by apply Hs].
      - apply IH.
        + simpl. intros y [<-|Hy]; [apply Hr; by left|by apply Hs].
        + intros y Hy. apply Hr. by right. }
    apply (Hscan (reverse l) ""); [done| |exact Hc].
    intros x Hx. apply (proj1 (forallb_forall _ _) Hascii).
    apply list_elem_of_In. apply list_elem_of_In in Hx.
    by rewrite elem_of_reverse in Hx. }
  unfold ToLower. rewrite HE, HA.
  assert (forallb is_ascii (lower <$> list_ascii_of_string (Ext name)) = true)
    as ->.
  { apply forallb_forall. intros c Hc.
    apply list_elem_of_In, list_elem_of_fmap in Hc as (x & -> & Hx).
    apply lower_is_ascii. apply (proj1 (forallb_forall _ _) HA).
    by apply list_elem_of_In. }
  rewrite <- list_fmap_compose.
  rewrite (list_fmap_ext (lower ∘ lower) lower); [done|].
  intros i x _. apply lower_idemp.
Qed.

End ClientFacts.

Import ClientSize.

Example formatSize_example :
  formatSize 0 = "0B" ∧ formatSize 1023 = "1023B" ∧
  formatSize 1024 = "1.0KB" ∧ formatSize 1280 = "1.2KB" ∧
  formatSize 1536 = "1.5KB" ∧ formatSize 1048575 = "1024.0KB" ∧
  formatSize 1048576 = "1.0MB" ∧ formatSize 5368709120 = "5.0GB" ∧
  formatSize (-5) = "-5B".
Proof. repeat split; reflexivity. Qed.

Section ClientSizeFacts.
Local Open Scope Z_scope.

Lemma round_half_even_near (n d : Z) :
  0 < d → Z.abs (n - round_half_even n d * d) * 2 ≤ d.
Proof.
  intros Hd. unfold round_half_even.
  pose proof (Z.div_mod n d ltac:(lia)) as Hdm.
  pose proof (Z.mod_pos_bound n d Hd) as Hr.
  destruct (Z.ltb_spec (2 * (n mod d)) d); [lia|].
  destruct (Z.ltb_spec d (2 * (n mod d))); [lia|].
  destruct (Z.even (n / d)); lia.
Qed.

Lemma round_half_even_bounds (n d : Z) :
  0 < d → n / d ≤ round_half_even n d ≤ n / d + 1.
Proof.
  intros Hd. unfold round_half_even.
  destruct (Z.ltb_spec (2 * (n mod d)) d); [lia|].
  destruct (Z.ltb_spec d (2 * (n mod d))); [lia|].
  destruct (Z.even (n / d)); lia.
Qed.

Lemma round_half_even_mono (n m d : Z) :
  0 < d → n ≤ m → round_half_even n d ≤ round_half_even m d.
Proof.
  intros Hd Hnm.
  destruct (decide (n / d = m / d)) as [Heq|Hne].
  - unfold round_half_even. rewrite <- Heq.
    assert (n mod d ≤ m mod d) as Hmod.
    { rewrite !Z.mod_eq by lia. rewrite <- Heq. lia. }
    destruct (Z.ltb_spec (2 * (n mod d)) d);
      destruct (Z.ltb_spec (2 * (m mod d)) d);
      destruct (Z.ltb_spec d (2 * (n mod d)));
      destruct (Z.ltb_spec d (2 * (m mod d)));
      destruct (Z.even (n / d)); lia.
  - assert (n / d < m / d) as Hlt.
    { pose proof (Z.div_le_mono n m d Hd Hnm). lia. }
    pose proof (round_half_even_bounds n d Hd).
    pose proof (round_half_even_bounds m d Hd). lia.
Qed.

Lemma round_half_even_exact (q d : Z) :
  0 < d → round_half_even (q * d) d = q.
Proof.
  intros Hd. unfold round_half_even.
  rewrite Z.div_mul, Z.mod_mul by lia.
  by rewrite (proj2 (Z.ltb_lt _ _)) by lia.
Qed.

Lemma float64_small (n : Z) : 0 < n < 2 ^ 53 → float64 n = n.
Proof.
  intros Hn. unfold float64.
  assert (Z.log2 n < 53) as Hl by (apply Z.log2_lt_pow2; lia).
  by rewrite (proj2 (Z.leb_le _ _)) by lia.
Qed.

(** X24: how formatSize shows a size from 1 KiB up to 1 GiB.  The
    number shown, in the unit chosen (KB below 1 MiB, MB from there),
    is the tenth nearest to the size: it is off by at most 0.05 of the
    unit.  It is never below 1.0, but the sizes of the last 0.05 of a
    unit before the next unit are shown as 1024.0 of the smaller unit
    (1048575 bytes as "1024.0KB"). *)
Theorem formatSize_shows_nearest_tenth (size : Z) :
  KB ≤ size < GB →
  let unit := if size <? MB then KB else MB in
  let suffix := if size <? MB then "KB" else "MB" in
  ∃ t, formatSize size
       = (pretty (t / 10) +:+ "." +:+ pretty (t mod 10)) +:+ suffix ∧
       10 ≤ t ≤ 10240 ∧
       Z.abs (10 * size - t * unit) * 2 ≤ unit ∧
       (t = 10240 ↔ 20479 * unit ≤ 20 * size).
Proof.
  intros [Hlo Hhi] unit suffix.
  assert (unit = KB ∧ suffix = "KB" ∧ size < MB ∨
          unit = MB ∧ suffix = "MB" ∧ MB ≤ size) as Hcase.
  { unfold unit, suffix. destruct (Z.ltb_spec size MB); auto. }
  clearbody unit suffix.
  assert (0 < unit ∧ unit ≤ size < unit * 1024 ∧ unit = 2 * (unit / 2))
    as (Hu & Hrange & Heven).
  { unfold GB, MB, KB in *.
    destruct Hcase as [(-> & _ & ?)|(-> & _ & ?)]; repeat split; lia. }
  exists (round_half_even (10 * size) unit).
  assert (float64 size = size) as Hf.
  { apply float64_small. unfold GB, MB, KB in *. lia. }
  assert (10 ≤ round_half_even (10 * size) unit ≤ 10240) as Hbounds.
  { pose proof (round_half_even_mono (10 * unit) (10 * size) unit Hu) as H1.
    pose proof (round_half_even_mono (10 * size) (10240 * unit) unit Hu) as H2.
    rewrite round_half_even_exact in H1, H2 by done. lia. }
  pose proof (round_half_even_near (10 * size) unit Hu) as Hnear.
  split; [|split; [done|split; [done|]]].
  - unfold formatSize, Sprintf_1f. rewrite Hf.
    destruct (Z.leb_spec GB size); [lia|].
    destruct Hcase as [(-> & -> & ?)|(-> & -> & ?)].
    + destruct (Z.leb_spec MB size); [lia|].
      by destruct (Z.leb_spec KB size); [|lia].
    + by destruct (Z.leb_spec MB size); [|lia].
  - split; [intros Ht; rewrite Ht in Hnear; lia|].
    intros Hsize.
    destruct (decide (20479 * unit = 20 * size)) as [Heq|Hne];
      [|unfold MB, KB in Hcase;
        destruct Hcase as [(-> & _ & _)|(-> & _ & _)]; lia].
    (* half way between 1023.9 and 1024.0: to the even tenth *)
    assert (10 * size = 10239 * unit + unit / 2) as Hval by lia.
    unfold round_half_even.
    assert ((10 * size) / unit = 10239) as ->.
    { symmetry. apply (Z.div_unique _ _ _ (unit / 2)); lia. }
    assert ((10 * size) mod unit = unit / 2) as ->.
    { symmetry. apply (Z.mod_unique _ _ 10239); lia. }
    destruct (Z.ltb_spec (2 * (unit / 2)) unit); [lia|].
    destruct (Z.ltb_spec unit (2 * (unit / 2))); [lia|]. done.
Qed.

End ClientSizeFacts.

(** ** Runs of the engine, the handlers and the client *)

Module Runs.
Import Server.

(** The texts of the errors from outside the engine, for the runs. *)
#[global] Instance texts : ErrorTexts :=
  {| ReadError_text := "unexpected EOF";
     SyntaxError_text := "unexpected end of JSON input";
     RelError_text := "Rel: can't make path relative" |}.

Definition server : StorageServer := NewStorageServer (storage_at ["storage"]).

(** Objects "a.txt" and "a.txt.json" side by side, and the world after
    DeleteObject of "a.txt". *)
Definition w_pair : World :=
  (PutObject Scenario.st "photos" "a.txt.json" Scenario.hello
     "application/json" Scenario.w2).2.
Definition w_pair_deleted : World :=
  (DeleteObject Scenario.st "photos" "a.txt" w_pair).2.

(** A second object beside "a.txt". *)
Definition second : Reader := Chunk (bytes "second") EOF.
Definition w_b : World :=
  (PutObject Scenario.st "photos" "b.txt" second "text/plain" Scenario.w2).2.

Definition m_b : ObjectMetadata :=
  {| Key := "b.txt";
     Size := 6;
     ContentType := "text/plain";
     ETag := "a9f0e61a137d86aa9db53465e0801612";
     LastModified := clock Scenario.w2 |}.

(** The three objects of [three_puts], as ListObjects returns them. *)
Definition three_puts_listing : list ObjectMetadata :=
  Eval vm_compute in
    match (ListObjects (storage_at ["storage"]) "photos"
             three_puts_result.2).1 with
    | Ok l => l
    | Err _ => []
    end.

(** A regular file where the base directory should be. *)
Definition w_file : World :=
  {| files := {[ ["storage"] := Os.RegFile [] ]}; clock := 0; rand := 0 |}.

(** An upload that names no content type. *)
Definition m_upload : ObjectMetadata :=
  {| Key := "a.txt";
     Size := 5;
     ContentType := "application/octet-stream";
     ETag := "5d41402abc4b2a76b9719d911017c592";
     LastModified := clock Scenario.w1 |}.
Definition w_upload : World :=
  (PutObject (storage_at ["storage"]) "photos" "a.txt" Scenario.hello
     "application/octet-stream" Scenario.w1).2.

End Runs.


Lemma GetObject_after_DeleteObject_witness :
  (valid_name "photos" ∧ clean_key "a.txt" ∧
   DeleteObject Scenario.st "photos" "a.txt" Scenario.w2 = (Ok (), Scenario.w3)) ∧
  GetObject Scenario.st "photos" "a.txt" Scenario.w3
  = (Err (Errorf "object not found"), Scenario.w3).
Proof.
  assert (valid_name "photos") as H1 by by_computation.
  assert (clean_key "a.txt") as H2 by by_computation.
  assert (DeleteObject Scenario.st "photos" "a.txt" Scenario.w2
          = (Ok (), Scenario.w3)) as H3 by by_computation.
  split; [exact (conj H1 (conj H2 H3))|].
  exact (GetObject_after_DeleteObject Scenario.st "photos" "a.txt"
           Scenario.w2 Scenario.w3 H1 H2 H3).
Defined.

Lemma DeleteObject_removes_json_sibling_witness :
  (valid_name "photos" ∧ clean_key "a.txt" ∧
   Os.Lstat (files Runs.w_pair)
     (Join (dataDir Scenario.st) ["photos"; "a.txt" +:+ ".json"])
     = inr (Os.RegFile (bytes "hello")) ∧
   DeleteObject Scenario.st "photos" "a.txt" Runs.w_pair
     = (Ok (), Runs.w_pair_deleted)) ∧
  GetObject Scenario.st "photos" ("a.txt" +:+ ".json") Runs.w_pair_deleted
  = (Err (Errorf "object not found"), Runs.w_pair_deleted).
Proof.
  assert (valid_name "photos") as H1 by by_computation.
  assert (clean_key "a.txt") as H2 by by_computation.
  assert (Os.Lstat (files Runs.w_pair)
            (Join (dataDir Scenario.st) ["photos"; "a.txt" +:+ ".json"])
          = inr (Os.RegFile (bytes "hello"))) as H3 by by_computation.
  assert (DeleteObject Scenario.st "photos" "a.txt" Runs.w_pair
          = (Ok (), Runs.w_pair_deleted)) as H4 by by_computation.
  split; [exact (conj H1 (conj H2 (conj H3 H4)))|].
  exact (DeleteObject_removes_json_sibling Scenario.st "photos" "a.txt"
           Runs.w_pair Runs.w_pair_deleted (bytes "hello") H1 H2 H3 H4).
Defined.

Lemma DeleteObject_keeps_records_witness :
  (valid_name "photos" ∧ clean_key "a.txt" ∧
   DeleteObject (storage_at ["storage"]) "photos" "a.txt" Scenario.w2
     = (Ok (), Scenario.w3) ∧
   (["storage"] ++ ["metadata"])
     `prefix_of` ["storage"; "metadata"; "photos"; "a.txt.json"]) ∧
  Os.ReadFile (files Scenario.w3) ["storage"; "metadata"; "photos"; "a.txt.json"]
  = Os.ReadFile (files Scenario.w2)
      ["storage"; "metadata"; "photos"; "a.txt.json"].
Proof.
  assert (valid_name "photos") as H1 by by_computation.
  assert (clean_key "a.txt") as H2 by by_computation.
  assert (DeleteObject (storage_at ["storage"]) "photos" "a.txt" Scenario.w2
          = (Ok (), Scenario.w3)) as H3 by by_computation.
  assert ((["storage"] ++ ["metadata"])
            `prefix_of` ["storage"; "metadata"; "photos"; "a.txt.json"]) as H4
    by (by exists ["photos"; "a.txt.json"]).
  split; [exact (conj H1 (conj H2 (conj H3 H4)))|].
  exact (DeleteObject_keeps_records ["storage"] "photos" "a.txt" Scenario.w2
           (Ok ()) Scenario.w3 _ H1 H2 H3 H4).
Defined.

Lemma CreateBucket_listed_witness :
  (valid_name "photos" ∧
   CreateBucket (storage_at ["storage"]) "photos" Scenario.w0
     = (Ok (), Scenario.w1)) ∧
  ∃ l w'', ListBuckets (storage_at ["storage"]) Scenario.w1 = (Ok l, w'') ∧
           {| Name := "photos"; Created := clock Scenario.w0 |} ∈ l.
Proof.
  assert (valid_name "photos") as H1 by by_computation.
  assert (CreateBucket (storage_at ["storage"]) "photos" Scenario.w0
          = (Ok (), Scenario.w1)) as H2 by by_computation.
  split; [exact (conj H1 H2)|].
  exact (CreateBucket_listed ["storage"] "photos" Scenario.w0 Scenario.w1 H1 H2).
Defined.

Lemma CreateBucket_existing_witness :
  (valid_name "photos" ∧
   Os.Lstat (files Scenario.w1) (["storage"] ++ ["data"; "photos"])
     = inr Os.Directory ∧
   Os.Lstat (files Scenario.w1)
     (["storage"] ++ ["metadata"; "photos" +:+ ".json"])
     = inr (Os.RegFile
              (MarshalBucket {| Name := "photos"; Created := clock Scenario.w0 |}))) ∧
  CreateBucket (storage_at ["storage"]) "photos" Scenario.w1 =
  (Ok (),
   {| files := <[["storage"] ++ ["metadata"; "photos" +:+ ".json"] :=
                   Os.RegFile (MarshalBucket
                     {| Name := "photos"; Created := clock Scenario.w1 |})]>
                 (files Scenario.w1);
      clock := (clock Scenario.w1 + 1)%Z; rand := rand Scenario.w1 |}).
Proof.
  assert (valid_name "photos") as H1 by by_computation.
  assert (Os.Lstat (files Scenario.w1) (["storage"] ++ ["data"; "photos"])
          = inr Os.Directory) as H2 by by_computation.
  assert (Os.Lstat (files Scenario.w1)
            (["storage"] ++ ["metadata"; "photos" +:+ ".json"])
          = inr (Os.RegFile
                   (MarshalBucket
                      {| Name := "photos"; Created := clock Scenario.w0 |})))
    as H3 by by_computation.
  split; [exact (conj H1 (conj H2 H3))|].
  exact (CreateBucket_existing ["storage"] "photos" Scenario.w1 _ H1 H2 H3).
Defined.

Lemma NewObjectStorage_existing_witness :
  (Os.Lstat (files Scenario.w2) (Join [] ["./storage"] ++ ["data"])
     = inr Os.Directory ∧
   Os.Lstat (files Scenario.w2) (Join [] ["./storage"] ++ ["metadata"])
     = inr Os.Directory) ∧
  NewObjectStorage "./storage" Scenario.w2
  = (Ok (storage_at (Join [] ["./storage"])), Scenario.w2).
Proof.
  assert (Os.Lstat (files Scenario.w2) (Join [] ["./storage"] ++ ["data"])
          = inr Os.Directory) as H1 by by_computation.
  assert (Os.Lstat (files Scenario.w2) (Join [] ["./storage"] ++ ["metadata"])
          = inr Os.Directory) as H2 by by_computation.
  split; [exact (conj H1 H2)|].
  exact (NewObjectStorage_existing "./storage" Scenario.w2 H1 H2).
Defined.

Lemma NewObjectStorage_on_file_witness :
  Os.Lstat (files Runs.w_file) (Join [] ["./storage"]) = inr (Os.RegFile []) ∧
  (NewObjectStorage "./storage" Runs.w_file
   = (Ok (storage_at (Join [] ["./storage"])), Runs.w_file) ∧
   ∀ b, valid_name b →
     (∃ e, CreateBucket (storage_at (Join [] ["./storage"])) b Runs.w_file
           = (Err e, Runs.w_file)) ∧
     (∀ k data ct, clean_key k →
        ∃ e, PutObject (storage_at (Join [] ["./storage"])) b k data ct
               Runs.w_file = (Err e, Runs.w_file))).
Proof.
  assert (Os.Lstat (files Runs.w_file) (Join [] ["./storage"])
          = inr (Os.RegFile [])) as H1 by by_computation.
  split; [exact H1|].
  exact (NewObjectStorage_on_file "./storage" Runs.w_file [] H1).
Defined.

Lemma PutObject_leaves_no_temporary_file_witness :
  (PutObject Scenario.st "photos" "a.txt" Scenario.hello "text/plain"
     Scenario.w1 = (Ok Scenario.a_txt, Scenario.w2) ∧
   files Scenario.w2 !! ["storage"; "data"; "photos"; "a.txt"]
     = Some (Os.RegFile (bytes "hello"))) ∧
  (files Scenario.w1 !! ["storage"; "data"; "photos"; "a.txt"]
     = Some (Os.RegFile (bytes "hello")) ∨
   ["storage"; "data"; "photos"; "a.txt"]
     = Join (dataDir Scenario.st) ["photos"; "a.txt"] ∨
   ["storage"; "data"; "photos"; "a.txt"]
     = Join (metadataDir Scenario.st) ["photos"; "a.txt" +:+ ".json"]).
Proof.
  assert (PutObject Scenario.st "photos" "a.txt" Scenario.hello "text/plain"
            Scenario.w1 = (Ok Scenario.a_txt, Scenario.w2)) as H1
    by by_computation.
  assert (files Scenario.w2 !! ["storage"; "data"; "photos"; "a.txt"]
          = Some (Os.RegFile (bytes "hello"))) as H2 by by_computation.
  split; [exact (conj H1 H2)|].
  exact (PutObject_leaves_no_temporary_file Scenario.st "photos" "a.txt"
           Scenario.hello "text/plain" Scenario.w1 (Ok Scenario.a_txt)
           Scenario.w2 _ _ H1 H2).
Defined.

Lemma PutObject_keeps_other_objects_witness :
  (PutObject Scenario.st "photos" "b.txt" Runs.second "text/plain" Scenario.w2
     = (Ok Runs.m_b, Runs.w_b) ∧
   GetObject Scenario.st "photos" "a.txt" Scenario.w2
     = (Ok (Os.RegFile (bytes "hello"), Scenario.a_txt), Scenario.w2) ∧
   Join (dataDir Scenario.st) ["photos"; "a.txt"]
     ≠ Join (dataDir Scenario.st) ["photos"; "b.txt"] ∧
   Join (dataDir Scenario.st) ["photos"; "a.txt"]
     ≠ Join (metadataDir Scenario.st) ["photos"; "b.txt" +:+ ".json"] ∧
   Join (metadataDir Scenario.st) ["photos"; "a.txt" +:+ ".json"]
     ≠ Join (dataDir Scenario.st) ["photos"; "b.txt"] ∧
   Join (metadataDir Scenario.st) ["photos"; "a.txt" +:+ ".json"]
     ≠ Join (metadataDir Scenario.st) ["photos"; "b.txt" +:+ ".json"]) ∧
  GetObject Scenario.st "photos" "a.txt" Runs.w_b
  = (Ok (Os.RegFile (bytes "hello"), Scenario.a_txt), Runs.w_b).
Proof.
  assert (PutObject Scenario.st "photos" "b.txt" Runs.second "text/plain"
            Scenario.w2 = (Ok Runs.m_b, Runs.w_b)) as H1 by by_computation.
  assert (GetObject Scenario.st "photos" "a.txt" Scenario.w2
          = (Ok (Os.RegFile (bytes "hello"), Scenario.a_txt), Scenario.w2))
    as H2 by by_computation.
  assert (Join (dataDir Scenario.st) ["photos"; "a.txt"]
          ≠ Join (dataDir Scenario.st) ["photos"; "b.txt"]) as H3
    by by_computation.
  assert (Join (dataDir Scenario.st) ["photos"; "a.txt"]
          ≠ Join (metadataDir Scenario.st) ["photos"; "b.txt" +:+ ".json"])
    as H4 by by_computation.
  assert (Join (metadataDir Scenario.st) ["photos"; "a.txt" +:+ ".json"]
          ≠ Join (dataDir Scenario.st) ["photos"; "b.txt"]) as H5
    by by_computation.
  assert (Join (metadataDir Scenario.st) ["photos"; "a.txt" +:+ ".json"]
          ≠ Join (metadataDir Scenario.st) ["photos"; "b.txt" +:+ ".json"])
    as H6 by by_computation.
  split; [exact (conj H1 (conj H2 (conj H3 (conj H4 (conj H5 H6)))))|].
  exact (PutObject_keeps_other_objects Scenario.st "photos" "b.txt"
           Runs.second "text/plain" Scenario.w2 _ Runs.w_b "photos" "a.txt"
           _ _ H1 H2 H3 H4 H5 H6).
Defined.

Lemma ListObjects_lists_every_put_witness :
  (valid_name "photos" ∧
   (three_puts = [] →
    Os.Lstat (files Scenario.w1) (["storage"] ++ ["data"; "photos"])
    = inr Os.Directory) ∧
   bucket_empty ["storage"] "photos" (files Scenario.w1) ∧
   Forall clean_key (put_keys three_puts) ∧
   NoDup (put_keys three_puts) ∧
   put_all ["storage"] "photos" three_puts Scenario.w1
     = Some (three_puts_result.1, three_puts_result.2)) ∧
  ∃ l, ListObjects (storage_at ["storage"]) "photos" three_puts_result.2
       = (Ok l, three_puts_result.2) ∧ l ≡ₚ three_puts_result.1.
Proof.
  assert (valid_name "photos") as H1 by by_computation.
  assert (three_puts = [] →
          Os.Lstat (files Scenario.w1) (["storage"] ++ ["data"; "photos"])
          = inr Os.Directory) as H2 by (intros _; by_computation).
  assert (bucket_empty ["storage"] "photos" (files Scenario.w1)) as H3
    by by_computation.
  assert (Forall clean_key (put_keys three_puts)) as H4 by by_computation.
  assert (NoDup (put_keys three_puts)) as H5 by by_computation.
  assert (put_all ["storage"] "photos" three_puts Scenario.w1
          = Some (three_puts_result.1, three_puts_result.2)) as H6
    by by_computation.
  split; [exact (conj H1 (conj H2 (conj H3 (conj H4 (conj H5 H6)))))|].
  exact (ListObjects_lists_every_put ["storage"] "photos" H1 three_puts
           Scenario.w1 three_puts_result.1 three_puts_result.2
           H2 H3 H4 H5 H6).
Defined.

Lemma ListObjects_in_key_order_witness :
  (valid_name "photos" ∧
   bucket_empty ["storage"] "photos" (files Scenario.w1) ∧
   Forall clean_key (put_keys three_puts) ∧
   NoDup (put_keys three_puts) ∧
   put_all ["storage"] "photos" three_puts Scenario.w1
     = Some (three_puts_result.1, three_puts_result.2) ∧
   ListObjects (storage_at ["storage"]) "photos" three_puts_result.2
     = (Ok Runs.three_puts_listing, three_puts_result.2)) ∧
  StronglySorted key_le Runs.three_puts_listing.
Proof.
  assert (valid_name "photos") as H1 by by_computation.
  assert (bucket_empty ["storage"] "photos" (files Scenario.w1)) as H3
    by by_computation.
  assert (Forall clean_key (put_keys three_puts)) as H4 by by_computation.
  assert (NoDup (put_keys three_puts)) as H5 by by_computation.
  assert (put_all ["storage"] "photos" three_puts Scenario.w1
          = Some (three_puts_result.1, three_puts_result.2)) as H6
    by by_computation.
  assert (ListObjects (storage_at ["storage"]) "photos" three_puts_result.2
          = (Ok Runs.three_puts_listing, three_puts_result.2)) as H7
    by by_computation.
  split; [exact (conj H1 (conj H3 (conj H4 (conj H5 (conj H6 H7)))))|].
  exact (ListObjects_in_key_order ["storage"] "photos" H1 three_puts
           Scenario.w1 three_puts_result.1 three_puts_result.2
           Runs.three_puts_listing H3 H4 H5 H6 H7).
Defined.

Example three_puts_listing_keys :
  Key <$> Runs.three_puts_listing = ["2024/c.txt"; "a.txt"; "b.txt"].
Proof. reflexivity. Qed.

Lemma dotdot_key_reaches_other_bucket_witness :
  (valid_name "music" ∧ valid_name "photos") ∧
  GetObject Scenario.st "music" ("../" +:+ "photos" +:+ "/" +:+ "a.txt")
    Scenario.w2
  = GetObject Scenario.st "photos" "a.txt" Scenario.w2 ∧
  DeleteObject Scenario.st "music" ("../" +:+ "photos" +:+ "/" +:+ "a.txt")
    Scenario.w2
  = DeleteObject Scenario.st "photos" "a.txt" Scenario.w2.
Proof.
  assert (valid_name "music") as H1 by by_computation.
  assert (valid_name "photos") as H2 by by_computation.
  split; [exact (conj H1 H2)|].
  exact (dotdot_key_reaches_other_bucket Scenario.st "music" "photos" "a.txt"
           Scenario.w2 H1 H2).
Defined.

Example dotdot_key_get :
  GetObject Scenario.st "music" "../photos/a.txt" Scenario.w2
  = (Ok (Os.RegFile (bytes "hello"), Scenario.a_txt), Scenario.w2).
Proof. by_computation. Qed.

Definition put_a_txt_request : Server.Request :=
  {| Server.Method := "PUT"; Server.URL_Path := "/objects/photos/a.txt";
     Server.Content_Type := ""; Server.Body := Scenario.hello |}.

Definition delete_a_txt_request : Server.Request :=
  {| Server.Method := "DELETE"; Server.URL_Path := "/objects/photos/a.txt";
     Server.Content_Type := ""; Server.Body := EOF |}.

Lemma no_route_removes_an_entry_witness :
  ("/objects/", Server.main_objects Runs.server)
    ∈ Server.main_routes Runs.server ∧
  keeps_entries (files Scenario.w1)
    (files (Server.main_objects Runs.server put_a_txt_request Scenario.w1).2).
Proof.
  assert (("/objects/", Server.main_objects Runs.server)
            ∈ Server.main_routes Runs.server) as H1.
  { unfold Server.main_routes. rewrite !elem_of_cons. right; right; by left. }
  split; [exact H1|].
  exact (no_route_removes_an_entry Runs.server "/objects/"
           (Server.main_objects Runs.server) put_a_txt_request Scenario.w1 H1).
Defined.

Lemma objects_route_other_methods_witness :
  (Server.Method delete_a_txt_request ≠ "GET" ∧
   Server.Method delete_a_txt_request ≠ "PUT") ∧
  Server.main_objects Runs.server delete_a_txt_request Scenario.w2
  = ([Server.http_Error "Method not allowed" Server.StatusMethodNotAllowed],
     Scenario.w2).
Proof.
  assert (Server.Method delete_a_txt_request ≠ "GET") as H1 by by_computation.
  assert (Server.Method delete_a_txt_request ≠ "PUT") as H2 by by_computation.
  split; [exact (conj H1 H2)|].
  exact (objects_route_other_methods Runs.server delete_a_txt_request
           Scenario.w2 H1 H2).
Defined.

Lemma put_then_get_over_http_witness :
  (Contains "photos" "/" = false ∧
   PutObject (storage_at ["storage"]) "photos" "a.txt" Scenario.hello
     (if decide ("" = "") then "application/octet-stream" else "") Scenario.w1
   = (Ok Runs.m_upload, Runs.w_upload)) ∧
  (Server.main_objects (Server.NewStorageServer (storage_at ["storage"]))
     {| Server.Method := "PUT";
        Server.URL_Path := "/objects/" +:+ "photos" +:+ "/" +:+ "a.txt";
        Server.Content_Type := ""; Server.Body := Scenario.hello |} Scenario.w1
   = ([Server.Header_Set "Content-Type" (Server.Text "application/json");
       Server.Header_Set "ETag"
         (Server.Text
            (Hex.EncodeToString (MD5.Sum (reader_bytes Scenario.hello))));
       Server.Encode (Server.OfMetadata Runs.m_upload)], Runs.w_upload) ∧
   ∀ ct' body',
     Server.main_objects (Server.NewStorageServer (storage_at ["storage"]))
       {| Server.Method := "GET";
          Server.URL_Path := "/objects/" +:+ "photos" +:+ "/" +:+ "a.txt";
          Server.Content_Type := ct'; Server.Body := body' |} Runs.w_upload
     = ([Server.Header_Set "Content-Type"
           (Server.Text
              (if decide ("" = "") then "application/octet-stream" else ""));
         Server.Header_Set "ETag"
           (Server.Text
              (Hex.EncodeToString (MD5.Sum (reader_bytes Scenario.hello))));
         Server.Header_Set "Last-Modified" (Server.HTTPTime (clock Scenario.w1));
         Server.Header_Set "Content-Length"
           (Server.Text
              (pretty (Z.of_nat (length (reader_bytes Scenario.hello)))));
         Server.Write (reader_bytes Scenario.hello)], Runs.w_upload)).
Proof.
  assert (Contains "photos" "/" = false) as H1 by reflexivity.
  assert (PutObject (storage_at ["storage"]) "photos" "a.txt" Scenario.hello
            (if decide ("" = "") then "application/octet-stream" else "")
            Scenario.w1 = (Ok Runs.m_upload, Runs.w_upload)) as H2
    by by_computation.
  split; [exact (conj H1 H2)|].
  exact (put_then_get_over_http ["storage"] "photos" "a.txt" Scenario.hello ""
           Scenario.w1 Runs.m_upload Runs.w_upload H1 H2).
Defined.


Lemma create_then_list_buckets_over_http_witness :
  (valid_name "photos" ∧
   CreateBucket (storage_at ["storage"]) "photos" Scenario.w0
   = (Ok (), Scenario.w1)) ∧
  ((∀ ct body,
      Server.handleCreateBucket
        (Server.NewStorageServer (storage_at ["storage"]))
        {| Server.Method := "PUT"; Server.URL_Path := "/buckets/" +:+ "photos";
           Server.Content_Type := ct; Server.Body := body |} Scenario.w0
      = ([Server.WriteHeader Server.StatusCreated;
          Server.Encode (Server.StatusMap "status" "bucket created")],
         Scenario.w1)) ∧
   (∀ path ct body, ∃ l w'',
      Server.handleListBuckets
        (Server.NewStorageServer (storage_at ["storage"]))
        {| Server.Method := "PUT"; Server.URL_Path := path;
           Server.Content_Type := ct; Server.Body := body |} Scenario.w1
      = ([Server.Header_Set "Content-Type" (Server.Text "application/json");
          Server.Encode (Server.OfBuckets l)], w'') ∧
      {| Name := "photos"; Created := clock Scenario.w0 |} ∈ l) ∧
   (∀ r, Server.Method r ≠ "PUT" →
      Server.handleListBuckets
        (Server.NewStorageServer (storage_at ["storage"])) r Scenario.w1
      = ([Server.http_Error "Method not allowed"
            Server.StatusMethodNotAllowed], Scenario.w1))).
Proof.
  assert (valid_name "photos") as H1 by by_computation.
  assert (CreateBucket (storage_at ["storage"]) "photos" Scenario.w0
          = (Ok (), Scenario.w1)) as H2 by by_computation.
  split; [exact (conj H1 H2)|].
  exact (create_then_list_buckets_over_http ["storage"] "photos" Scenario.w0
           Scenario.w1 H1 H2).
Defined.

Lemma objects_route_never_400_witness :
  (∀ msg,
     Server.http_Error msg Server.StatusBadRequest
     ∉ (Server.main_objects Runs.server
          {| Server.Method := "PUT"; Server.URL_Path := "/objects/photos";
             Server.Content_Type := ""; Server.Body := Scenario.hello |}
          Scenario.w1).1) ∧
  Server.main_objects Runs.server
    {| Server.Method := "PUT"; Server.URL_Path := "/objects/photos";
       Server.Content_Type := ""; Server.Body := Scenario.hello |} Scenario.w1
  = ([Server.http_Error "Method not allowed" Server.StatusMethodNotAllowed],
     Scenario.w1).
Proof.
  split.
  - exact (proj1 (objects_route_never_400 Runs.server
             {| Server.Method := "PUT"; Server.URL_Path := "/objects/photos";
                Server.Content_Type := ""; Server.Body := Scenario.hello |}
             Scenario.w1)).
  - apply (proj2 (objects_route_never_400 Runs.server
             {| Server.Method := "PUT"; Server.URL_Path := "/objects/photos";
                Server.Content_Type := ""; Server.Body := Scenario.hello |}
             Scenario.w1)); reflexivity.
Defined.

Lemma getContentType_by_last_extension_witness :
  (plain "gz" ∧ plain "Makefile") ∧
  Client.getContentType ("backup.tar" +:+ "." +:+ "gz")
    = Client.getContentType ("." +:+ "gz") ∧
  Client.getContentType "Makefile" = Some "application/octet-stream" ∧
  Client.getContentType ("src.d" +:+ "/" +:+ "Makefile")
    = Some "application/octet-stream".
Proof.
  assert (plain "gz") as H1 by by_computation.
  assert (plain "Makefile") as H2 by by_computation.
  split; [exact (conj H1 H2)|].
  exact (getContentType_by_last_extension "backup.tar" "gz" "src.d" "Makefile"
           H1 H2).
Defined.

Lemma getContentType_ignores_case_witness :
  Client.ToLower "Report.PDF" = Some "report.pdf" ∧
  Client.getContentType "report.pdf" = Client.getContentType "Report.PDF".
Proof.
  assert (Client.ToLower "Report.PDF" = Some "report.pdf") as H1
    by reflexivity.
  split; [exact H1|].
  exact (getContentType_ignores_case "Report.PDF" "report.pdf" H1).
Defined.

Lemma PutObject_onto_directory_witness :
  Os.Lstat (files Scenario.w1) (Join (dataDir Scenario.st) ["photos"; ""])
    = inr Os.Directory ∧
  ∃ e w', PutObject Scenario.st "photos" "" Scenario.hello "text/plain"
            Scenario.w1 = (Err e, w') ∧
          files w' = files Scenario.w1.
Proof.
  assert (Os.Lstat (files Scenario.w1)
            (Join (dataDir Scenario.st) ["photos"; ""]) = inr Os.Directory)
    as H1 by by_computation.
  split; [exact H1|].
  exact (PutObject_onto_directory Scenario.st "photos" "" Scenario.hello
           "text/plain" Scenario.w1 H1).
Defined.

Lemma PutObject_below_object_witness :
  (valid_name "photos" ∧ clean_key "a.txt" ∧ clean_key "thumb.png" ∧
   Os.Lstat (files Scenario.w2) (Join (dataDir Scenario.st) ["photos"; "a.txt"])
   = inr (Os.RegFile (bytes "hello"))) ∧
  ∃ e, PutObject Scenario.st "photos" ("a.txt" +:+ "/" +:+ "thumb.png")
         Scenario.hello "image/png" Scenario.w2 = (Err e, Scenario.w2).
Proof.
  assert (valid_name "photos") as H1 by by_computation.
  assert (clean_key "a.txt") as H2 by by_computation.
  assert (clean_key "thumb.png") as H3 by by_computation.
  assert (Os.Lstat (files Scenario.w2)
            (Join (dataDir Scenario.st) ["photos"; "a.txt"])
          = inr (Os.RegFile (bytes "hello"))) as H4 by by_computation.
  split; [exact (conj H1 (conj H2 (conj H3 H4)))|].
  exact (PutObject_below_object Scenario.st "photos" "a.txt" "thumb.png"
           Scenario.hello "image/png" Scenario.w2 _ H1 H2 H3 H4).
Defined.

Lemma formatSize_shows_nearest_tenth_witness :
  (ClientSize.KB ≤ 1048575 < ClientSize.GB)%Z ∧
  ∃ t : Z,
    ClientSize.formatSize 1048575
    = (pretty (t / 10)%Z +:+ "." +:+ pretty (t mod 10)%Z) +:+ "KB" ∧
    (10 ≤ t ≤ 10240)%Z ∧
    (Z.abs (10 * 1048575 - t * 1024) * 2 ≤ 1024)%Z ∧
    (t = 10240%Z ↔ (20479 * 1024 ≤ 20 * 1048575)%Z).
Proof.
  assert (ClientSize.KB ≤ 1048575 < ClientSize.GB)%Z as H1
    by (unfold ClientSize.GB, ClientSize.MB, ClientSize.KB; lia).
  split; [exact H1|].
  exact (formatSize_shows_nearest_tenth 1048575 H1).
Defined.
